(** * RC_Channel: radio-control input classification and auxiliary dispatch

    A shallow embedding of [libraries/RC_Channel/RC_Channel.cpp]: the PWM
    conversions, the override arbiter, the debounced switch classifier, the
    auxiliary-function dispatcher and the duplicate-option scan, followed by
    the properties established about them. *)

From Stdlib Require Import ZArith QArith Qround Qabs Qcanon String List Bool Lia Lqa.
From Stdlib Require Import Floats.SpecFloat.
Import ListNotations.
Local Open Scope Z_scope.

(** ** Fixed-width integer types of the C++ source *)

Module CInt.

(** Conversion to an unsigned type keeps the value modulo [2^w]. *)
Definition to_uint8  (x : Z) : Z := x mod 2 ^ 8.
Definition to_uint16 (x : Z) : Z := x mod 2 ^ 16.
Definition to_uint32 (x : Z) : Z := x mod 2 ^ 32.

(** Conversion to a signed type wraps into [-2^(w-1), 2^(w-1)). *)
Definition to_int8  (x : Z) : Z := (x + 2 ^ 7) mod 2 ^ 8 - 2 ^ 7.
Definition to_int16 (x : Z) : Z := (x + 2 ^ 15) mod 2 ^ 16 - 2 ^ 15.

Definition is_int8   (x : Z) : Prop := - 2 ^ 7 <= x < 2 ^ 7.
Definition is_int16  (x : Z) : Prop := - 2 ^ 15 <= x < 2 ^ 15.
Definition is_uint16 (x : Z) : Prop := 0 <= x < 2 ^ 16.
Definition is_uint32 (x : Z) : Prop := 0 <= x < 2 ^ 32.

(** [uint32_t] subtraction, as in [AP_HAL::millis() - last]. *)
Definition sub_uint32 (a b : Z) : Z := to_uint32 (a - b).

End CInt.
Import CInt.

(** ** Single-precision arithmetic

    A finite [float] is represented by the rational it denotes; [NonFinite]
    stands for an infinity or a NaN, which is what overflow and division by
    zero produce.  Every operation rounds its exact result to the nearest
    binary32 value, ties to even. *)

Module F32.

Inductive float : Type :=
| Finite (q : Q)
| NonFinite.

(** Every binary32 value is an integer multiple of [2^-149]. *)
Definition scale : Z := 2 ^ 149.

(** Largest finite binary32 value, [(2^24 - 1) * 2^104]. *)
Definition FLT_MAX : Q := inject_Z ((2 ^ 24 - 1) * 2 ^ 104).

(** Nearest integer, ties to the even one. *)
Definition round_half_even (q : Q) : Z :=
  let f := Qfloor q in
  match Qcompare (q - inject_Z f) (1 # 2) with
  | Lt => f
  | Gt => f + 1
  | Eq => if Z.even f then f else f + 1
  end.

(** Rounding of a non-negative value [X] given in units of [2^-149]: it
    keeps 24 significant bits, so the last [k] bits of the integer part
    are rounded away; [k = 0] throughout the subnormal range. *)
Definition round_units (X : Q) : Z :=
  let k := Z.max (Z.log2 (Qfloor X) - 23) 0 in
  round_half_even (X / inject_Z (2 ^ k)) * 2 ^ k.

(** Rounding of a non-negative rational. *)
Definition round_mag (x : Q) : Q :=
  Qred (inject_Z (round_units (x * inject_Z scale)) / inject_Z scale).

Definition round (x : Q) : Q :=
  if Qle_bool 0 x then round_mag x else (- round_mag (- x))%Q.

(** The rounded result, or [NonFinite] on overflow. *)
Definition of_Q (x : Q) : float :=
  let r := round x in
  if Qle_bool (Qabs r) FLT_MAX then Finite r else NonFinite.

(** [(float)n] for an integer [n]. *)
Definition of_int (n : Z) : float := of_Q (inject_Z n).

Definition mul (a b : float) : float :=
  match a, b with
  | Finite x, Finite y => of_Q (x * y)
  | _, _ => NonFinite
  end.

(** Division by zero yields an infinity or a NaN. *)
Definition div (a b : float) : float :=
  match a, b with
  | Finite x, Finite y => if Qeq_bool y 0 then NonFinite else of_Q (x / y)
  | _, _ => NonFinite
  end.

(** The rational denoted by a finite value of the Standard Library's
    IEEE 754 specification, used to cross-check [round]. *)
Definition of_spec_float (f : spec_float) : float :=
  match f with
  | S754_zero _ => Finite 0
  | S754_finite s m e =>
      let v := if Z.leb 0 e then inject_Z (Zpos m * 2 ^ e)
               else (inject_Z (Zpos m) / inject_Z (2 ^ (- e)))%Q in
      Finite (Qred (if s then - v else v))
  | _ => NonFinite
  end.

Definition spec_of_int (n : Z) : spec_float := binary_normalize 24 128 n 0 false.

Definition zero : float := Finite 0.

(** A bound under which the conversions stay: no product of a [uint16_t]
    by a difference of two [int16_t] reaches it. *)
Definition two32 : Q := inject_Z (2 ^ 32).

End F32.


(** ** Build configuration, enumerations and records *)

(** Feature macros tested by [#if] in the source, and the constants that
    [RC_Channel.h] defines for it. *)
Record Config : Type := {
  AP_ADSB_AVOIDANCE_ENABLED : bool;
  AP_AHRS_ENABLED : bool;
  AP_AIRSPEED_ENABLED : bool;
  AP_ARMING_ENABLED : bool;
  AP_AVOIDANCE_ENABLED : bool;
  AP_BATTERY_ENABLED : bool;
  AP_CAMERA_ENABLED : bool;
  AP_CAMERA_RUNCAM_ENABLED : bool;
  AP_CAMERA_SET_CAMERA_SOURCE_ENABLED : bool;
  AP_EXTERNAL_AHRS_ENABLED : bool;
  AP_FENCE_ENABLED : bool;
  AP_GPS_ENABLED : bool;
  AP_GRIPPER_ENABLED : bool;
  AP_INERTIALSENSOR_KILL_IMU_ENABLED : bool;
  AP_LANDINGGEAR_ENABLED : bool;
  AP_MISSION_ENABLED : bool;
  AP_OPTICALFLOW_CALIBRATOR_ENABLED : bool;
  AP_RC_CHANNEL_AUX_FUNCTION_STRINGS_ENABLED : bool;
  AP_RELAY_ENABLED : bool;
  AP_SCRIPTING_ENABLED : bool;
  AP_SERVORELAYEVENTS_ENABLED : bool;
  AP_VIDEOTX_ENABLED : bool;
  APM_BUILD_ArduPlane : bool;
  COMPASS_CAL_ENABLED : bool;
  HAL_GENERATOR_ENABLED : bool;
  HAL_GYROFFT_ENABLED : bool;
  HAL_LOGGING_ENABLED : bool;
  HAL_MOUNT_ENABLED : bool;
  HAL_NAVEKF3_AVAILABLE : bool;
  HAL_PARACHUTE_ENABLED : bool;
  HAL_SPRAYER_ENABLED : bool;
  HAL_TORQEEDO_ENABLED : bool;
  HAL_VISUALODOM_ENABLED : bool;
  (* constants of RC_Channel.h *)
  RC_MIN_LIMIT_PWM : Z;
  RC_MAX_LIMIT_PWM : Z;
  AUX_SWITCH_PWM_TRIGGER_LOW : Z;
  AUX_SWITCH_PWM_TRIGGER_HIGH : Z;
  AUX_FUNCTION_MAX : Z
}.

(** [RC_Channel::AUX_FUNC]: the option ids, numbered as the [@Values] of
    the [OPTION] parameter document them. *)
Module AUX_FUNC.
Abbreviation DO_NOTHING := 0%Z (only parsing).
Abbreviation CAMERA_TRIGGER := 9%Z (only parsing).
Abbreviation FENCE := 11%Z (only parsing).
Abbreviation SPRAYER := 15%Z (only parsing).
Abbreviation GRIPPER := 19%Z (only parsing).
Abbreviation PARACHUTE_RELEASE := 22%Z (only parsing).
Abbreviation MISSION_RESET := 24%Z (only parsing).
Abbreviation RETRACT_MOUNT1 := 27%Z (only parsing).
Abbreviation RELAY := 28%Z (only parsing).
Abbreviation LANDING_GEAR := 29%Z (only parsing).
Abbreviation LOST_VEHICLE_SOUND := 30%Z (only parsing).
Abbreviation MOTOR_ESTOP := 31%Z (only parsing).
Abbreviation RELAY2 := 34%Z (only parsing).
Abbreviation RELAY3 := 35%Z (only parsing).
Abbreviation RELAY4 := 36%Z (only parsing).
Abbreviation AVOID_ADSB := 38%Z (only parsing).
Abbreviation AVOID_PROXIMITY := 40%Z (only parsing).
Abbreviation RC_OVERRIDE_ENABLE := 46%Z (only parsing).
Abbreviation CLEAR_WP := 58%Z (only parsing).
Abbreviation COMPASS_LEARN := 62%Z (only parsing).
Abbreviation GPS_DISABLE := 65%Z (only parsing).
Abbreviation RELAY5 := 66%Z (only parsing).
Abbreviation RELAY6 := 67%Z (only parsing).
Abbreviation RUNCAM_CONTROL := 78%Z (only parsing).
Abbreviation RUNCAM_OSD_CONTROL := 79%Z (only parsing).
Abbreviation VISODOM_ALIGN := 80%Z (only parsing).
Abbreviation DISARM := 81%Z (only parsing).
Abbreviation GENERATOR := 85%Z (only parsing).
Abbreviation EKF_SOURCE_SET := 90%Z (only parsing).
Abbreviation VTX_POWER := 94%Z (only parsing).
Abbreviation KILL_IMU1 := 100%Z (only parsing).
Abbreviation KILL_IMU2 := 101%Z (only parsing).
Abbreviation CAM_MODE_TOGGLE := 102%Z (only parsing).
Abbreviation EKF_LANE_SWITCH := 103%Z (only parsing).
Abbreviation EKF_YAW_RESET := 104%Z (only parsing).
Abbreviation GPS_DISABLE_YAW := 105%Z (only parsing).
Abbreviation DISABLE_AIRSPEED_USE := 106%Z (only parsing).
Abbreviation KILL_IMU3 := 110%Z (only parsing).
Abbreviation LOWEHEISER_STARTER := 111%Z (only parsing).
Abbreviation AHRS_TYPE := 112%Z (only parsing).
Abbreviation RETRACT_MOUNT2 := 113%Z (only parsing).
Abbreviation ARMDISARM := 153%Z (only parsing).
Abbreviation ARMDISARM_AIRMODE := 154%Z (only parsing).
Abbreviation TORQEEDO_CLEAR_ERR := 156%Z (only parsing).
Abbreviation OPTFLOW_CAL := 158%Z (only parsing).
Abbreviation FFT_NOTCH_TUNE := 162%Z (only parsing).
Abbreviation MOUNT_LOCK := 163%Z (only parsing).
Abbreviation LOG_PAUSE := 164%Z (only parsing).
Abbreviation ARM_EMERGENCY_STOP := 165%Z (only parsing).
Abbreviation CAMERA_REC_VIDEO := 166%Z (only parsing).
Abbreviation CAMERA_ZOOM := 167%Z (only parsing).
Abbreviation CAMERA_MANUAL_FOCUS := 168%Z (only parsing).
Abbreviation CAMERA_AUTO_FOCUS := 169%Z (only parsing).
Abbreviation MAG_CAL := 171%Z (only parsing).
Abbreviation BATTERY_MPPT_ENABLE := 172%Z (only parsing).
Abbreviation CAMERA_IMAGE_TRACKING := 174%Z (only parsing).
Abbreviation CAMERA_LENS := 175%Z (only parsing).
Abbreviation MOUNT_LRF_ENABLE := 177%Z (only parsing).
Abbreviation MOUNT1_ROLL := 212%Z (only parsing).
Abbreviation MOUNT1_PITCH := 213%Z (only parsing).
Abbreviation MOUNT1_YAW := 214%Z (only parsing).
Abbreviation MOUNT2_ROLL := 215%Z (only parsing).
Abbreviation MOUNT2_PITCH := 216%Z (only parsing).
Abbreviation MOUNT2_YAW := 217%Z (only parsing).
Abbreviation LOWEHEISER_THROTTLE := 218%Z (only parsing).
Abbreviation SCRIPTING_1 := 300%Z (only parsing).
Abbreviation SCRIPTING_2 := 301%Z (only parsing).
Abbreviation SCRIPTING_3 := 302%Z (only parsing).
Abbreviation SCRIPTING_4 := 303%Z (only parsing).
Abbreviation SCRIPTING_5 := 304%Z (only parsing).
Abbreviation SCRIPTING_6 := 305%Z (only parsing).
Abbreviation SCRIPTING_7 := 306%Z (only parsing).
Abbreviation SCRIPTING_8 := 307%Z (only parsing).
Abbreviation SCRIPTING_9 := 308%Z (only parsing).
Abbreviation SCRIPTING_10 := 309%Z (only parsing).
Abbreviation SCRIPTING_11 := 310%Z (only parsing).
Abbreviation SCRIPTING_12 := 311%Z (only parsing).
Abbreviation SCRIPTING_13 := 312%Z (only parsing).
Abbreviation SCRIPTING_14 := 313%Z (only parsing).
Abbreviation SCRIPTING_15 := 314%Z (only parsing).
Abbreviation SCRIPTING_16 := 315%Z (only parsing).
Abbreviation STOP_RESTART_SCRIPTING := 316%Z (only parsing).
End AUX_FUNC.

(** [RC_Channel::AuxSwitchPos]; [do_aux_function_camera_lens] relies on
    LOW, MIDDLE and HIGH being 0, 1 and 2. *)
Inductive AuxSwitchPos : Type := LOW | MIDDLE | HIGH.

Definition AuxSwitchPos_value (p : AuxSwitchPos) : Z :=
  match p with LOW => 0 | MIDDLE => 1 | HIGH => 2 end.

Definition AuxSwitchPos_eqb (a b : AuxSwitchPos) : bool :=
  AuxSwitchPos_value a =? AuxSwitchPos_value b.

(** [AuxFuncTrigger::Source]; this file uses INIT and RC. *)
Inductive Source : Type := INIT | RC | BUTTON | MAVLINK | MISSION | SCRIPTING.

Definition Source_value (s : Source) : Z :=
  match s with
  | INIT => 0 | RC => 1 | BUTTON => 2 | MAVLINK => 3 | MISSION => 4 | SCRIPTING => 5
  end.

Record AuxFuncTrigger : Type := {
  func : Z;
  pos : AuxSwitchPos;
  source : Source;
  source_index : Z
}.

Inductive ControlType : Type := ANGLE | RANGE.

Record switch_state_t : Type := {
  debounce_position : Z;      (* int8_t *)
  current_position : Z;       (* int8_t *)
  last_edge_time_ms : Z;      (* uint32_t *)
  initialised : bool
}.

(** One [RC_Channel] object. *)
Record RC_Channel : Type := {
  radio_in : Z;               (* int16_t *)
  control_in : Z;             (* int16_t *)
  radio_min : Z;              (* AP_Int16 *)
  radio_trim : Z;             (* AP_Int16 *)
  radio_max : Z;              (* AP_Int16 *)
  reversed : Z;               (* AP_Int8 *)
  dead_zone : Z;              (* AP_Int16 *)
  option_ : Z;                (* AP_Int16, the OPTION parameter *)
  type_in : ControlType;
  high_in : Z;
  ch_in : Z;                  (* uint8_t *)
  override_value : Z;         (* uint16_t *)
  last_override_time : Z;     (* uint32_t *)
  switch_state : switch_state_t
}.

Definition set_switch_state (c : RC_Channel) (ss : switch_state_t) : RC_Channel :=
  {| radio_in := radio_in c; control_in := control_in c;
     radio_min := radio_min c; radio_trim := radio_trim c;
     radio_max := radio_max c; reversed := reversed c;
     dead_zone := dead_zone c; option_ := option_ c;
     type_in := type_in c; high_in := high_in c; ch_in := ch_in c;
     override_value := override_value c;
     last_override_time := last_override_time c;
     switch_state := ss |}.

Definition set_override_fields (c : RC_Channel) (v t : Z) : RC_Channel :=
  {| radio_in := radio_in c; control_in := control_in c;
     radio_min := radio_min c; radio_trim := radio_trim c;
     radio_max := radio_max c; reversed := reversed c;
     dead_zone := dead_zone c; option_ := option_ c;
     type_in := type_in c; high_in := high_in c; ch_in := ch_in c;
     override_value := v;
     last_override_time := t;
     switch_state := switch_state c |}.

(** ** The world outside the channel

    Calls into other subsystems, GCS text and log records are collected as
    events, oldest first. *)

Inductive Severity : Type :=
| MAV_SEVERITY_CRITICAL | MAV_SEVERITY_WARNING | MAV_SEVERITY_NOTICE | MAV_SEVERITY_INFO.

Inductive TextArg : Type := ArgInt (n : Z) | ArgStr (s : string).

Inductive LogEvent : Type := AVOIDANCE_ADSB_ENABLE | AVOIDANCE_ADSB_DISABLE.

Inductive Event : Type :=
| GCS_SEND_TEXT (sev : Severity) (fmt : string) (args : list TextArg)
| Logger_Write_AUXF (function position src index result : Z)
| LOGGER_WRITE_EVENT (ev : LogEvent)
| RC_set_aux_cached (f : Z) (p : AuxSwitchPos)
| Arming_arm
| Arming_disarm
| Avoidance_enable
| Avoidance_disable
| Avoid_proximity_avoidance_enable (on : bool)
| Camera_take_picture
| Camera_record_video (on : bool)
| Camera_set_zoom_rate (step : Z)
| Camera_set_focus_rate (step : Z)
| Camera_set_focus_auto
| Camera_set_tracking (point : bool)
| Camera_set_lens (lens : Z)
| Camera_cam_mode_toggle
| RunCam_start_recording
| RunCam_osd_option
| RunCam_stop_recording
| RunCam_enter_osd
| RunCam_exit_osd
| Fence_enable_configured (on : bool)
| Mission_clear
| Mission_reset
| ServoRelayEvents_do_set_relay (relay : Z) (val : bool)
| Generator_stop
| Generator_idle
| Generator_run
| Sprayer_run (on : bool)
| Sprayer_test_pump (on : bool)
| Gripper_release
| Gripper_grab
| GyroFFT_start_notch_tune
| GyroFFT_stop_notch_tune
| Mount_set_mode_retract (instance : Z)
| Mount_set_mode_to_default (instance : Z)
| Mount_set_yaw_lock (on : bool)
| Mount_set_rangefinder_enable (instance : Z) (on : bool)
| Battery_MPPT_set_powered_state_to_all (on : bool)
| Compass_set_learn_type_inflight
| Compass_cancel_calibration_all
| Compass_start_calibration_all
| LandingGear_set_position_deploy
| LandingGear_set_position_retract
| GPS_force_disable (on : bool)
| ExternalAHRS_set_gnss_disable (on : bool)
| GPS_set_force_disable_yaw (on : bool)
| Airspeed_force_disable_use (on : bool)
| SRV_Channels_set_emergency_stop (on : bool)
| VisualOdom_request_align_yaw_to_ahrs
| AHRS_set_posvelyaw_source_set (source_set : Z)
| AHRS_check_lane_switch
| AHRS_request_yaw_reset
| AHRS_set_ekf_type (external : bool)
| OpticalFlow_start_calibration
| OpticalFlow_stop_calibration
| INS_kill_imu (imu : Z) (on : bool)
| Logger_log_pause (on : bool)
| Torqeedo_clear_motor_error
| Scripting_stop
| Scripting_restart_all
| VTX_change_power (position : Z).

(** What the channel reads from its collaborators during one call: the
    [RC_Channels] settings, which singletons exist, and what their methods
    answer.  [string_for_aux_function] is the lookup in [lookuptable], whose
    content only feeds the text announced to the GCS.
    [overrides_setter_channel] is what a call of
    [RC_Channels::set_gcs_overrides_enabled], which [RC_Channel.h] defines
    outside this file, leaves of the channel it is made from. *)
Record Env : Type := {
  override_timeout_ms : option Z;   (* [None]: get_override_timeout_ms returns false *)
  ALLOW_SWITCH_REV : bool;
  string_for_aux_function : Z -> option string;
  soft_armed : bool;
  has_ap_avoidance : bool;
  has_adsb : bool;
  adsb_enabled : bool;
  adsb_healthy : bool;
  has_ac_avoid : bool;
  has_camera : bool;
  has_runcam : bool;
  has_fence : bool;
  has_mission : bool;
  has_servorelayevents : bool;
  has_generator : bool;
  has_sprayer : bool;
  has_fft : bool;
  has_mount : bool;
  has_landing_gear : bool;
  has_airspeed : bool;
  has_visualodom : bool;
  has_opticalflow : bool;
  has_torqeedo : bool;
  has_scripting : bool;
  camera_record_video : bool -> bool;
  camera_set_zoom : Z -> bool;
  camera_set_focus_rate_accepted : Z -> bool;
  camera_set_focus_auto_accepted : bool;
  camera_set_tracking : bool -> bool;
  camera_set_lens : Z -> bool;
  (* the channel as [RC_Channels::set_gcs_overrides_enabled] leaves it *)
  overrides_setter_channel : bool -> RC_Channel -> RC_Channel
}.

Record World : Type := {
  gcs_overrides_enabled : bool;
  has_new_overrides : bool;
  vehicle_lost : bool;           (* AP_Notify::flags.vehicle_lost *)
  events : list Event
}.

Record State : Type := {
  chan : RC_Channel;
  world : World
}.

(** *** State monad over [State] *)

Definition M (A : Type) : Type := State -> A * State.

Definition ret {A : Type} (a : A) : M A := fun s => (a, s).

Definition bind {A B : Type} (m : M A) (k : A -> M B) : M B :=
  fun s => let (a, s') := m s in k a s'.

Declare Scope monad_scope.
Delimit Scope monad_scope with monad.
Notation "x <- m ;; k" := (bind m (fun x => k))
  (at level 61, m at next level, right associativity) : monad_scope.
Notation "m ;; k" := (bind m (fun _ => k))
  (at level 61, right associativity) : monad_scope.
Local Open Scope monad_scope.

Definition get_chan : M RC_Channel := fun s => (chan s, s).

Definition put_chan (c : RC_Channel) : M unit :=
  fun s => (tt, {| chan := c; world := world s |}).

Definition put_world (w : World) : M unit :=
  fun s => (tt, {| chan := chan s; world := w |}).

Definition emit (e : Event) : M unit :=
  fun s =>
    let w := world s in
    (tt, {| chan := chan s;
            world := {| gcs_overrides_enabled := gcs_overrides_enabled w;
                        has_new_overrides := has_new_overrides w;
                        vehicle_lost := vehicle_lost w;
                        events := events w ++ [e] |} |}).

(** Modelled from the spec: [RC_Channels::set_gcs_overrides_enabled] is
    defined in [RC_Channel.h], outside this file.  The spec gives the
    channel set one vehicle-wide overrides-enabled flag, which the
    RC-override handler enables or disables and without which
    [set_override] is a no-op: the call stores that flag.  What else the
    call does to the channel it is made from is said neither in this file
    nor in the spec, and is taken from the environment. *)
Definition set_gcs_overrides_enabled (env : Env) (b : bool) : M unit :=
  fun s =>
    let w := world s in
    (tt, {| chan := overrides_setter_channel env b (chan s);
            world := {| gcs_overrides_enabled := b;
                        has_new_overrides := has_new_overrides w;
                        vehicle_lost := vehicle_lost w;
                        events := events w |} |}).

(** Modelled from the spec: [RC_Channels::new_override_received] is
    defined in [RC_Channel.h], outside this file; it signals the channel
    set that a fresh override arrived. *)
Definition new_override_received : M unit :=
  fun s =>
    let w := world s in
    (tt, {| chan := chan s;
            world := {| gcs_overrides_enabled := gcs_overrides_enabled w;
                        has_new_overrides := true;
                        vehicle_lost := vehicle_lost w;
                        events := events w |} |}).

Definition set_vehicle_lost (b : bool) : M unit :=
  fun s =>
    let w := world s in
    (tt, {| chan := chan s;
            world := {| gcs_overrides_enabled := gcs_overrides_enabled w;
                        has_new_overrides := has_new_overrides w;
                        vehicle_lost := b;
                        events := events w |} |}).

Definition when (b : bool) (m : M unit) : M unit := if b then m else ret tt.

Ltac unfold_monad :=
  unfold bind, ret, get_chan, put_chan, put_world, emit, when in *.

(** ** PWM conversions *)

(** Modelled from the spec: [constrain_int16] is the clamp of AP_Math,
    defined outside this file; a value below [low] yields [low], a value
    above [high] yields [high], any other is kept. *)
Definition constrain_int16 (amt low high : Z) : Z :=
  if amt <? low then low
  else if amt >? high then high
  else amt.

Definition get_reverse (c : RC_Channel) : bool := negb (reversed c =? 0).

(** [pwm_to_range_dz]: a pulse width as a value in the configured range,
    using the given dead zone. *)
Definition pwm_to_range_dz (c : RC_Channel) (_dead_zone : Z) : F32.float :=
  let r_in := constrain_int16 (to_int16 (radio_in c)) (radio_min c) (radio_max c) in
  let r_in := if get_reverse c
              then to_int16 (radio_max c - (r_in - radio_min c))
              else r_in in
  let radio_trim_low := to_int16 (radio_min c + _dead_zone) in
  if r_in >? radio_trim_low then
    F32.div (F32.mul (F32.of_int (high_in c)) (F32.of_int (r_in - radio_trim_low)))
            (F32.of_int (radio_max c - radio_trim_low))
  else F32.zero.

Definition pwm_to_range (c : RC_Channel) : F32.float :=
  pwm_to_range_dz c (to_uint16 (dead_zone c)).

(** [pwm_to_angle_dz_trim]: an angle in centidegrees from the current
    [radio_in], using the given dead zone and trim. *)
Definition pwm_to_angle_dz_trim (c : RC_Channel) (_dead_zone _trim : Z) : F32.float :=
  let radio_trim_high := to_int16 (_trim + _dead_zone) in
  let radio_trim_low := to_int16 (_trim - _dead_zone) in
  let reverse_mul := F32.of_int (if get_reverse c then -1 else 1) in
  let r_in := constrain_int16 (to_int16 (radio_in c)) (radio_min c) (radio_max c) in
  if (r_in >? radio_trim_high) && negb (radio_max c =? radio_trim_high) then
    F32.div (F32.mul reverse_mul
               (F32.mul (F32.of_int (high_in c)) (F32.of_int (r_in - radio_trim_high))))
            (F32.of_int (radio_max c - radio_trim_high))
  else if (r_in <? radio_trim_low) && negb (radio_trim_low =? radio_min c) then
    F32.div (F32.mul reverse_mul
               (F32.mul (F32.of_int (high_in c)) (F32.of_int (r_in - radio_trim_low))))
            (F32.of_int (radio_trim_low - radio_min c))
  else F32.zero.

Definition pwm_to_angle_dz (c : RC_Channel) (_dead_zone : Z) : F32.float :=
  pwm_to_angle_dz_trim c _dead_zone (to_uint16 (radio_trim c)).

Definition pwm_to_angle (c : RC_Channel) : F32.float :=
  pwm_to_angle_dz c (to_uint16 (dead_zone c)).

(** ** Overrides *)

(** [set_override(v, timestamp_ms)]; [tnow_ms] is [AP_HAL::millis()]. *)
Definition set_override (tnow_ms : Z) (v timestamp_ms : Z) : M unit :=
  fun s =>
    if negb (gcs_overrides_enabled (world s)) then (tt, s)
    else
      (c <- get_chan ;;
       put_chan (set_override_fields c v
                   (if negb (timestamp_ms =? 0) then timestamp_ms else tnow_ms)) ;;
       new_override_received) s.

Definition clear_override : M unit :=
  c <- get_chan ;;
  put_chan (set_override_fields c 0 0).

Definition has_override (env : Env) (tnow_ms : Z) (c : RC_Channel) : bool :=
  if override_value c =? 0 then false
  else
    match override_timeout_ms env with
    | None => true                       (* timeouts are disabled *)
    | Some timeout =>
        if timeout =? 0 then false       (* explicitly disabled by a zero value *)
        else sub_uint32 tnow_ms (last_override_time c) <? timeout
    end.

(** ** Switch classification *)

Definition SWITCH_DEBOUNCE_TIME_MS : Z := 200.

Definition get_radio_in (c : RC_Channel) : Z := radio_in c.

(** [debounce_completed(position)]; [tnow_ms] is [AP_HAL::millis()]. *)
Definition debounce_completed (tnow_ms : Z) (position : Z) : M bool :=
  c <- get_chan ;;
  let ss := switch_state c in
  if current_position ss =? position then
    (* switch change not detected: reset debouncing *)
    put_chan (set_switch_state c
      {| debounce_position := position;
         current_position := current_position ss;
         last_edge_time_ms := last_edge_time_ms ss;
         initialised := initialised ss |}) ;;
    ret false
  else if negb (debounce_position ss =? position) then
    (* position not established yet *)
    put_chan (set_switch_state c
      {| debounce_position := position;
         current_position := current_position ss;
         last_edge_time_ms := tnow_ms;
         initialised := initialised ss |}) ;;
    ret false
  else if sub_uint32 tnow_ms (last_edge_time_ms ss) >=? SWITCH_DEBOUNCE_TIME_MS then
    (* position established; debounce completed *)
    put_chan (set_switch_state c
      {| debounce_position := debounce_position ss;
         current_position := position;
         last_edge_time_ms := last_edge_time_ms ss;
         initialised := initialised ss |}) ;;
    ret true
  else ret false.

(** [read_6pos_switch(position)].  The second component is what the call
    wrote to the reference parameter, [None] when it left it untouched. *)
Definition read_6pos_switch (cfg : Config) (tnow_ms : Z) : M (bool * option Z) :=
  c <- get_chan ;;
  let pulsewidth := to_uint16 (get_radio_in c) in
  if (pulsewidth <=? RC_MIN_LIMIT_PWM cfg) || (pulsewidth >=? RC_MAX_LIMIT_PWM cfg) then
    ret (false, None)                    (* this is an error condition *)
  else
    let position :=
      if pulsewidth <? 1231 then 0
      else if pulsewidth <? 1361 then 1
      else if pulsewidth <? 1491 then 2
      else if pulsewidth <? 1621 then 3
      else if pulsewidth <? 1750 then 4
      else 5 in
    done <- debounce_completed tnow_ms position ;;
    if negb done then ret (false, Some position)
    else ret (true, Some position).

(** [read_3pos_switch(ret)]: [None] when the call returns false. *)
Definition read_3pos_switch (cfg : Config) (env : Env) (c : RC_Channel)
  : option AuxSwitchPos :=
  let in_ := to_uint16 (get_radio_in c) in
  if (in_ <=? RC_MIN_LIMIT_PWM cfg) || (in_ >=? RC_MAX_LIMIT_PWM cfg) then None
  else
    let switch_reversed := negb (reversed c =? 0) && ALLOW_SWITCH_REV env in
    if in_ <? AUX_SWITCH_PWM_TRIGGER_LOW cfg then
      Some (if switch_reversed then HIGH else LOW)
    else if in_ >? AUX_SWITCH_PWM_TRIGGER_HIGH cfg then
      Some (if switch_reversed then LOW else HIGH)
    else Some MIDDLE.

(** [init_position_on_first_radio_read(func)]: whether the first position
    read is recorded without executing the auxiliary function. *)
Definition init_position_on_first_radio_read (cfg : Config) (f : Z) : bool :=
  match f with
  | AUX_FUNC.ARMDISARM_AIRMODE
  | AUX_FUNC.ARMDISARM
  | AUX_FUNC.ARM_EMERGENCY_STOP => AP_ARMING_ENABLED cfg
  | AUX_FUNC.PARACHUTE_RELEASE => HAL_PARACHUTE_ENABLED cfg
  | _ => false
  end.

(** ** Auxiliary-function handlers *)

Section Dispatch.

Variable cfg : Config.
Variable env : Env.

Definition is_high (ch_flag : AuxSwitchPos) : bool :=
  AuxSwitchPos_eqb ch_flag HIGH.

Definition do_aux_function_armdisarm (ch_flag : AuxSwitchPos) : M unit :=
  match ch_flag with
  | HIGH => emit Arming_arm
  | MIDDLE => ret tt
  | LOW => emit Arming_disarm
  end.

Definition do_aux_function_avoid_adsb (ch_flag : AuxSwitchPos) : M unit :=
  if negb (has_ap_avoidance env) then ret tt
  else if is_high ch_flag then
    if negb (has_adsb env) then ret tt
    else if negb (adsb_enabled env) || negb (adsb_healthy env) then
      emit (GCS_SEND_TEXT MAV_SEVERITY_CRITICAL "ADSB not available" [])
    else
      emit Avoidance_enable ;;
      emit (LOGGER_WRITE_EVENT AVOIDANCE_ADSB_ENABLE) ;;
      emit (GCS_SEND_TEXT MAV_SEVERITY_CRITICAL "ADSB Avoidance Enabled" [])
  else
    emit Avoidance_disable ;;
    emit (LOGGER_WRITE_EVENT AVOIDANCE_ADSB_DISABLE) ;;
    emit (GCS_SEND_TEXT MAV_SEVERITY_CRITICAL "ADSB Avoidance Disabled" []).

Definition do_aux_function_avoid_proximity (ch_flag : AuxSwitchPos) : M unit :=
  if AP_AVOIDANCE_ENABLED cfg && negb (APM_BUILD_ArduPlane cfg) then
    if negb (has_ac_avoid env) then ret tt
    else
      match ch_flag with
      | HIGH => emit (Avoid_proximity_avoidance_enable true)
      | MIDDLE => ret tt
      | LOW => emit (Avoid_proximity_avoidance_enable false)
      end
  else ret tt.

Definition do_aux_function_camera_trigger (ch_flag : AuxSwitchPos) : M unit :=
  if is_high ch_flag then
    if negb (has_camera env) then ret tt
    else emit Camera_take_picture
  else ret tt.

Definition do_aux_function_record_video (ch_flag : AuxSwitchPos) : M bool :=
  if negb (has_camera env) then ret false
  else
    emit (Camera_record_video (is_high ch_flag)) ;;
    ret (camera_record_video env (is_high ch_flag)).

Definition do_aux_function_camera_zoom (ch_flag : AuxSwitchPos) : M bool :=
  if negb (has_camera env) then ret false
  else
    let zoom_step := match ch_flag with HIGH => 1 | MIDDLE => 0 | LOW => -1 end in
    emit (Camera_set_zoom_rate zoom_step) ;;
    ret (camera_set_zoom env zoom_step).

Definition do_aux_function_camera_manual_focus (ch_flag : AuxSwitchPos) : M bool :=
  if negb (has_camera env) then ret false
  else
    let focus_step := match ch_flag with HIGH => 1 | MIDDLE => 0 | LOW => -1 end in
    emit (Camera_set_focus_rate focus_step) ;;
    ret (camera_set_focus_rate_accepted env focus_step).

Definition do_aux_function_camera_auto_focus (ch_flag : AuxSwitchPos) : M bool :=
  if is_high ch_flag then
    if negb (has_camera env) then ret false
    else
      emit Camera_set_focus_auto ;;
      ret (camera_set_focus_auto_accepted env)
  else ret false.

Definition do_aux_function_camera_image_tracking (ch_flag : AuxSwitchPos) : M bool :=
  if negb (has_camera env) then ret false
  else
    emit (Camera_set_tracking (is_high ch_flag)) ;;
    ret (camera_set_tracking env (is_high ch_flag)).

Definition do_aux_function_camera_lens (ch_flag : AuxSwitchPos) : M bool :=
  if AP_CAMERA_SET_CAMERA_SOURCE_ENABLED cfg then
    if negb (has_camera env) then ret false
    else
      emit (Camera_set_lens (AuxSwitchPos_value ch_flag)) ;;
      ret (camera_set_lens env (AuxSwitchPos_value ch_flag))
  else ret false.

Definition do_aux_function_runcam_control (ch_flag : AuxSwitchPos) : M unit :=
  if negb (has_runcam env) then ret tt
  else
    match ch_flag with
    | HIGH => emit RunCam_start_recording
    | MIDDLE => emit RunCam_osd_option
    | LOW => emit RunCam_stop_recording
    end.

Definition do_aux_function_runcam_osd_control (ch_flag : AuxSwitchPos) : M unit :=
  if negb (has_runcam env) then ret tt
  else
    match ch_flag with
    | HIGH => emit RunCam_enter_osd
    | MIDDLE | LOW => emit RunCam_exit_osd
    end.

Definition do_aux_function_fence (ch_flag : AuxSwitchPos) : M unit :=
  if negb (has_fence env) then ret tt
  else emit (Fence_enable_configured (is_high ch_flag)).

Definition do_aux_function_clear_wp (ch_flag : AuxSwitchPos) : M unit :=
  if is_high ch_flag then
    if negb (has_mission env) then ret tt
    else emit Mission_clear
  else ret tt.

Definition do_aux_function_relay (relay : Z) (val : bool) : M unit :=
  if negb (has_servorelayevents env) then ret tt
  else emit (ServoRelayEvents_do_set_relay relay val).

Definition do_aux_function_generator (ch_flag : AuxSwitchPos) : M unit :=
  if negb (has_generator env) then ret tt
  else
    match ch_flag with
    | LOW => emit Generator_stop
    | MIDDLE => emit Generator_idle
    | HIGH => emit Generator_run
    end.

Definition do_aux_function_sprayer (ch_flag : AuxSwitchPos) : M unit :=
  if negb (has_sprayer env) then ret tt
  else
    emit (Sprayer_run (is_high ch_flag)) ;;
    (* if we are disarmed the pilot must want to test the pump *)
    emit (Sprayer_test_pump (is_high ch_flag && negb (soft_armed env))).

Definition do_aux_function_gripper (ch_flag : AuxSwitchPos) : M unit :=
  match ch_flag with
  | LOW => emit Gripper_release
  | MIDDLE => ret tt
  | HIGH => emit Gripper_grab
  end.

Definition do_aux_function_lost_vehicle_sound (ch_flag : AuxSwitchPos) : M unit :=
  match ch_flag with
  | HIGH => set_vehicle_lost true
  | MIDDLE => ret tt
  | LOW => set_vehicle_lost false
  end.

Definition do_aux_function_rc_override_enable (ch_flag : AuxSwitchPos) : M unit :=
  match ch_flag with
  | HIGH => set_gcs_overrides_enabled env true
  | MIDDLE => ret tt
  | LOW => set_gcs_overrides_enabled env false
  end.

Definition do_aux_function_mission_reset (ch_flag : AuxSwitchPos) : M unit :=
  if negb (is_high ch_flag) then ret tt
  else if negb (has_mission env) then ret tt
  else emit Mission_reset.

Definition do_aux_function_fft_notch_tune (ch_flag : AuxSwitchPos) : M unit :=
  if HAL_GYROFFT_ENABLED cfg then
    if negb (has_fft env) then ret tt
    else
      match ch_flag with
      | HIGH => emit GyroFFT_start_notch_tune
      | MIDDLE | LOW => emit GyroFFT_stop_notch_tune
      end
  else ret tt.

Definition do_aux_function_retract_mount (ch_flag : AuxSwitchPos) (instance : Z)
  : M unit :=
  if negb (has_mount env) then ret tt
  else
    match ch_flag with
    | HIGH => emit (Mount_set_mode_retract instance)
    | MIDDLE => ret tt
    | LOW => emit (Mount_set_mode_to_default instance)
    end.

(** *** Dispatch *)

(** The [default:] label of [do_aux_function]; a case whose [#if] is off
    is not compiled and its id lands here as well. *)
Definition invalid_channel_option (ch_option : Z) : M bool :=
  emit (GCS_SEND_TEXT MAV_SEVERITY_INFO "Invalid channel option (%u)"
          [ArgInt ch_option]) ;;
  ret false.

Definition do_aux_function (trigger : AuxFuncTrigger) : M bool :=
  let ch_option := func trigger in
  let ch_flag := pos trigger in
  let default := invalid_channel_option ch_option in
  let relay_enabled := AP_SERVORELAYEVENTS_ENABLED cfg && AP_RELAY_ENABLED cfg in
  match ch_option with
  | AUX_FUNC.FENCE =>
      if AP_FENCE_ENABLED cfg then do_aux_function_fence ch_flag ;; ret true
      else default
  | AUX_FUNC.GRIPPER =>
      if AP_GRIPPER_ENABLED cfg then do_aux_function_gripper ch_flag ;; ret true
      else default
  | AUX_FUNC.RC_OVERRIDE_ENABLE =>
      (* Allow or disallow RC_Override *)
      do_aux_function_rc_override_enable ch_flag ;; ret true
  | AUX_FUNC.AVOID_PROXIMITY =>
      do_aux_function_avoid_proximity ch_flag ;; ret true
  | AUX_FUNC.RELAY =>
      if relay_enabled then do_aux_function_relay 0 (is_high ch_flag) ;; ret true
      else default
  | AUX_FUNC.RELAY2 =>
      if relay_enabled then do_aux_function_relay 1 (is_high ch_flag) ;; ret true
      else default
  | AUX_FUNC.RELAY3 =>
      if relay_enabled then do_aux_function_relay 2 (is_high ch_flag) ;; ret true
      else default
  | AUX_FUNC.RELAY4 =>
      if relay_enabled then do_aux_function_relay 3 (is_high ch_flag) ;; ret true
      else default
  | AUX_FUNC.RELAY5 =>
      if relay_enabled then do_aux_function_relay 4 (is_high ch_flag) ;; ret true
      else default
  | AUX_FUNC.RELAY6 =>
      if relay_enabled then do_aux_function_relay 5 (is_high ch_flag) ;; ret true
      else default
  | AUX_FUNC.RUNCAM_CONTROL =>
      if AP_CAMERA_RUNCAM_ENABLED cfg
      then do_aux_function_runcam_control ch_flag ;; ret true
      else default
  | AUX_FUNC.RUNCAM_OSD_CONTROL =>
      if AP_CAMERA_RUNCAM_ENABLED cfg
      then do_aux_function_runcam_osd_control ch_flag ;; ret true
      else default
  | AUX_FUNC.CLEAR_WP =>
      if AP_MISSION_ENABLED cfg then do_aux_function_clear_wp ch_flag ;; ret true
      else default
  | AUX_FUNC.MISSION_RESET =>
      if AP_MISSION_ENABLED cfg then do_aux_function_mission_reset ch_flag ;; ret true
      else default
  | AUX_FUNC.AVOID_ADSB =>
      if AP_ADSB_AVOIDANCE_ENABLED cfg
      then do_aux_function_avoid_adsb ch_flag ;; ret true
      else default
  | AUX_FUNC.FFT_NOTCH_TUNE =>
      do_aux_function_fft_notch_tune ch_flag ;; ret true
  | AUX_FUNC.GENERATOR =>
      if HAL_GENERATOR_ENABLED cfg then do_aux_function_generator ch_flag ;; ret true
      else default
  | AUX_FUNC.BATTERY_MPPT_ENABLE =>
      if AP_BATTERY_ENABLED cfg then
        when (negb (AuxSwitchPos_eqb ch_flag MIDDLE))
             (emit (Battery_MPPT_set_powered_state_to_all (is_high ch_flag))) ;;
        ret true
      else default
  | AUX_FUNC.SPRAYER =>
      if HAL_SPRAYER_ENABLED cfg then do_aux_function_sprayer ch_flag ;; ret true
      else default
  | AUX_FUNC.LOST_VEHICLE_SOUND =>
      do_aux_function_lost_vehicle_sound ch_flag ;; ret true
  | AUX_FUNC.ARMDISARM =>
      if AP_ARMING_ENABLED cfg then do_aux_function_armdisarm ch_flag ;; ret true
      else default
  | AUX_FUNC.DISARM =>
      if AP_ARMING_ENABLED cfg then
        when (is_high ch_flag) (emit Arming_disarm) ;; ret true
      else default
  | AUX_FUNC.COMPASS_LEARN =>
      when (is_high ch_flag) (emit Compass_set_learn_type_inflight) ;; ret true
  | AUX_FUNC.LANDING_GEAR =>
      if AP_LANDINGGEAR_ENABLED cfg then
        (if negb (has_landing_gear env) then ret tt
         else match ch_flag with
              | LOW => emit LandingGear_set_position_deploy
              | MIDDLE => ret tt
              | HIGH => emit LandingGear_set_position_retract
              end) ;;
        ret true
      else default
  | AUX_FUNC.GPS_DISABLE =>
      if AP_GPS_ENABLED cfg then
        emit (GPS_force_disable (is_high ch_flag)) ;;
        when (AP_EXTERNAL_AHRS_ENABLED cfg)
             (emit (ExternalAHRS_set_gnss_disable (is_high ch_flag))) ;;
        ret true
      else default
  | AUX_FUNC.GPS_DISABLE_YAW =>
      if AP_GPS_ENABLED cfg then
        emit (GPS_set_force_disable_yaw (is_high ch_flag)) ;; ret true
      else default
  | AUX_FUNC.DISABLE_AIRSPEED_USE =>
      if AP_AIRSPEED_ENABLED cfg then
        (if negb (has_airspeed env) then ret tt
         else match ch_flag with
              | HIGH => emit (Airspeed_force_disable_use true)
              | MIDDLE => ret tt
              | LOW => emit (Airspeed_force_disable_use false)
              end) ;;
        ret true
      else default
  | AUX_FUNC.MOTOR_ESTOP =>
      match ch_flag with
      | HIGH => emit (SRV_Channels_set_emergency_stop true)
      | MIDDLE => ret tt
      | LOW => emit (SRV_Channels_set_emergency_stop false)
      end ;;
      ret true
  | AUX_FUNC.VISODOM_ALIGN =>
      if HAL_VISUALODOM_ENABLED cfg then
        when (is_high ch_flag && has_visualodom env)
             (emit VisualOdom_request_align_yaw_to_ahrs) ;;
        ret true
      else default
  | AUX_FUNC.EKF_SOURCE_SET =>
      if AP_AHRS_ENABLED cfg then
        (* low, middle, high: primary, secondary, tertiary source *)
        let source_set := match ch_flag with LOW => 0 | MIDDLE => 1 | HIGH => 2 end in
        emit (AHRS_set_posvelyaw_source_set source_set) ;;
        emit (GCS_SEND_TEXT MAV_SEVERITY_INFO "Using EKF Source Set %u"
                [ArgInt (source_set + 1)]) ;;
        ret true
      else default
  | AUX_FUNC.OPTFLOW_CAL =>
      if AP_OPTICALFLOW_CALIBRATOR_ENABLED cfg then
        (if negb (has_opticalflow env) then
           emit (GCS_SEND_TEXT MAV_SEVERITY_CRITICAL
                   "OptFlow Cal: failed sensor not enabled" [])
         else if is_high ch_flag then emit OpticalFlow_start_calibration
         else emit OpticalFlow_stop_calibration) ;;
        ret true
      else default
  | AUX_FUNC.KILL_IMU1 =>
      if AP_INERTIALSENSOR_KILL_IMU_ENABLED cfg then
        emit (INS_kill_imu 0 (is_high ch_flag)) ;; ret true
      else default
  | AUX_FUNC.KILL_IMU2 =>
      if AP_INERTIALSENSOR_KILL_IMU_ENABLED cfg then
        emit (INS_kill_imu 1 (is_high ch_flag)) ;; ret true
      else default
  | AUX_FUNC.KILL_IMU3 =>
      if AP_INERTIALSENSOR_KILL_IMU_ENABLED cfg then
        emit (INS_kill_imu 2 (is_high ch_flag)) ;; ret true
      else default
  | AUX_FUNC.CAMERA_TRIGGER =>
      if AP_CAMERA_ENABLED cfg then do_aux_function_camera_trigger ch_flag ;; ret true
      else default
  | AUX_FUNC.CAM_MODE_TOGGLE =>
      if AP_CAMERA_ENABLED cfg then
        (* momentary switch for cycling camera modes *)
        (if negb (has_camera env) then ret tt
         else match ch_flag with
              | LOW => ret tt
              | MIDDLE => ret tt
              | HIGH => emit Camera_cam_mode_toggle
              end) ;;
        ret true
      else default
  | AUX_FUNC.CAMERA_REC_VIDEO =>
      if AP_CAMERA_ENABLED cfg then do_aux_function_record_video ch_flag
      else default
  | AUX_FUNC.CAMERA_ZOOM =>
      if AP_CAMERA_ENABLED cfg then do_aux_function_camera_zoom ch_flag
      else default
  | AUX_FUNC.CAMERA_MANUAL_FOCUS =>
      if AP_CAMERA_ENABLED cfg then do_aux_function_camera_manual_focus ch_flag
      else default
  | AUX_FUNC.CAMERA_AUTO_FOCUS =>
      if AP_CAMERA_ENABLED cfg then do_aux_function_camera_auto_focus ch_flag
      else default
  | AUX_FUNC.CAMERA_IMAGE_TRACKING =>
      if AP_CAMERA_ENABLED cfg then do_aux_function_camera_image_tracking ch_flag
      else default
  | AUX_FUNC.CAMERA_LENS =>
      if AP_CAMERA_ENABLED cfg && AP_CAMERA_SET_CAMERA_SOURCE_ENABLED cfg
      then do_aux_function_camera_lens ch_flag
      else default
  | AUX_FUNC.RETRACT_MOUNT1 =>
      if HAL_MOUNT_ENABLED cfg then do_aux_function_retract_mount ch_flag 0 ;; ret true
      else default
  | AUX_FUNC.RETRACT_MOUNT2 =>
      if HAL_MOUNT_ENABLED cfg then do_aux_function_retract_mount ch_flag 1 ;; ret true
      else default
  | AUX_FUNC.MOUNT_LOCK =>
      if HAL_MOUNT_ENABLED cfg then
        when (has_mount env) (emit (Mount_set_yaw_lock (is_high ch_flag))) ;;
        ret true
      else default
  | AUX_FUNC.MOUNT_LRF_ENABLE =>
      if HAL_MOUNT_ENABLED cfg then
        when (has_mount env)
             (emit (Mount_set_rangefinder_enable 0 (is_high ch_flag))) ;;
        ret true
      else default
  | AUX_FUNC.LOG_PAUSE =>
      if HAL_LOGGING_ENABLED cfg then
        match ch_flag with
        | LOW => emit (Logger_log_pause false)
        | MIDDLE => ret tt
        | HIGH => emit (Logger_log_pause true)
        end ;;
        ret true
      else default
  | AUX_FUNC.MAG_CAL =>
      if COMPASS_CAL_ENABLED cfg then
        match ch_flag with
        | LOW => emit Compass_cancel_calibration_all
        | MIDDLE => ret tt
        | HIGH =>
            if negb (soft_armed env) then emit Compass_start_calibration_all
            else emit (GCS_SEND_TEXT MAV_SEVERITY_NOTICE
                         "Disarm to allow compass calibration" [])
        end ;;
        ret true
      else default
  | AUX_FUNC.ARM_EMERGENCY_STOP =>
      if AP_ARMING_ENABLED cfg then
        match ch_flag with
        | HIGH =>
            (* request arm, disable emergency motor stop *)
            emit (SRV_Channels_set_emergency_stop false) ;;
            emit Arming_arm
        | MIDDLE =>
            (* disable emergency motor stop *)
            emit (SRV_Channels_set_emergency_stop false)
        | LOW =>
            (* enable emergency motor stop *)
            emit (SRV_Channels_set_emergency_stop true)
        end ;;
        ret true
      else default
  | AUX_FUNC.EKF_LANE_SWITCH =>
      if AP_AHRS_ENABLED cfg then emit AHRS_check_lane_switch ;; ret true
      else default
  | AUX_FUNC.EKF_YAW_RESET =>
      if AP_AHRS_ENABLED cfg then emit AHRS_request_yaw_reset ;; ret true
      else default
  | AUX_FUNC.AHRS_TYPE =>
      if AP_AHRS_ENABLED cfg then
        when (HAL_NAVEKF3_AVAILABLE cfg && AP_EXTERNAL_AHRS_ENABLED cfg)
             (emit (AHRS_set_ekf_type (is_high ch_flag))) ;;
        ret true
      else default
  | AUX_FUNC.TORQEEDO_CLEAR_ERR =>
      if HAL_TORQEEDO_ENABLED cfg then
        when (is_high ch_flag && has_torqeedo env) (emit Torqeedo_clear_motor_error) ;;
        ret true
      else default
  | AUX_FUNC.STOP_RESTART_SCRIPTING =>
      if AP_SCRIPTING_ENABLED cfg then
        (if has_scripting env then
           match ch_flag with
           | HIGH => emit Scripting_stop
           | MIDDLE => ret tt
           | LOW => emit Scripting_restart_all
           end
         else ret tt) ;;
        ret true
      else default
  (* do nothing for these functions *)
  | AUX_FUNC.MOUNT1_ROLL
  | AUX_FUNC.MOUNT1_PITCH
  | AUX_FUNC.MOUNT1_YAW
  | AUX_FUNC.MOUNT2_ROLL
  | AUX_FUNC.MOUNT2_PITCH
  | AUX_FUNC.MOUNT2_YAW =>
      if HAL_MOUNT_ENABLED cfg then ret true else default
  | AUX_FUNC.SCRIPTING_1
  | AUX_FUNC.SCRIPTING_2
  | AUX_FUNC.SCRIPTING_3
  | AUX_FUNC.SCRIPTING_4
  | AUX_FUNC.SCRIPTING_5
  | AUX_FUNC.SCRIPTING_6
  | AUX_FUNC.SCRIPTING_7
  | AUX_FUNC.SCRIPTING_8
  | AUX_FUNC.SCRIPTING_9
  | AUX_FUNC.SCRIPTING_10
  | AUX_FUNC.SCRIPTING_11
  | AUX_FUNC.SCRIPTING_12
  | AUX_FUNC.SCRIPTING_13
  | AUX_FUNC.SCRIPTING_14
  | AUX_FUNC.SCRIPTING_15
  | AUX_FUNC.SCRIPTING_16 =>
      if AP_SCRIPTING_ENABLED cfg then ret true else default
  | AUX_FUNC.LOWEHEISER_THROTTLE
  | AUX_FUNC.LOWEHEISER_STARTER =>
      (* monitored by the library itself *)
      if HAL_GENERATOR_ENABLED cfg then ret true else default
  | _ => default
  end.

(** [do_aux_function] is a virtual method: the vehicles override it to
    handle their own ids (ARMDISARM_AIRMODE and PARACHUTE_RELEASE among
    them) and fall back on the one above.  [dispatch] is the method the
    call resolves to. *)
Variable dispatch : AuxFuncTrigger -> M bool.

Definition run_aux_function (ch_option : Z) (p : AuxSwitchPos) (src : Source)
    (index : Z) : M bool :=
  when (AP_SCRIPTING_ENABLED cfg) (emit (RC_set_aux_cached ch_option p)) ;;
  let trigger := {| func := ch_option; pos := p; source := src;
                    source_index := index |} in
  r <- dispatch trigger ;;
  when (HAL_LOGGING_ENABLED cfg)
       (emit (Logger_Write_AUXF (to_uint16 ch_option) (AuxSwitchPos_value p)
                (Source_value src) index (if r then 1 else 0))) ;;
  ret r.

Definition string_for_aux_pos (p : AuxSwitchPos) : string :=
  match p with
  | HIGH => "HIGH"
  | MIDDLE => "MIDDLE"
  | LOW => "LOW"
  end.

(** [read_aux]: read an aux channel, true if a switch has changed. *)
Definition read_aux (tnow_ms : Z) : M bool :=
  c <- get_chan ;;
  let _option := to_uint16 (option_ c) in   (* (AUX_FUNC)option.get() *)
  if _option =? AUX_FUNC.DO_NOTHING then ret false
  else if AP_VIDEOTX_ENABLED cfg && (_option =? AUX_FUNC.VTX_POWER) then
    r <- read_6pos_switch cfg tnow_ms ;;
    match r with
    | (true, Some position) => emit (VTX_change_power position) ;; ret true
    | _ => ret false
    end
  else
    match read_3pos_switch cfg env c with
    | None => ret false
    | Some new_position =>
        (if negb (initialised (switch_state c)) then
           let ss := switch_state c in
           if init_position_on_first_radio_read cfg (to_uint16 (option_ c)) then
             put_chan (set_switch_state c
               {| debounce_position := to_int8 (AuxSwitchPos_value new_position);
                  current_position := to_int8 (AuxSwitchPos_value new_position);
                  last_edge_time_ms := last_edge_time_ms ss;
                  initialised := true |})
           else
             put_chan (set_switch_state c
               {| debounce_position := debounce_position ss;
                  current_position := current_position ss;
                  last_edge_time_ms := last_edge_time_ms ss;
                  initialised := true |})
         else ret tt) ;;
        done <- debounce_completed tnow_ms (to_int8 (AuxSwitchPos_value new_position)) ;;
        if negb done then ret false
        else
          (* announce the change to the GCS *)
          when (AP_RC_CHANNEL_AUX_FUNCTION_STRINGS_ENABLED cfg)
               (match string_for_aux_function env _option with
                | Some aux_string =>
                    emit (GCS_SEND_TEXT MAV_SEVERITY_INFO "RC%i: %s %s"
                            [ArgInt (ch_in c + 1); ArgStr aux_string;
                             ArgStr (string_for_aux_pos new_position)])
                | None => ret tt
                end) ;;
          (* debounced; undertake the action *)
          run_aux_function _option new_position RC (ch_in c) ;;
          ret true
    end.

End Dispatch.

(** ** The channel set *)

(** The loop of [duplicate_options_exist] over the channels still to visit;
    [used] holds the bits of [used_auxsw_options] and [size] is the number of
    bits of the bitmask. *)
Fixpoint duplicate_options_scan (size used : Z) (channels : list RC_Channel) : bool :=
  match channels with
  | [] => false
  | c :: rest =>
      let option := to_uint16 (option_ c) in
      if option =? AUX_FUNC.DO_NOTHING then duplicate_options_scan size used rest
      else if option >=? size then duplicate_options_scan size used rest
      else if Z.testbit used option then true
      else duplicate_options_scan size (Z.setbit used option) rest
  end.

(** [RC_Channels::duplicate_options_exist] over the [NUM_RC_CHANNELS]
    channels. *)
Definition duplicate_options_exist (cfg : Config) (channels : list RC_Channel) : bool :=
  duplicate_options_scan (to_uint16 (AUX_FUNCTION_MAX cfg)) 0 channels.

(** ** Vocabulary of the statements *)

(** The switch state with one field replaced. *)
Definition with_debounce_position (ss : switch_state_t) (p : Z) : switch_state_t :=
  {| debounce_position := p; current_position := current_position ss;
     last_edge_time_ms := last_edge_time_ms ss; initialised := initialised ss |}.

Definition with_last_edge_time_ms (ss : switch_state_t) (t : Z) : switch_state_t :=
  {| debounce_position := debounce_position ss; current_position := current_position ss;
     last_edge_time_ms := t; initialised := initialised ss |}.

Definition with_current_position (ss : switch_state_t) (p : Z) : switch_state_t :=
  {| debounce_position := debounce_position ss; current_position := p;
     last_edge_time_ms := last_edge_time_ms ss; initialised := initialised ss |}.

Definition with_initialised (ss : switch_state_t) (b : bool) : switch_state_t :=
  {| debounce_position := debounce_position ss; current_position := current_position ss;
     last_edge_time_ms := last_edge_time_ms ss; initialised := b |}.

Definition with_switch_state (s : State) (ss : switch_state_t) : State :=
  {| chan := set_switch_state (chan s) ss; world := world s |}.

Definition switch_of (s : State) : switch_state_t := switch_state (chan s).

(** Feeding a list of [(time, position)] samples to [debounce_completed];
    the result lists, for each sample, the time and the latched position
    after the call. *)
Fixpoint debounce_trace (samples : list (Z * Z)) (s : State) : list (Z * Z) :=
  match samples with
  | [] => []
  | (t, p) :: rest =>
      let (_, s') := debounce_completed t p s in
      (t, current_position (switch_of s')) :: debounce_trace rest s'
  end.

(** A switch that sits at position 0 and moves to position 3 at t = 1000 ms,
    sampled every 20 ms from [t0] on. *)
Definition switch_at (t : Z) : Z := if t <? 1000 then 0 else 3.

Fixpoint sample_times (t0 : Z) (n : nat) : list Z :=
  match n with
  | O => []
  | S k => t0 :: sample_times (t0 + 20) k
  end.

Definition samples_from (t0 : Z) (n : nat) : list (Z * Z) :=
  map (fun t => (t, switch_at t)) (sample_times t0 n).

(** ** Example objects

    A build with every feature compiled in and example values for the
    constants of [RC_Channel.h]; an environment in which every singleton
    exists and in which disabling the overrides clears the override of the
    channel; a channel holding the defaults of [var_info] with its switch
    state unset, as [reset_mode_switch] leaves it. *)

Definition example_config : Config :=
  {| AP_ADSB_AVOIDANCE_ENABLED := true; AP_AHRS_ENABLED := true;
     AP_AIRSPEED_ENABLED := true; AP_ARMING_ENABLED := true;
     AP_AVOIDANCE_ENABLED := true; AP_BATTERY_ENABLED := true;
     AP_CAMERA_ENABLED := true; AP_CAMERA_RUNCAM_ENABLED := true;
     AP_CAMERA_SET_CAMERA_SOURCE_ENABLED := true;
     AP_EXTERNAL_AHRS_ENABLED := true; AP_FENCE_ENABLED := true;
     AP_GPS_ENABLED := true; AP_GRIPPER_ENABLED := true;
     AP_INERTIALSENSOR_KILL_IMU_ENABLED := true;
     AP_LANDINGGEAR_ENABLED := true; AP_MISSION_ENABLED := true;
     AP_OPTICALFLOW_CALIBRATOR_ENABLED := true;
     AP_RC_CHANNEL_AUX_FUNCTION_STRINGS_ENABLED := true;
     AP_RELAY_ENABLED := true; AP_SCRIPTING_ENABLED := true;
     AP_SERVORELAYEVENTS_ENABLED := true; AP_VIDEOTX_ENABLED := true;
     APM_BUILD_ArduPlane := false; COMPASS_CAL_ENABLED := true;
     HAL_GENERATOR_ENABLED := true; HAL_GYROFFT_ENABLED := true;
     HAL_LOGGING_ENABLED := true; HAL_MOUNT_ENABLED := true;
     HAL_NAVEKF3_AVAILABLE := true; HAL_PARACHUTE_ENABLED := true;
     HAL_SPRAYER_ENABLED := true; HAL_TORQEEDO_ENABLED := true;
     HAL_VISUALODOM_ENABLED := true;
     RC_MIN_LIMIT_PWM := 800; RC_MAX_LIMIT_PWM := 2200;
     AUX_SWITCH_PWM_TRIGGER_LOW := 1200; AUX_SWITCH_PWM_TRIGGER_HIGH := 1800;
     AUX_FUNCTION_MAX := 317 |}.

Definition example_env (timeout : option Z) : Env :=
  {| override_timeout_ms := timeout;
     ALLOW_SWITCH_REV := false;
     string_for_aux_function := fun _ => None;
     soft_armed := false;
     has_ap_avoidance := true; has_adsb := true; adsb_enabled := true;
     adsb_healthy := true; has_ac_avoid := true; has_camera := true;
     has_runcam := true; has_fence := true; has_mission := true;
     has_servorelayevents := true; has_generator := true; has_sprayer := true;
     has_fft := true; has_mount := true; has_landing_gear := true;
     has_airspeed := true; has_visualodom := true; has_opticalflow := true;
     has_torqeedo := true; has_scripting := true;
     camera_record_video := fun _ => true;
     camera_set_zoom := fun _ => true;
     camera_set_focus_rate_accepted := fun _ => true;
     camera_set_focus_auto_accepted := true;
     camera_set_tracking := fun _ => true;
     camera_set_lens := fun _ => true;
     overrides_setter_channel :=
       fun enable c => if enable then c else set_override_fields c 0 0 |}.

Definition unset_switch_state : switch_state_t :=
  {| debounce_position := -1; current_position := -1;
     last_edge_time_ms := 0; initialised := false |}.

Definition example_channel (opt pwm : Z) : RC_Channel :=
  {| radio_in := pwm; control_in := 0;
     radio_min := 1100; radio_trim := 1500; radio_max := 1900;
     reversed := 0; dead_zone := 0; option_ := opt;
     type_in := RANGE; high_in := 1000; ch_in := 6;
     override_value := 0; last_override_time := 0;
     switch_state := unset_switch_state |}.

Definition example_world : World :=
  {| gcs_overrides_enabled := true; has_new_overrides := false;
     vehicle_lost := false; events := [] |}.

Definition example_state (opt pwm : Z) : State :=
  {| chan := example_channel opt pwm; world := example_world |}.

(** A channel settled at switch position 0. *)
Definition settled_state : State :=
  with_switch_state (example_state AUX_FUNC.DO_NOTHING 1100)
    {| debounce_position := 0; current_position := 0;
       last_edge_time_ms := 0; initialised := true |}.

(** The id the scan sees for a channel, and what makes two channels a
    duplicate: the same id, not DO_NOTHING, inside the bitmask. *)
Definition option_id (c : RC_Channel) : Z := to_uint16 (option_ c).

Definition checked_id (size : Z) (c : RC_Channel) : Prop :=
  option_id c <> AUX_FUNC.DO_NOTHING /\ option_id c < size.

Definition duplicated_option (size : Z) (channels : list RC_Channel) : Prop :=
  exists (i j : nat) (ci cj : RC_Channel),
    (i < j)%nat
    /\ nth_error channels i = Some ci
    /\ nth_error channels j = Some cj
    /\ option_id ci = option_id cj
    /\ checked_id size ci.

(** Some channel carries a checked id whose bit is already set. *)
Definition already_used (size used : Z) (channels : list RC_Channel) : Prop :=
  exists (i : nat) (ci : RC_Channel),
    nth_error channels i = Some ci
    /\ checked_id size ci
    /\ Z.testbit used (option_id ci) = true.

(** Whether [do_aux_function] is compiled with a [case] label for the id:
    the labels of its [switch], each under the [#if] that guards it. *)
Definition has_dispatch_case (cfg : Config) (f : Z) : bool :=
  match f with
  | AUX_FUNC.FENCE => AP_FENCE_ENABLED cfg
  | AUX_FUNC.GRIPPER => AP_GRIPPER_ENABLED cfg
  | AUX_FUNC.RC_OVERRIDE_ENABLE => true
  | AUX_FUNC.AVOID_PROXIMITY => true
  | AUX_FUNC.RELAY => AP_SERVORELAYEVENTS_ENABLED cfg && AP_RELAY_ENABLED cfg
  | AUX_FUNC.RELAY2 => AP_SERVORELAYEVENTS_ENABLED cfg && AP_RELAY_ENABLED cfg
  | AUX_FUNC.RELAY3 => AP_SERVORELAYEVENTS_ENABLED cfg && AP_RELAY_ENABLED cfg
  | AUX_FUNC.RELAY4 => AP_SERVORELAYEVENTS_ENABLED cfg && AP_RELAY_ENABLED cfg
  | AUX_FUNC.RELAY5 => AP_SERVORELAYEVENTS_ENABLED cfg && AP_RELAY_ENABLED cfg
  | AUX_FUNC.RELAY6 => AP_SERVORELAYEVENTS_ENABLED cfg && AP_RELAY_ENABLED cfg
  | AUX_FUNC.RUNCAM_CONTROL => AP_CAMERA_RUNCAM_ENABLED cfg
  | AUX_FUNC.RUNCAM_OSD_CONTROL => AP_CAMERA_RUNCAM_ENABLED cfg
  | AUX_FUNC.CLEAR_WP => AP_MISSION_ENABLED cfg
  | AUX_FUNC.MISSION_RESET => AP_MISSION_ENABLED cfg
  | AUX_FUNC.AVOID_ADSB => AP_ADSB_AVOIDANCE_ENABLED cfg
  | AUX_FUNC.FFT_NOTCH_TUNE => true
  | AUX_FUNC.GENERATOR => HAL_GENERATOR_ENABLED cfg
  | AUX_FUNC.BATTERY_MPPT_ENABLE => AP_BATTERY_ENABLED cfg
  | AUX_FUNC.SPRAYER => HAL_SPRAYER_ENABLED cfg
  | AUX_FUNC.LOST_VEHICLE_SOUND => true
  | AUX_FUNC.ARMDISARM => AP_ARMING_ENABLED cfg
  | AUX_FUNC.DISARM => AP_ARMING_ENABLED cfg
  | AUX_FUNC.COMPASS_LEARN => true
  | AUX_FUNC.LANDING_GEAR => AP_LANDINGGEAR_ENABLED cfg
  | AUX_FUNC.GPS_DISABLE => AP_GPS_ENABLED cfg
  | AUX_FUNC.GPS_DISABLE_YAW => AP_GPS_ENABLED cfg
  | AUX_FUNC.DISABLE_AIRSPEED_USE => AP_AIRSPEED_ENABLED cfg
  | AUX_FUNC.MOTOR_ESTOP => true
  | AUX_FUNC.VISODOM_ALIGN => HAL_VISUALODOM_ENABLED cfg
  | AUX_FUNC.EKF_SOURCE_SET => AP_AHRS_ENABLED cfg
  | AUX_FUNC.OPTFLOW_CAL => AP_OPTICALFLOW_CALIBRATOR_ENABLED cfg
  | AUX_FUNC.KILL_IMU1 => AP_INERTIALSENSOR_KILL_IMU_ENABLED cfg
  | AUX_FUNC.KILL_IMU2 => AP_INERTIALSENSOR_KILL_IMU_ENABLED cfg
  | AUX_FUNC.KILL_IMU3 => AP_INERTIALSENSOR_KILL_IMU_ENABLED cfg
  | AUX_FUNC.CAMERA_TRIGGER => AP_CAMERA_ENABLED cfg
  | AUX_FUNC.CAM_MODE_TOGGLE => AP_CAMERA_ENABLED cfg
  | AUX_FUNC.CAMERA_REC_VIDEO => AP_CAMERA_ENABLED cfg
  | AUX_FUNC.CAMERA_ZOOM => AP_CAMERA_ENABLED cfg
  | AUX_FUNC.CAMERA_MANUAL_FOCUS => AP_CAMERA_ENABLED cfg
  | AUX_FUNC.CAMERA_AUTO_FOCUS => AP_CAMERA_ENABLED cfg
  | AUX_FUNC.CAMERA_IMAGE_TRACKING => AP_CAMERA_ENABLED cfg
  | AUX_FUNC.CAMERA_LENS =>
      AP_CAMERA_ENABLED cfg && AP_CAMERA_SET_CAMERA_SOURCE_ENABLED cfg
  | AUX_FUNC.RETRACT_MOUNT1 => HAL_MOUNT_ENABLED cfg
  | AUX_FUNC.RETRACT_MOUNT2 => HAL_MOUNT_ENABLED cfg
  | AUX_FUNC.MOUNT_LOCK => HAL_MOUNT_ENABLED cfg
  | AUX_FUNC.MOUNT_LRF_ENABLE => HAL_MOUNT_ENABLED cfg
  | AUX_FUNC.LOG_PAUSE => HAL_LOGGING_ENABLED cfg
  | AUX_FUNC.MAG_CAL => COMPASS_CAL_ENABLED cfg
  | AUX_FUNC.ARM_EMERGENCY_STOP => AP_ARMING_ENABLED cfg
  | AUX_FUNC.EKF_LANE_SWITCH => AP_AHRS_ENABLED cfg
  | AUX_FUNC.EKF_YAW_RESET => AP_AHRS_ENABLED cfg
  | AUX_FUNC.AHRS_TYPE => AP_AHRS_ENABLED cfg
  | AUX_FUNC.TORQEEDO_CLEAR_ERR => HAL_TORQEEDO_ENABLED cfg
  | AUX_FUNC.STOP_RESTART_SCRIPTING => AP_SCRIPTING_ENABLED cfg
  | AUX_FUNC.MOUNT1_ROLL
  | AUX_FUNC.MOUNT1_PITCH
  | AUX_FUNC.MOUNT1_YAW
  | AUX_FUNC.MOUNT2_ROLL
  | AUX_FUNC.MOUNT2_PITCH
  | AUX_FUNC.MOUNT2_YAW =>
      HAL_MOUNT_ENABLED cfg
  | AUX_FUNC.SCRIPTING_1
  | AUX_FUNC.SCRIPTING_2
  | AUX_FUNC.SCRIPTING_3
  | AUX_FUNC.SCRIPTING_4
  | AUX_FUNC.SCRIPTING_5
  | AUX_FUNC.SCRIPTING_6
  | AUX_FUNC.SCRIPTING_7
  | AUX_FUNC.SCRIPTING_8
  | AUX_FUNC.SCRIPTING_9
  | AUX_FUNC.SCRIPTING_10
  | AUX_FUNC.SCRIPTING_11
  | AUX_FUNC.SCRIPTING_12
  | AUX_FUNC.SCRIPTING_13
  | AUX_FUNC.SCRIPTING_14
  | AUX_FUNC.SCRIPTING_15
  | AUX_FUNC.SCRIPTING_16 =>
      AP_SCRIPTING_ENABLED cfg
  | AUX_FUNC.LOWEHEISER_THROTTLE
  | AUX_FUNC.LOWEHEISER_STARTER =>
      HAL_GENERATOR_ENABLED cfg
  | _ => false
  end.

(** The ids whose case does nothing: the mount and scripting inputs and the
    Loweheiser controls. *)
Definition inert_ids : list Z :=
  [AUX_FUNC.MOUNT1_ROLL; AUX_FUNC.MOUNT1_PITCH; AUX_FUNC.MOUNT1_YAW;
   AUX_FUNC.MOUNT2_ROLL; AUX_FUNC.MOUNT2_PITCH; AUX_FUNC.MOUNT2_YAW;
   AUX_FUNC.SCRIPTING_1; AUX_FUNC.SCRIPTING_2; AUX_FUNC.SCRIPTING_3;
   AUX_FUNC.SCRIPTING_4; AUX_FUNC.SCRIPTING_5; AUX_FUNC.SCRIPTING_6;
   AUX_FUNC.SCRIPTING_7; AUX_FUNC.SCRIPTING_8; AUX_FUNC.SCRIPTING_9;
   AUX_FUNC.SCRIPTING_10; AUX_FUNC.SCRIPTING_11; AUX_FUNC.SCRIPTING_12;
   AUX_FUNC.SCRIPTING_13; AUX_FUNC.SCRIPTING_14; AUX_FUNC.SCRIPTING_15;
   AUX_FUNC.SCRIPTING_16;
   AUX_FUNC.LOWEHEISER_THROTTLE; AUX_FUNC.LOWEHEISER_STARTER].

(** What [read_aux] does once a position is debounced: the announcement to
    the GCS, then [run_aux_function] with the RC source and the channel
    index, then [return true]. *)
Definition announce_and_run (cfg : Config) (env : Env)
    (dispatch : AuxFuncTrigger -> M bool) (c : RC_Channel) (p : AuxSwitchPos) : M bool :=
  when (AP_RC_CHANNEL_AUX_FUNCTION_STRINGS_ENABLED cfg)
       (match string_for_aux_function env (to_uint16 (option_ c)) with
        | Some aux_string =>
            emit (GCS_SEND_TEXT MAV_SEVERITY_INFO "RC%i: %s %s"
                    [ArgInt (ch_in c + 1); ArgStr aux_string;
                     ArgStr (string_for_aux_pos p)])
        | None => ret tt
        end) ;;
  run_aux_function cfg dispatch (to_uint16 (option_ c)) p RC (ch_in c) ;;
  ret true.

(** The state [s] after the external calls [calls] were made, nothing else
    having changed. *)
Definition after_calls (s : State) (calls : list Event) : State :=
  {| chan := chan s;
     world := {| gcs_overrides_enabled := gcs_overrides_enabled (world s);
                 has_new_overrides := has_new_overrides (world s);
                 vehicle_lost := vehicle_lost (world s);
                 events := events (world s) ++ calls |} |}.

(** The trigger of a switch change on the channel [c]: its option as an
    [AUX_FUNC], the position, the RC source and the channel index. *)
Definition rc_trigger (c : RC_Channel) (p : AuxSwitchPos) : AuxFuncTrigger :=
  {| func := option_id c; pos := p; source := RC; source_index := ch_in c |}.

(** The calls that precede the handler on a switch change: the
    announcement to the GCS, where the strings are compiled in and the
    option has a name, and the position cached for scripting, where
    scripting is compiled in. *)
Definition calls_before_handler (cfg : Config) (env : Env) (c : RC_Channel)
    (p : AuxSwitchPos) : list Event :=
  (if AP_RC_CHANNEL_AUX_FUNCTION_STRINGS_ENABLED cfg then
     match string_for_aux_function env (option_id c) with
     | Some aux_string =>
         [GCS_SEND_TEXT MAV_SEVERITY_INFO "RC%i: %s %s"
            [ArgInt (ch_in c + 1); ArgStr aux_string;
             ArgStr (string_for_aux_pos p)]]
     | None => []
     end
   else [])
  ++ (if AP_SCRIPTING_ENABLED cfg then [RC_set_aux_cached (option_id c) p] else []).

(** The AUXF log record that follows the handler, with the handler's
    result [r], where logging is compiled in. *)
Definition calls_after_handler (cfg : Config) (c : RC_Channel) (p : AuxSwitchPos)
    (r : bool) : list Event :=
  if HAL_LOGGING_ENABLED cfg then
    [Logger_Write_AUXF (option_id c) (AuxSwitchPos_value p) (Source_value RC)
       (ch_in c) (if r then 1 else 0)]
  else [].

(** The [int8_t] that [read_aux] passes to [debounce_completed]. *)
Definition position_of (p : AuxSwitchPos) : Z := to_int8 (AuxSwitchPos_value p).

(** Whether [read_aux] takes the 6-position branch for the id. *)
Definition is_6pos_special_case (cfg : Config) (f : Z) : bool :=
  AP_VIDEOTX_ENABLED cfg && (f =? AUX_FUNC.VTX_POWER).

Definition switch_state_of (deb cur edge : Z) (init : bool) : switch_state_t :=
  {| debounce_position := deb; current_position := cur;
     last_edge_time_ms := edge; initialised := init |}.

(** The channel with another pulse width in [radio_in]. *)
Definition with_radio_in (c : RC_Channel) (pwm : Z) : RC_Channel :=
  {| radio_in := pwm; control_in := control_in c;
     radio_min := radio_min c; radio_trim := radio_trim c;
     radio_max := radio_max c; reversed := reversed c;
     dead_zone := dead_zone c; option_ := option_ c;
     type_in := type_in c; high_in := high_in c; ch_in := ch_in c;
     override_value := override_value c;
     last_override_time := last_override_time c;
     switch_state := switch_state c |}.

(** The value [pwm_to_range_dz] returns when the input is [a] above the
    dead zone and the full travel above it is [d]: the quotient
    [high * a / d], rounded after the product and after the division. *)
Definition range_value (high d a : Z) : Q :=
  if a >? 0
  then F32.round (F32.round (inject_Z (high * a)) / inject_Z d)
  else 0%Q.

(** A calibration with [radio_max] below [radio_min], and one whose scale
    and travel make the product [high_in * travel] inexact in binary32. *)
Definition inverted_channel (pwm : Z) : RC_Channel :=
  {| radio_in := pwm; control_in := 0;
     radio_min := 1900; radio_trim := 1500; radio_max := 1100;
     reversed := 0; dead_zone := 0; option_ := AUX_FUNC.DO_NOTHING;
     type_in := ANGLE; high_in := 4500; ch_in := 0;
     override_value := 0; last_override_time := 0;
     switch_state := unset_switch_state |}.

Definition wide_scale_channel (pwm : Z) : RC_Channel :=
  {| radio_in := pwm; control_in := 0;
     radio_min := 1000; radio_trim := 1500; radio_max := 2023;
     reversed := 0; dead_zone := 0; option_ := AUX_FUNC.DO_NOTHING;
     type_in := RANGE; high_in := 16401; ch_in := 0;
     override_value := 0; last_override_time := 0;
     switch_state := unset_switch_state |}.

Definition wrapped_dead_zone_channel : RC_Channel :=
  {| radio_in := 500; control_in := 0;
     radio_min := 2000; radio_trim := 1500; radio_max := 1500;
     reversed := 0; dead_zone := -500; option_ := AUX_FUNC.DO_NOTHING;
     type_in := RANGE; high_in := 1000; ch_in := 0;
     override_value := 0; last_override_time := 0;
     switch_state := unset_switch_state |}.

(** Invariant of the 0-to-3 scenario before the sample taken at time [t]:
    the switch is settled at 0, or the edge was seen at [e] and is being
    debounced, or position 3 is latched. *)
Inductive scenario_phase (t : Z) (ss : switch_state_t) : Prop :=
| phase_settled :
    current_position ss = 0 -> debounce_position ss = 0 -> t < 1020 ->
    scenario_phase t ss
| phase_pending (j : Z) :
    current_position ss = 0 -> debounce_position ss = 3 ->
    1000 <= last_edge_time_ms ss < 1020 ->
    t = last_edge_time_ms ss + 20 * j -> 1 <= j <= 10 ->
    scenario_phase t ss
| phase_latched :
    current_position ss = 3 -> 1200 <= t ->
    scenario_phase t ss.

Definition scenario_sample_ok (tc : Z * Z) : Prop :=
  snd tc = if fst tc <? 1200 then 0 else 3.

(** * Further members of [RC_Channel] and [RC_Channels] *)

(** ** Further single-precision operations *)

Module F32Ops.

Import F32.

Definition sub (a b : float) : float :=
  match a, b with
  | Finite x, Finite y => of_Q (x - y)
  | _, _ => NonFinite
  end.

(** Modelled from the spec: [constrain_float] is the clamp of AP_Math,
    defined outside this file; a value below [low] yields [low], a value
    above [high] yields [high], any other is kept.  What it makes of an
    infinity or a NaN is not modelled and is left non-finite. *)
Definition constrain_float (amt low high : float) : float :=
  match amt, low, high with
  | Finite x, Finite l, Finite h =>
      if negb (Qle_bool l x) then low
      else if negb (Qle_bool x h) then high
      else amt
  | _, _, _ => NonFinite
  end.

(** Conversion of a float to an integer type discards the fraction; the
    behaviour is undefined, [None], when the value is not finite or the
    integer does not fit the type. *)
Definition truncate (q : Q) : Z :=
  if Qle_bool 0 q then Qfloor q else Qceiling q.

Definition to_uint8_of (a : float) : option Z :=
  match a with
  | Finite q =>
      let z := truncate q in
      if (0 <=? z) && (z <=? 255) then Some z else None
  | NonFinite => None
  end.

Definition to_int16_of (a : float) : option Z :=
  match a with
  | Finite q =>
      let z := truncate q in
      if (- 2 ^ 15 <=? z) && (z <? 2 ^ 15) then Some z else None
  | NonFinite => None
  end.

End F32Ops.

(** ** Normalised and percentage inputs *)

(** The channel with another [reversed] parameter. *)
Definition with_reversed (c : RC_Channel) (r : Z) : RC_Channel :=
  {| radio_in := radio_in c; control_in := control_in c;
     radio_min := radio_min c; radio_trim := radio_trim c;
     radio_max := radio_max c; reversed := r;
     dead_zone := dead_zone c; option_ := option_ c;
     type_in := type_in c; high_in := high_in c; ch_in := ch_in c;
     override_value := override_value c;
     last_override_time := last_override_time c;
     switch_state := switch_state c |}.

(** [norm_input]: the input normalised to -1 .. 1 around the trim. *)
Definition norm_input (c : RC_Channel) : F32.float :=
  let reverse_mul := if get_reverse c then -1 else 1 in
  if radio_in c <? radio_trim c then
    if radio_min c >=? radio_trim c then F32.Finite 0
    else
      F32Ops.constrain_float
        (F32.div (F32.mul (F32.of_int reverse_mul)
                          (F32.of_int (radio_in c - radio_trim c)))
                 (F32.of_int (radio_trim c - radio_min c)))
        (F32.Finite (-1)) (F32.Finite 1)
  else
    if radio_max c <=? radio_trim c then F32.Finite 0
    else
      F32Ops.constrain_float
        (F32.div (F32.mul (F32.of_int reverse_mul)
                          (F32.of_int (radio_in c - radio_trim c)))
                 (F32.of_int (radio_max c - radio_trim c)))
        (F32.Finite (-1)) (F32.Finite 1).

(** [norm_input_dz]: the same with the dead zone around the trim. *)
Definition norm_input_dz (c : RC_Channel) : F32.float :=
  let dz_min := to_int16 (radio_trim c - dead_zone c) in
  let dz_max := to_int16 (radio_trim c + dead_zone c) in
  let reverse_mul := if get_reverse c then -1 else 1 in
  let ret :=
    if (radio_in c <? dz_min) && (dz_min >? radio_min c) then
      F32.div (F32.mul (F32.of_int reverse_mul) (F32.of_int (radio_in c - dz_min)))
              (F32.of_int (dz_min - radio_min c))
    else if (radio_in c >? dz_max) && (radio_max c >? dz_max) then
      F32.div (F32.mul (F32.of_int reverse_mul) (F32.of_int (radio_in c - dz_max)))
              (F32.of_int (radio_max c - dz_max))
    else F32.zero in
  F32Ops.constrain_float ret (F32.Finite (-1)) (F32.Finite 1).

(** [norm_input_ignore_trim()]: normalised to -1 .. 1 over the whole
    travel, ignoring trim and dead zone. *)
Definition norm_input_ignore_trim (c : RC_Channel) : F32.float :=
  (* sanity check min and max to avoid divide by zero *)
  if radio_max c <=? radio_min c then F32.Finite 0
  else
    let ret :=
      F32.mul (if get_reverse c then F32.Finite (-2) else F32.Finite 2)
        (F32Ops.sub
           (F32.div (F32.of_int (radio_in c - radio_min c))
                    (F32.of_int (radio_max c - radio_min c)))
           (F32.Finite (1 # 2))) in
    F32Ops.constrain_float ret (F32.Finite (-1)) (F32.Finite 1).

(** [percent_input]: the input as a percentage of the travel, ignoring the
    trim.  [None] stands for a float that does not convert to [uint8_t]. *)
Definition percent_input (c : RC_Channel) : option Z :=
  if radio_in c <=? radio_min c then Some (if get_reverse c then 100 else 0)
  else if radio_in c >=? radio_max c then Some (if get_reverse c then 0 else 100)
  else
    match F32Ops.to_uint8_of
            (F32.div (F32.mul (F32.Finite 100) (F32.of_int (radio_in c - radio_min c)))
                     (F32.of_int (radio_max c - radio_min c))) with
    | Some ret => Some (if get_reverse c then to_uint8 (100 - ret) else ret)
    | None => None
    end.

(** [in_min_dz]: the input is within the dead zone of the minimum. *)
Definition in_min_dz (c : RC_Channel) : bool :=
  radio_in c <? radio_min c + dead_zone c.

(** The percentage before the reversal is applied. *)
Definition percent_value (c : RC_Channel) (pwm : Z) : Z :=
  if pwm <=? radio_min c then 0
  else if pwm >=? radio_max c then 100
  else Qfloor (F32.round (inject_Z (100 * (pwm - radio_min c))
                          / inject_Z (radio_max c - radio_min c))).

(** ** Switch positions *)

(** [get_aux_switch_pos]: the switch position, LOW if reading the switch
    fails. *)
Definition get_aux_switch_pos (cfg : Config) (env : Env) (c : RC_Channel)
  : AuxSwitchPos :=
  match read_3pos_switch cfg env c with
  | Some position => position
  | None => LOW
  end.


(** ** The mode switch *)

Section ModeSwitch.

Variable cfg : Config.

(** [mode_switch_changed] is a pure virtual method that each vehicle
    defines. *)
Variable mode_switch_changed : Z -> M unit.

Definition read_mode_switch (tnow_ms : Z) : M unit :=
  r <- read_6pos_switch cfg tnow_ms ;;
  match r with
  | (true, Some position) =>
      (* set flight mode and simple mode setting *)
      mode_switch_changed position
  | _ => ret tt
  end.

Definition reset_mode_switch (tnow_ms : Z) : M unit :=
  c <- get_chan ;;
  let ss := switch_state c in
  put_chan (set_switch_state c
    {| debounce_position := -1;
       current_position := -1;
       last_edge_time_ms := last_edge_time_ms ss;
       initialised := initialised ss |}) ;;
  read_mode_switch tnow_ms.

End ModeSwitch.

(** ** Looking up and converting options *)

(** The channel with another OPTION parameter. *)
Definition with_option (c : RC_Channel) (o : Z) : RC_Channel :=
  {| radio_in := radio_in c; control_in := control_in c;
     radio_min := radio_min c; radio_trim := radio_trim c;
     radio_max := radio_max c; reversed := reversed c;
     dead_zone := dead_zone c; option_ := o;
     type_in := type_in c; high_in := high_in c; ch_in := ch_in c;
     override_value := override_value c;
     last_override_time := last_override_time c;
     switch_state := switch_state c |}.

(** The loop of [RC_Channels::find_channel_for_option] from channel [i] on;
    the result is the index of the channel found, [None] for [nullptr].
    The cast of the parameter to [AUX_FUNC], an enumeration over
    [uint16_t], is [to_uint16]. *)
Fixpoint find_channel_from (i : nat) (channels : list RC_Channel) (wanted : Z)
  : option nat :=
  match channels with
  | [] => None
  | c :: rest =>
      if to_uint16 (option_ c) =? wanted then Some i
      else find_channel_from (S i) rest wanted
  end.

Definition find_channel_for_option (channels : list RC_Channel) (wanted : Z)
  : option nat :=
  find_channel_from 0 channels wanted.

(** [RC_Channels::convert_options]: every channel holding [old_option] is
    given [new_option]; [set_and_save] stores the value it sets. *)
Definition convert_options (old_option new_option : Z) (channels : list RC_Channel)
  : list RC_Channel :=
  map (fun c => if to_uint16 (option_ c) =? old_option
                then with_option c (to_int16 new_option)
                else c)
      channels.

(** ** Vocabulary of the further statements *)

(** The opposite switch position. *)
Definition mirror (p : AuxSwitchPos) : AuxSwitchPos :=
  match p with LOW => HIGH | MIDDLE => MIDDLE | HIGH => LOW end.

(** The state after the receiver delivered another pulse width. *)
Definition receive (s : State) (pwm : Z) : State :=
  {| chan := with_radio_in (chan s) pwm; world := world s |}.


(** [read_aux] called once for each [(time, pulse width)] sample, oldest
    first: what each call returned, and the state after the last one. *)
Fixpoint read_aux_samples (cfg : Config) (env : Env)
    (dispatch : AuxFuncTrigger -> M bool) (samples : list (Z * Z)) (s : State)
  : list bool * State :=
  match samples with
  | [] => ([], s)
  | (t, pwm) :: rest =>
      let (r, s1) := read_aux cfg env dispatch t (receive s pwm) in
      let (rs, s2) := read_aux_samples cfg env dispatch rest s1 in
      (r :: rs, s2)
  end.

(** The switch position that the pulse width [pwm] reads as on the channel
    of [s]. *)
Definition reads_as (cfg : Config) (env : Env) (s : State) (pwm : Z)
    (p : AuxSwitchPos) : Prop :=
  read_3pos_switch cfg env (with_radio_in (chan s) pwm) = Some p.

(** Between [s] and [s'] the channel kept its option and its reversal, and
    nothing outside the channel changed. *)
Definition quiet (s s' : State) : Prop :=
  option_ (chan s') = option_ (chan s)
  /\ reversed (chan s') = reversed (chan s)
  /\ world s' = world s.

(** A channel with the option [opt], initialised and settled at the
    position LOW. *)
Definition settled_low (opt : Z) : State :=
  with_switch_state (example_state opt 1000) (switch_state_of 0 0 0 true).

(** The position that [read_6pos_switch] assigns to a pulse width inside
    the limits. *)
Definition six_pos_band (pulsewidth : Z) : Z :=
  if pulsewidth <? 1231 then 0
  else if pulsewidth <? 1361 then 1
  else if pulsewidth <? 1491 then 2
  else if pulsewidth <? 1621 then 3
  else if pulsewidth <? 1750 then 4
  else 5.

(** What a sequence of calls may touch: [m] only adds to the calls made,
    calls that satisfy [P]; where [G] is false it leaves the channel, the
    overrides-enabled flag and the new-override flag alone; where [L] is
    false it leaves [vehicle_lost] alone. *)
Definition footprint {A : Type} (G L : bool) (P : Event -> Prop) (m : M A) : Prop :=
  forall s : State,
    (G = false ->
     chan (snd (m s)) = chan s
     /\ has_new_overrides (world (snd (m s))) = has_new_overrides (world s)
     /\ gcs_overrides_enabled (world (snd (m s))) = gcs_overrides_enabled (world s))
    /\ (L = false -> vehicle_lost (world (snd (m s))) = vehicle_lost (world s))
    /\ exists new : list Event,
         events (world (snd (m s))) = events (world s) ++ new /\ Forall P new.

(** The only triggers on which [do_aux_function] may ask for arming. *)
Definition arming_trigger (cfg : Config) (trigger : AuxFuncTrigger) : Prop :=
  AP_ARMING_ENABLED cfg = true
  /\ pos trigger = HIGH
  /\ (func trigger = AUX_FUNC.ARMDISARM \/ func trigger = AUX_FUNC.ARM_EMERGENCY_STOP).

Definition arming_only_on (cfg : Config) (trigger : AuxFuncTrigger) (e : Event) : Prop :=
  e = Arming_arm -> arming_trigger cfg trigger.

(** ** Initialisation of the auxiliary functions *)

Module AUX_FUNC_HELI.
Abbreviation TURBINE_START := 161%Z (only parsing).
End AUX_FUNC_HELI.

(** What [init_aux_function] tests besides the flags of [Config]: the ADS-B
    receiver flag and whether the board is the simulator. *)
Record InitConfig : Type := {
  HAL_ADSB_ENABLED : bool;
  CONFIG_HAL_BOARD_SITL : bool
}.

(** The call to [AP_BoardConfig::config_error] that [init_aux_function]
    ends with on the simulator when it cannot initialise the option. *)
Inductive BoardConfigCall : Type :=
| config_error (fmt : string) (args : list TextArg).

Section InitAux.

Variable cfg : Config.
Variable icfg : InitConfig.
Variable env : Env.
Variable dispatch : AuxFuncTrigger -> M bool.

(** [init_aux_function(ch_option, ch_flag)]; the result is the
    [config_error] call made, if any. *)
Definition init_aux_function (ch_option : Z) (ch_flag : AuxSwitchPos)
  : M (option BoardConfigCall) :=
  c <- get_chan ;;
  (* the following functions do not need to be initialised *)
  let no_init : M (option BoardConfigCall) := ret None in
  (* these functions require explicit initialization *)
  let explicit_init : M (option BoardConfigCall) :=
    run_aux_function cfg dispatch ch_option ch_flag INIT (ch_in c) ;;
    ret None in
  let default : M (option BoardConfigCall) :=
    emit (GCS_SEND_TEXT MAV_SEVERITY_WARNING "Failed to init: RC%u_OPTION: %u"
            [ArgInt (ch_in c + 1); ArgInt ch_option]) ;;
    if CONFIG_HAL_BOARD_SITL icfg
    then ret (Some (config_error "Failed to init: RC%u_OPTION: %u"
                      [ArgInt (ch_in c + 1); ArgInt ch_option]))
    else ret None in
  let relay_enabled := AP_SERVORELAYEVENTS_ENABLED cfg && AP_RELAY_ENABLED cfg in
  match ch_option with
  | AUX_FUNC.ARMDISARM
  | AUX_FUNC.ARMDISARM_AIRMODE =>
      if AP_ARMING_ENABLED cfg then no_init else default
  | AUX_FUNC.BATTERY_MPPT_ENABLE =>
      if AP_BATTERY_ENABLED cfg then no_init else default
  | AUX_FUNC.CAMERA_TRIGGER =>
      if AP_CAMERA_ENABLED cfg then no_init else default
  | AUX_FUNC.CLEAR_WP =>
      if AP_MISSION_ENABLED cfg then no_init else default
  | AUX_FUNC.COMPASS_LEARN => no_init
  | AUX_FUNC.DISARM =>
      if AP_ARMING_ENABLED cfg then no_init else default
  | AUX_FUNC.DO_NOTHING => no_init
  | AUX_FUNC.LANDING_GEAR =>
      if AP_LANDINGGEAR_ENABLED cfg then no_init else default
  | AUX_FUNC.LOST_VEHICLE_SOUND => no_init
  | AUX_FUNC.RELAY
  | AUX_FUNC.RELAY2
  | AUX_FUNC.RELAY3
  | AUX_FUNC.RELAY4
  | AUX_FUNC.RELAY5
  | AUX_FUNC.RELAY6 =>
      if relay_enabled then no_init else default
  | AUX_FUNC.VISODOM_ALIGN =>
      if HAL_VISUALODOM_ENABLED cfg then no_init else default
  | AUX_FUNC.EKF_LANE_SWITCH
  | AUX_FUNC.EKF_YAW_RESET =>
      if AP_AHRS_ENABLED cfg then no_init else default
  | AUX_FUNC.GENERATOR =>
      (* don't turn generator on or off initially *)
      if HAL_GENERATOR_ENABLED cfg then no_init else default
  | AUX_FUNC.EKF_SOURCE_SET =>
      if AP_AHRS_ENABLED cfg then no_init else default
  | AUX_FUNC.TORQEEDO_CLEAR_ERR =>
      if HAL_TORQEEDO_ENABLED cfg then no_init else default
  | AUX_FUNC.SCRIPTING_1
  | AUX_FUNC.SCRIPTING_2
  | AUX_FUNC.SCRIPTING_3
  | AUX_FUNC.SCRIPTING_4
  | AUX_FUNC.SCRIPTING_5
  | AUX_FUNC.SCRIPTING_6
  | AUX_FUNC.SCRIPTING_7
  | AUX_FUNC.SCRIPTING_8
  | AUX_FUNC.SCRIPTING_9
  | AUX_FUNC.SCRIPTING_10
  | AUX_FUNC.SCRIPTING_11
  | AUX_FUNC.SCRIPTING_12
  | AUX_FUNC.SCRIPTING_13
  | AUX_FUNC.SCRIPTING_14
  | AUX_FUNC.SCRIPTING_15
  | AUX_FUNC.SCRIPTING_16
  | AUX_FUNC.STOP_RESTART_SCRIPTING =>
      if AP_SCRIPTING_ENABLED cfg then no_init else default
  | AUX_FUNC.VTX_POWER =>
      if AP_VIDEOTX_ENABLED cfg then no_init else default
  | AUX_FUNC.OPTFLOW_CAL =>
      if AP_OPTICALFLOW_CALIBRATOR_ENABLED cfg then no_init else default
  | AUX_FUNC_HELI.TURBINE_START => no_init
  | AUX_FUNC.MOUNT1_ROLL
  | AUX_FUNC.MOUNT1_PITCH
  | AUX_FUNC.MOUNT1_YAW
  | AUX_FUNC.MOUNT2_ROLL
  | AUX_FUNC.MOUNT2_PITCH
  | AUX_FUNC.MOUNT2_YAW =>
      if HAL_MOUNT_ENABLED cfg then no_init else default
  | AUX_FUNC.LOWEHEISER_STARTER =>
      if HAL_GENERATOR_ENABLED cfg then no_init else default
  | AUX_FUNC.MAG_CAL =>
      if COMPASS_CAL_ENABLED cfg then no_init else default
  | AUX_FUNC.CAMERA_IMAGE_TRACKING =>
      if AP_CAMERA_ENABLED cfg then no_init else default
  | AUX_FUNC.MOUNT_LRF_ENABLE =>
      if HAL_MOUNT_ENABLED cfg then no_init else default
  | AUX_FUNC.LOWEHEISER_THROTTLE =>
      if HAL_GENERATOR_ENABLED cfg then no_init else default
  | AUX_FUNC.AVOID_ADSB =>
      if HAL_ADSB_ENABLED icfg then explicit_init else default
  | AUX_FUNC.AVOID_PROXIMITY => explicit_init
  | AUX_FUNC.FENCE =>
      if AP_FENCE_ENABLED cfg then explicit_init else default
  | AUX_FUNC.GPS_DISABLE
  | AUX_FUNC.GPS_DISABLE_YAW =>
      if AP_GPS_ENABLED cfg then explicit_init else default
  | AUX_FUNC.GRIPPER =>
      if AP_GRIPPER_ENABLED cfg then explicit_init else default
  | AUX_FUNC.KILL_IMU1
  | AUX_FUNC.KILL_IMU2
  | AUX_FUNC.KILL_IMU3 =>
      if AP_INERTIALSENSOR_KILL_IMU_ENABLED cfg then explicit_init else default
  | AUX_FUNC.MISSION_RESET =>
      if AP_MISSION_ENABLED cfg then explicit_init else default
  | AUX_FUNC.MOTOR_ESTOP
  | AUX_FUNC.RC_OVERRIDE_ENABLE => explicit_init
  | AUX_FUNC.RUNCAM_CONTROL
  | AUX_FUNC.RUNCAM_OSD_CONTROL =>
      if AP_CAMERA_RUNCAM_ENABLED cfg then explicit_init else default
  | AUX_FUNC.SPRAYER =>
      if HAL_SPRAYER_ENABLED cfg then explicit_init else default
  | AUX_FUNC.DISABLE_AIRSPEED_USE =>
      if AP_AIRSPEED_ENABLED cfg then explicit_init else default
  | AUX_FUNC.FFT_NOTCH_TUNE => explicit_init
  | AUX_FUNC.RETRACT_MOUNT1
  | AUX_FUNC.RETRACT_MOUNT2
  | AUX_FUNC.MOUNT_LOCK =>
      if HAL_MOUNT_ENABLED cfg then explicit_init else default
  | AUX_FUNC.LOG_PAUSE =>
      if HAL_LOGGING_ENABLED cfg then explicit_init else default
  | AUX_FUNC.ARM_EMERGENCY_STOP => explicit_init
  | AUX_FUNC.CAMERA_REC_VIDEO
  | AUX_FUNC.CAMERA_ZOOM
  | AUX_FUNC.CAMERA_MANUAL_FOCUS
  | AUX_FUNC.CAMERA_AUTO_FOCUS
  | AUX_FUNC.CAMERA_LENS =>
      if AP_CAMERA_ENABLED cfg then explicit_init else default
  | AUX_FUNC.AHRS_TYPE =>
      if AP_AHRS_ENABLED cfg then explicit_init else default
  | _ => default
  end.

(** [init_aux]: the position read from the switch, LOW when it cannot be
    read, initialises the option of the channel. *)
Definition init_aux : M (option BoardConfigCall) :=
  c <- get_chan ;;
  let position :=
    match read_3pos_switch cfg env c with
    | Some p => p
    | None => LOW
    end in
  init_aux_function (to_uint16 (option_ c)) position.

End InitAux.

(** The warning that [init_aux_function] sends for an option it cannot
    initialise. *)
Definition failed_to_init (c : RC_Channel) (ch_option : Z) : Event :=
  GCS_SEND_TEXT MAV_SEVERITY_WARNING "Failed to init: RC%u_OPTION: %u"
    [ArgInt (ch_in c + 1); ArgInt ch_option].

(** The only call of [init_aux_function] on which arming may be asked
    for. *)
Definition arming_only_at_init (cfg : Config) (ch_option : Z) (ch_flag : AuxSwitchPos)
    (e : Event) : Prop :=
  e = Arming_arm ->
  AP_ARMING_ENABLED cfg = true /\ ch_flag = HIGH
  /\ ch_option = AUX_FUNC.ARM_EMERGENCY_STOP.

(** ** Reading the input *)

(** What [update] asks of [RC_Channels] and of the HAL: the two options
    that suppress a source, whether a receiver was ever seen, and the
    [uint16_t] that [hal.rcin->read] returns for a channel. *)
Record RcInput : Type := {
  IGNORE_OVERRIDES : bool;
  IGNORE_RECEIVER : bool;
  has_had_rc_receiver : bool;
  rcin_read : Z -> Z
}.

(** The channel with another [control_in]. *)
Definition with_control_in (c : RC_Channel) (v : Z) : RC_Channel :=
  {| radio_in := radio_in c; control_in := v;
     radio_min := radio_min c; radio_trim := radio_trim c;
     radio_max := radio_max c; reversed := reversed c;
     dead_zone := dead_zone c; option_ := option_ c;
     type_in := type_in c; high_in := high_in c; ch_in := ch_in c;
     override_value := override_value c;
     last_override_time := last_override_time c;
     switch_state := switch_state c |}.

(** [update]: read input from [hal.rcin] or overrides.  The result is what
    the call returns and the channel it leaves; [None] stands for a
    conversion of the float to [int16_t] that is undefined. *)
Definition update (env : Env) (rcin : RcInput) (tnow_ms : Z) (c : RC_Channel)
  : option (bool * RC_Channel) :=
  let sampled :=
    if has_override env tnow_ms c && negb (IGNORE_OVERRIDES rcin) then
      Some (to_int16 (override_value c))
    else if has_had_rc_receiver rcin && negb (IGNORE_RECEIVER rcin) then
      Some (to_int16 (rcin_read rcin (ch_in c)))
    else None in
  match sampled with
  | None => Some (false, c)
  | Some r =>
      let c1 := with_radio_in c r in
      let converted :=
        match type_in c1 with
        | RANGE => pwm_to_range c1
        | ANGLE => pwm_to_angle c1
        end in
      match F32Ops.to_int16_of converted with
      | Some v => Some (true, with_control_in c1 v)
      | None => None
      end
  end.

(** The calls that [do_aux_function] makes through a pointer to an optional
    subsystem that it tests first, each with whether that subsystem exists
    in [env].  Every other call gives [None]: it goes to no optional
    subsystem, or through a pointer that the source uses without a test,
    as the logger's in the LOG_PAUSE case. *)
Definition tested_target (env : Env) (e : Event) : option bool :=
  match e with
  | Avoidance_enable => Some (has_ap_avoidance env && has_adsb env)
  | Avoidance_disable => Some (has_ap_avoidance env)
  | Avoid_proximity_avoidance_enable _ => Some (has_ac_avoid env)
  | Camera_take_picture
  | Camera_record_video _
  | Camera_set_zoom_rate _
  | Camera_set_focus_rate _
  | Camera_set_focus_auto
  | Camera_set_tracking _
  | Camera_set_lens _
  | Camera_cam_mode_toggle => Some (has_camera env)
  | RunCam_start_recording
  | RunCam_osd_option
  | RunCam_stop_recording
  | RunCam_enter_osd
  | RunCam_exit_osd => Some (has_runcam env)
  | Fence_enable_configured _ => Some (has_fence env)
  | Mission_clear
  | Mission_reset => Some (has_mission env)
  | ServoRelayEvents_do_set_relay _ _ => Some (has_servorelayevents env)
  | Generator_stop
  | Generator_idle
  | Generator_run => Some (has_generator env)
  | Sprayer_run _
  | Sprayer_test_pump _ => Some (has_sprayer env)
  | GyroFFT_start_notch_tune
  | GyroFFT_stop_notch_tune => Some (has_fft env)
  | Mount_set_mode_retract _
  | Mount_set_mode_to_default _
  | Mount_set_yaw_lock _
  | Mount_set_rangefinder_enable _ _ => Some (has_mount env)
  | LandingGear_set_position_deploy
  | LandingGear_set_position_retract => Some (has_landing_gear env)
  | Airspeed_force_disable_use _ => Some (has_airspeed env)
  | VisualOdom_request_align_yaw_to_ahrs => Some (has_visualodom env)
  | OpticalFlow_start_calibration
  | OpticalFlow_stop_calibration => Some (has_opticalflow env)
  | Torqeedo_clear_motor_error => Some (has_torqeedo env)
  | Scripting_stop
  | Scripting_restart_all => Some (has_scripting env)
  | _ => None
  end.

(** * Properties *)

(** ** The debounce machine *)

Lemma debounce_completed_cases (tnow_ms p : Z) (s : State) :
  debounce_completed tnow_ms p s =
    let ss := switch_of s in
    if current_position ss =? p then
      (false, with_switch_state s (with_debounce_position ss p))
    else if negb (debounce_position ss =? p) then
      (false, with_switch_state s
                (with_last_edge_time_ms (with_debounce_position ss p) tnow_ms))
    else if sub_uint32 tnow_ms (last_edge_time_ms ss) >=? SWITCH_DEBOUNCE_TIME_MS then
      (true, with_switch_state s (with_current_position ss p))
    else (false, s).
Proof.
  unfold debounce_completed, switch_of, with_switch_state. unfold_monad. cbn.
  destruct (current_position (switch_state (chan s)) =? p); [reflexivity|].
  destruct (debounce_position (switch_state (chan s)) =? p); cbn; [|reflexivity].
  destruct (sub_uint32 tnow_ms (last_edge_time_ms (switch_state (chan s)))
            >=? SWITCH_DEBOUNCE_TIME_MS); reflexivity.
Qed.

(** C10: after [debounce_completed p] the field [debounce_position] is [p];
    [current_position] is written only by a call that returns true, which
    leaves it equal to [p], and a call that returns false leaves it as it
    was. *)
Theorem debounce_completed_writes (tnow_ms p : Z) (s : State) :
  let r := fst (debounce_completed tnow_ms p s) in
  let s' := snd (debounce_completed tnow_ms p s) in
  debounce_position (switch_of s') = p
  /\ (r = true -> current_position (switch_of s') = p)
  /\ (r = false -> current_position (switch_of s') = current_position (switch_of s)).
Proof.
  rewrite debounce_completed_cases. cbv zeta.
  destruct (current_position (switch_of s) =? p) eqn:Hcur.
  - apply Z.eqb_eq in Hcur. cbn. repeat split; congruence.
  - destruct (debounce_position (switch_of s) =? p) eqn:Hdeb; cbn.
    + apply Z.eqb_eq in Hdeb.
      destruct (sub_uint32 tnow_ms (last_edge_time_ms (switch_of s))
                >=? SWITCH_DEBOUNCE_TIME_MS); cbn; repeat split; congruence.
    + repeat split; congruence.
Qed.

Lemma sub_uint32_no_wrap (a b : Z) :
  0 <= b <= a -> a < 2 ^ 32 -> sub_uint32 a b = a - b.
Proof.
  intros Hb Ha. unfold sub_uint32, to_uint32. apply Z.mod_small. lia.
Qed.

Lemma scenario_step (t : Z) (s : State) :
  0 <= t < 2 ^ 32 ->
  scenario_phase t (switch_of s) ->
  let s' := snd (debounce_completed t (switch_at t) s) in
  scenario_sample_ok (t, current_position (switch_of s'))
  /\ scenario_phase (t + 20) (switch_of s').
Proof.
  intros Ht Hph. rewrite debounce_completed_cases. cbv zeta.
  unfold scenario_sample_ok, switch_at. cbn [fst snd].
  destruct Hph as [Hc Hd Hlt | j Hc Hd He Hj Hjr | Hc Hlt].
  - (* settled at 0 *)
    rewrite Hc, Hd.
    destruct (t <? 1000) eqn:Hearly.
    + apply Z.ltb_lt in Hearly. cbn.
      assert ((t <? 1200) = true) as -> by (apply Z.ltb_lt; lia).
      split; [exact Hc|]. apply phase_settled; cbn; try assumption; lia.
    + apply Z.ltb_ge in Hearly. cbn.
      assert ((t <? 1200) = true) as -> by (apply Z.ltb_lt; lia).
      split; [exact Hc|].
      apply (phase_pending _ _ 1); cbn; try assumption; try reflexivity; lia.
  - (* edge seen, being debounced *)
    assert ((t <? 1000) = false) as -> by (apply Z.ltb_ge; lia).
    rewrite Hc, Hd. cbn [Z.eqb negb].
    rewrite sub_uint32_no_wrap by lia.
    unfold SWITCH_DEBOUNCE_TIME_MS.
    destruct (t - last_edge_time_ms (switch_of s) >=? 200) eqn:Hdone.
    + apply Z.geb_le in Hdone. cbn.
      assert ((t <? 1200) = false) as -> by (apply Z.ltb_ge; lia).
      split; [reflexivity|]. apply phase_latched; cbn; [reflexivity | lia].
    + rewrite Z.geb_leb in Hdone. apply Z.leb_gt in Hdone. cbn.
      assert ((t <? 1200) = true) as -> by (apply Z.ltb_lt; lia).
      split; [exact Hc|].
      apply (phase_pending _ _ (j + 1)); try assumption; lia.
  - (* latched at 3 *)
    assert ((t <? 1000) = false) as -> by (apply Z.ltb_ge; lia).
    assert ((t <? 1200) = false) as -> by (apply Z.ltb_ge; lia).
    rewrite Hc. cbn. split; [exact Hc|].
    apply phase_latched; cbn; [exact Hc | lia].
Qed.

Lemma scenario_trace (n : nat) :
  forall (t : Z) (s : State),
    0 <= t -> t + 20 * Z.of_nat n < 2 ^ 32 ->
    scenario_phase t (switch_of s) ->
    Forall scenario_sample_ok (debounce_trace (samples_from t n) s).
Proof.
  induction n as [|n IH]; intros t s Ht Hend Hph.
  - constructor.
  - unfold samples_from. cbn [sample_times map debounce_trace].
    pose proof (scenario_step t s) as Hstep.
    destruct (debounce_completed t (switch_at t) s) as [r s'] eqn:Hcall.
    cbn [snd] in Hstep. destruct Hstep as [Hok Hnext]; [lia | assumption |].
    constructor; [exact Hok|].
    apply IH; [lia | lia | exact Hnext].
Qed.

(** C3: the three outcomes of [debounce_completed] -- unchanged, pending,
    confirmed -- with the confirmation taken exactly when the [uint32_t]
    difference [now - last_edge_time_ms] has reached 200 ms; and the
    scenario: the switch moves from 0 to 3 at t = 1000 ms and is sampled
    every 20 ms, the latched position is 0 at every sample before 1200 ms
    and 3 from the first sample at or after 1200 ms. *)
Theorem debounce_completed_three_outcomes :
  (forall (tnow_ms p : Z) (s : State),
      let ss := switch_of s in
      (current_position ss = p ->
       debounce_completed tnow_ms p s
       = (false, with_switch_state s (with_debounce_position ss p)))
      /\ (current_position ss <> p -> debounce_position ss <> p ->
          debounce_completed tnow_ms p s
          = (false, with_switch_state s
                      (with_last_edge_time_ms (with_debounce_position ss p) tnow_ms)))
      /\ (current_position ss <> p -> debounce_position ss = p ->
          (fst (debounce_completed tnow_ms p s) = true
           <-> 200 <= sub_uint32 tnow_ms (last_edge_time_ms ss))
          /\ (200 <= sub_uint32 tnow_ms (last_edge_time_ms ss) ->
              debounce_completed tnow_ms p s
              = (true, with_switch_state s (with_current_position ss p)))
          /\ (sub_uint32 tnow_ms (last_edge_time_ms ss) < 200 ->
              debounce_completed tnow_ms p s = (false, s)))
      /\ (0 <= last_edge_time_ms ss <= tnow_ms -> tnow_ms < 2 ^ 32 ->
          sub_uint32 tnow_ms (last_edge_time_ms ss)
          = tnow_ms - last_edge_time_ms ss))
  /\ (forall (s : State) (t0 : Z) (n : nat),
         current_position (switch_of s) = 0 ->
         debounce_position (switch_of s) = 0 ->
         0 <= t0 <= 1000 ->
         t0 + 20 * Z.of_nat n < 2 ^ 32 ->
         Forall (fun tc => snd tc = if fst tc <? 1200 then 0 else 3)
                (debounce_trace (samples_from t0 n) s)).
Proof.
  split.
  - intros tnow_ms p s ss. subst ss.
    rewrite debounce_completed_cases. cbv zeta. unfold SWITCH_DEBOUNCE_TIME_MS.
    split; [|split; [|split]].
    + intros Hc. apply Z.eqb_eq in Hc. rewrite Hc. reflexivity.
    + intros Hc Hd. apply Z.eqb_neq in Hc, Hd. rewrite Hc, Hd. reflexivity.
    + intros Hc Hd. apply Z.eqb_neq in Hc. apply Z.eqb_eq in Hd.
      rewrite Hc, Hd. cbn [negb].
      destruct (sub_uint32 tnow_ms (last_edge_time_ms (switch_of s)) >=? 200) eqn:Hdone.
      * apply Z.geb_le in Hdone. cbn [fst].
        split; [split; [intros _; exact Hdone | reflexivity]|].
        split; [reflexivity | intros Hlt; lia].
      * rewrite Z.geb_leb in Hdone. apply Z.leb_gt in Hdone. cbn [fst].
        split; [split; [discriminate | intros Hge; lia]|].
        split; [intros Hge; lia | reflexivity].
    + intros Hle Hlt. apply sub_uint32_no_wrap; lia.
  - intros s t0 n Hc Hd Ht0 Hend.
    apply (scenario_trace n t0 s); [lia | assumption |].
    apply phase_settled; [assumption | assumption | lia].
Qed.

Lemma debounce_completed_three_outcomes_witness :
  debounce_completed 1200 3
    (with_switch_state settled_state
       {| debounce_position := 3; current_position := 0;
          last_edge_time_ms := 1000; initialised := true |})
  = (true,
     with_switch_state settled_state
       {| debounce_position := 3; current_position := 3;
          last_edge_time_ms := 1000; initialised := true |})
  /\ Forall (fun tc => snd tc = if fst tc <? 1200 then 0 else 3)
            (debounce_trace (samples_from 900 20) settled_state).
Proof.
  split.
  - pose proof (proj1 debounce_completed_three_outcomes 1200 3
                  (with_switch_state settled_state
                     {| debounce_position := 3; current_position := 0;
                        last_edge_time_ms := 1000; initialised := true |}))
      as [_ [_ [Hconfirm _]]].
    destruct Hconfirm as [_ [Hlatch _]].
    + cbn. lia.
    + reflexivity.
    + apply Hlatch. vm_compute. discriminate.
  - apply (proj2 debounce_completed_three_outcomes settled_state 900 20%nat).
    + reflexivity.
    + reflexivity.
    + lia.
    + vm_compute. reflexivity.
Defined.

(** ** The override arbiter *)

(** C5: [has_override] is false for the sentinel value 0; otherwise true
    when timeouts are disabled, false when the timeout is exactly 0 ms, and
    else true exactly when the [uint32_t] time elapsed since
    [last_override_time] is strictly below the timeout.  After
    [set_override(v, 1000)] with [v] nonzero and overrides enabled, a
    3000 ms timeout gives true at 3900 and false at 4500, and a zero
    timeout gives false at every time. *)
Theorem has_override_policy :
  (forall (env : Env) (tnow_ms : Z) (c : RC_Channel),
      (override_value c = 0 -> has_override env tnow_ms c = false)
      /\ (override_value c <> 0 -> override_timeout_ms env = None ->
          has_override env tnow_ms c = true)
      /\ (override_value c <> 0 -> override_timeout_ms env = Some 0 ->
          has_override env tnow_ms c = false)
      /\ (forall timeout : Z,
             override_value c <> 0 -> override_timeout_ms env = Some timeout ->
             timeout <> 0 ->
             (has_override env tnow_ms c = true
              <-> sub_uint32 tnow_ms (last_override_time c) < timeout)))
  /\ (forall (tnow_ms v : Z) (s : State),
         gcs_overrides_enabled (world s) = true -> v <> 0 ->
         let c' := chan (snd (set_override tnow_ms v 1000 s)) in
         (forall env : Env,
             override_timeout_ms env = Some 3000 ->
             has_override env 3900 c' = true /\ has_override env 4500 c' = false)
         /\ (forall (env : Env) (t : Z),
                override_timeout_ms env = Some 0 -> has_override env t c' = false)).
Proof.
  split.
  - intros env tnow_ms c. unfold has_override.
    split; [|split; [|split]].
    + intros ->. reflexivity.
    + intros Hv ->. apply Z.eqb_neq in Hv. rewrite Hv. reflexivity.
    + intros Hv ->. apply Z.eqb_neq in Hv. rewrite Hv. reflexivity.
    + intros timeout Hv -> Hto. apply Z.eqb_neq in Hv, Hto. rewrite Hv, Hto.
      apply Z.ltb_lt.
  - intros tnow_ms v s Hen Hv c'.
    assert (Hc' : override_value c' = v /\ last_override_time c' = 1000).
    { subst c'. unfold set_override. rewrite Hen. cbn. split; reflexivity. }
    destruct Hc' as [Hval Htime]. apply Z.eqb_neq in Hv.
    split.
    + intros env Hto. unfold has_override. rewrite Hval, Hv, Hto, Htime.
      split; reflexivity.
    + intros env t Hto. unfold has_override. rewrite Hval, Hv, Hto. reflexivity.
Qed.

Lemma has_override_policy_witness :
  has_override (example_env (Some 3000)) 3900
    (chan (snd (set_override 0 1500 1000 (example_state AUX_FUNC.DO_NOTHING 1100))))
  = true
  /\ has_override (example_env (Some 3000)) 4500
       (chan (snd (set_override 0 1500 1000 (example_state AUX_FUNC.DO_NOTHING 1100))))
     = false.
Proof.
  apply (proj1 (proj2 has_override_policy 0 1500
                  (example_state AUX_FUNC.DO_NOTHING 1100) eq_refl
                  ltac:(discriminate)) (example_env (Some 3000))).
  reflexivity.
Defined.

(** ** The 6-position switch *)

(** C9: a pulse width at or below the low limit, or at or above the high
    limit, is rejected: the call returns false, writes no position and
    leaves the state alone.  Inside the window the position written is
    0 below 1231, 1 below 1361, 2 below 1491, 3 below 1621, 4 below 1750
    and 5 from there on, and the call returns what [debounce_completed]
    answers for it; 1200, 1350, 1480, 1600, 1700 and 1800 give 0 to 5. *)
Theorem read_6pos_switch_bands (cfg : Config) (tnow_ms : Z) (s : State) :
  let pulsewidth := to_uint16 (radio_in (chan s)) in
  let out := read_6pos_switch cfg tnow_ms s in
  (pulsewidth <= RC_MIN_LIMIT_PWM cfg \/ RC_MAX_LIMIT_PWM cfg <= pulsewidth ->
   out = ((false, None), s))
  /\ (RC_MIN_LIMIT_PWM cfg < pulsewidth < RC_MAX_LIMIT_PWM cfg ->
      exists position : Z,
        out = ((fst (debounce_completed tnow_ms position s), Some position),
               snd (debounce_completed tnow_ms position s))
        /\ (pulsewidth < 1231 -> position = 0)
        /\ (1231 <= pulsewidth < 1361 -> position = 1)
        /\ (1361 <= pulsewidth < 1491 -> position = 2)
        /\ (1491 <= pulsewidth < 1621 -> position = 3)
        /\ (1621 <= pulsewidth < 1750 -> position = 4)
        /\ (1750 <= pulsewidth -> position = 5))
  /\ (RC_MIN_LIMIT_PWM cfg < 1200 -> 1800 < RC_MAX_LIMIT_PWM cfg ->
      forall pwm position : Z,
        In (pwm, position)
           [(1200, 0); (1350, 1); (1480, 2); (1600, 3); (1700, 4); (1800, 5)] ->
        radio_in (chan s) = pwm ->
        snd (fst out) = Some position).
Proof.
  cbv zeta.
  assert (Hin : RC_MIN_LIMIT_PWM cfg < to_uint16 (radio_in (chan s)) < RC_MAX_LIMIT_PWM cfg ->
          exists position : Z,
            read_6pos_switch cfg tnow_ms s
            = ((fst (debounce_completed tnow_ms position s), Some position),
               snd (debounce_completed tnow_ms position s))
            /\ (to_uint16 (radio_in (chan s)) < 1231 -> position = 0)
            /\ (1231 <= to_uint16 (radio_in (chan s)) < 1361 -> position = 1)
            /\ (1361 <= to_uint16 (radio_in (chan s)) < 1491 -> position = 2)
            /\ (1491 <= to_uint16 (radio_in (chan s)) < 1621 -> position = 3)
            /\ (1621 <= to_uint16 (radio_in (chan s)) < 1750 -> position = 4)
            /\ (1750 <= to_uint16 (radio_in (chan s)) -> position = 5)).
  { intros [Hlo Hhi].
    unfold read_6pos_switch, get_radio_in. unfold bind at 1. unfold get_chan at 1.
    set (pw := to_uint16 (radio_in (chan s))) in *.
    assert ((pw <=? RC_MIN_LIMIT_PWM cfg) = false) as -> by (apply Z.leb_gt; lia).
    assert ((pw >=? RC_MAX_LIMIT_PWM cfg) = false) as ->
      by (rewrite Z.geb_leb; apply Z.leb_gt; lia).
    cbn [orb].
    match goal with
    | |- context [debounce_completed tnow_ms ?p] => exists p
    end.
    split.
    - unfold bind. destruct (debounce_completed tnow_ms _ s) as [[|] s']; reflexivity.
    - repeat split; intros Hband;
        repeat match goal with
               | |- context [?a <? ?b] =>
                   let E := fresh "E" in
                   destruct (a <? b) eqn:E;
                   [apply Z.ltb_lt in E | apply Z.ltb_ge in E]
               end; try reflexivity; lia. }
  repeat split.
  - intros Hout. unfold read_6pos_switch, get_radio_in. unfold_monad.
    assert (((to_uint16 (radio_in (chan s)) <=? RC_MIN_LIMIT_PWM cfg)
             || (to_uint16 (radio_in (chan s)) >=? RC_MAX_LIMIT_PWM cfg)) = true) as ->.
    { apply orb_true_iff. rewrite Z.geb_leb. destruct Hout as [Hout | Hout];
        [left | right]; apply Z.leb_le; exact Hout. }
    reflexivity.
  - exact Hin.
  - intros Hlo Hhi pwm position Hmem Hpwm.
    assert (Hpw : to_uint16 (radio_in (chan s)) = pwm).
    { rewrite Hpwm. cbn in Hmem.
      repeat (destruct Hmem as [Hmem | Hmem];
              [inversion Hmem; subst; reflexivity|]). contradiction. }
    destruct Hin as [q [Hq Hbands]].
    { rewrite Hpw. cbn in Hmem.
      repeat (destruct Hmem as [Hmem | Hmem]; [inversion Hmem; subst; lia|]).
      contradiction. }
    rewrite Hq. cbn [fst snd]. f_equal.
    rewrite Hpw in Hbands. cbn in Hmem.
    destruct Hbands as (B0 & B1 & B2 & B3 & B4 & B5).
    repeat (destruct Hmem as [Hmem | Hmem];
            [inversion Hmem; subst;
             first [apply B0; lia | apply B1; lia | apply B2; lia
                   | apply B3; lia | apply B4; lia | apply B5; lia]|]).
    contradiction.
Qed.

Lemma read_6pos_switch_bands_witness :
  snd (fst (read_6pos_switch example_config 0 (example_state AUX_FUNC.VTX_POWER 1480)))
  = Some 2.
Proof.
  apply (proj2 (proj2 (read_6pos_switch_bands example_config 0
                         (example_state AUX_FUNC.VTX_POWER 1480)))
           ltac:(cbn; lia) ltac:(cbn; lia) 1480 2).
  - cbn. right. right. left. reflexivity.
  - reflexivity.
Defined.

(** ** Duplicate options *)

Lemma option_id_nonneg (c : RC_Channel) : 0 <= option_id c.
Proof.
  unfold option_id, to_uint16. apply Z.mod_pos_bound. reflexivity.
Qed.

Lemma already_used_cons (size used : Z) (c : RC_Channel) (rest : list RC_Channel) :
  already_used size used (c :: rest)
  <-> (checked_id size c /\ Z.testbit used (option_id c) = true)
      \/ already_used size used rest.
Proof.
  unfold already_used. split.
  - intros [[|i] [ci (Hn & Hc & Hb)]]; cbn in Hn.
    + inversion Hn; subst. left. split; assumption.
    + right. exists i, ci. refine (conj _ (conj _ _)); assumption.
  - intros [[Hc Hb] | [i [ci (Hn & Hc & Hb)]]].
    + exists 0%nat, c. refine (conj eq_refl (conj _ _)); assumption.
    + exists (S i), ci. refine (conj _ (conj _ _)); assumption.
Qed.

Lemma duplicated_option_cons (size : Z) (c : RC_Channel) (rest : list RC_Channel) :
  duplicated_option size (c :: rest)
  <-> (checked_id size c
       /\ exists (j : nat) (cj : RC_Channel),
           nth_error rest j = Some cj /\ option_id cj = option_id c)
      \/ duplicated_option size rest.
Proof.
  unfold duplicated_option. split.
  - intros [i [j [ci [cj (Hij & Hi & Hj & Heq & Hc)]]]].
    destruct j as [|j]; [lia|]. cbn in Hj.
    destruct i as [|i]; cbn in Hi.
    + inversion Hi; subst. left. split; [assumption|].
      exists j, cj. split; [assumption | symmetry; assumption].
    + right. exists i, j, ci, cj. refine (conj _ (conj _ (conj _ (conj _ _)))); try assumption; lia.
  - intros [[Hc [j [cj [Hj Heq]]]] | [i [j [ci [cj (Hij & Hi & Hj & Heq & Hc)]]]]].
    + exists 0%nat, (S j), c, cj.
      refine (conj _ (conj eq_refl (conj _ (conj _ _)))); try assumption; lia.
    + exists (S i), (S j), ci, cj.
      refine (conj _ (conj _ (conj _ (conj _ _)))); try assumption; lia.
Qed.

Lemma duplicate_options_scan_spec (size : Z) (channels : list RC_Channel) :
  forall used : Z,
    duplicate_options_scan size used channels = true
    <-> already_used size used channels \/ duplicated_option size channels.
Proof.
  induction channels as [|c rest IH]; intros used.
  - cbn. split; [discriminate|].
    intros [[i [ci (Hn & _)]] | [i [j [ci [cj (_ & Hn & _)]]]]];
      destruct i; discriminate.
  - cbn [duplicate_options_scan]. fold (option_id c).
    rewrite already_used_cons, duplicated_option_cons.
    pose proof (option_id_nonneg c) as Hnn.
    destruct (option_id c =? 0) eqn:Hzero.
    { apply Z.eqb_eq in Hzero. rewrite IH. unfold checked_id.
      split; [tauto|]. intros [[[[Hne _] _] | H] | [[[Hne _] _] | H]]; tauto. }
    apply Z.eqb_neq in Hzero.
    destruct (option_id c >=? size) eqn:Hbig.
    { apply Z.geb_le in Hbig. rewrite IH. unfold checked_id.
      split; [tauto|]. intros [[[[_ Hlt] _] | H] | [[[_ Hlt] _] | H]];
        try tauto; lia. }
    rewrite Z.geb_leb in Hbig. apply Z.leb_gt in Hbig.
    assert (Hc : checked_id size c) by (split; assumption).
    destruct (Z.testbit used (option_id c)) eqn:Hbit.
    { split; [|reflexivity]. intros _. left. left. split; [assumption | reflexivity]. }
    rewrite IH. split.
    + intros [[i [ci (Hn & Hci & Hb)]] | Hdup].
      * rewrite Z.setbit_eqb in Hb by apply option_id_nonneg.
        apply orb_true_iff in Hb. destruct Hb as [Hb | Hb].
        -- apply Z.eqb_eq in Hb. right. left. split; [assumption|].
           exists i, ci. split; [assumption | symmetry; assumption].
        -- left. right. exists i, ci. refine (conj _ (conj _ _)); assumption.
      * right. right. assumption.
    + intros [[[_ Hb] | [i [ci (Hn & Hci & Hb)]]] | [[_ [j [cj [Hj Heq]]]] | Hdup]].
      * congruence.
      * left. exists i, ci. refine (conj _ (conj _ _)); try assumption.
        rewrite Z.setbit_eqb by apply option_id_nonneg. rewrite Hb. apply orb_true_r.
      * left. exists j, cj. refine (conj _ (conj _ _)).
        -- assumption.
        -- destruct Hc as [Hne Hlt]. unfold checked_id. rewrite Heq. split; assumption.
        -- rewrite Z.setbit_eqb by apply option_id_nonneg. rewrite Heq, Z.eqb_refl.
           reflexivity.
      * right. assumption.
Qed.

Lemma to_uint16_inj_int16 (a b : Z) :
  is_int16 a -> is_int16 b -> (to_uint16 a = to_uint16 b <-> a = b).
Proof.
  unfold is_int16, to_uint16. intros Ha Hb. split; [|congruence].
  intros Heq.
  change (2 ^ 15) with 32768 in *. change (2 ^ 16) with 65536 in *.
  pose proof (Z.div_mod a 65536 ltac:(lia)) as Da.
  pose proof (Z.div_mod b 65536 ltac:(lia)) as Db.
  pose proof (Z.mod_pos_bound a 65536 ltac:(lia)) as Ba.
  pose proof (Z.mod_pos_bound b 65536 ltac:(lia)) as Bb.
  lia.
Qed.

(** C7: [duplicate_options_exist] is true exactly when two channels carry
    the same id, that id is not DO_NOTHING and it is below the size of the
    bitmask; so it is false when every channel is DO_NOTHING and when the
    only repeated ids are outside the bitmask.  Ids are compared as the
    [uint16_t] the scan reads, which distinguishes the same [int16_t]
    parameter values. *)
Theorem duplicate_options_exist_iff (cfg : Config) (channels : list RC_Channel) :
  (duplicate_options_exist cfg channels = true
   <-> duplicated_option (to_uint16 (AUX_FUNCTION_MAX cfg)) channels)
  /\ (Forall (fun c => option_ c = AUX_FUNC.DO_NOTHING) channels ->
      duplicate_options_exist cfg channels = false)
  /\ (Forall (fun c => option_id c = AUX_FUNC.DO_NOTHING
                       \/ to_uint16 (AUX_FUNCTION_MAX cfg) <= option_id c) channels ->
      duplicate_options_exist cfg channels = false)
  /\ (forall a b : RC_Channel,
         is_int16 (option_ a) -> is_int16 (option_ b) ->
         (option_id a = option_id b <-> option_ a = option_ b)).
Proof.
  assert (Hiff : duplicate_options_exist cfg channels = true
                 <-> duplicated_option (to_uint16 (AUX_FUNCTION_MAX cfg)) channels).
  { unfold duplicate_options_exist. rewrite duplicate_options_scan_spec.
    split; [|intros H; right; exact H].
    intros [[i [ci (_ & _ & Hb)]] | H]; [|exact H].
    rewrite Z.bits_0 in Hb. discriminate. }
  assert (Hunchecked :
            Forall (fun c => option_id c = AUX_FUNC.DO_NOTHING
                             \/ to_uint16 (AUX_FUNCTION_MAX cfg) <= option_id c) channels ->
            duplicate_options_exist cfg channels = false).
  { intros Hall. apply not_true_is_false. rewrite Hiff.
    intros [i [j [ci [cj (_ & Hi & _ & _ & [Hne Hlt])]]]].
    apply nth_error_In in Hi. rewrite Forall_forall in Hall.
    destruct (Hall ci Hi) as [Hz | Hge]; [contradiction | lia]. }
  repeat split.
  - apply Hiff.
  - apply Hiff.
  - intros Hall. apply Hunchecked.
    apply Forall_impl with (2 := Hall). intros c Hc. left.
    unfold option_id. rewrite Hc. reflexivity.
  - exact Hunchecked.
  - apply to_uint16_inj_int16; assumption.
  - intros Heq. unfold option_id. rewrite Heq. reflexivity.
Qed.

Lemma duplicate_options_exist_iff_witness :
  duplicate_options_exist example_config
    [example_channel AUX_FUNC.DO_NOTHING 1500;
     example_channel AUX_FUNC.DO_NOTHING 1500;
     example_channel 400 1500;
     example_channel 400 1500]
  = false.
Proof.
  apply (proj1 (proj2 (proj2 (duplicate_options_exist_iff example_config
    [example_channel AUX_FUNC.DO_NOTHING 1500;
     example_channel AUX_FUNC.DO_NOTHING 1500;
     example_channel 400 1500;
     example_channel 400 1500])))).
  repeat constructor; vm_compute; intuition discriminate.
Defined.

(** ** Dispatch of unknown ids *)

Lemma do_aux_function_default (cfg : Config) (env : Env) (trigger : AuxFuncTrigger) :
  has_dispatch_case cfg (func trigger) = false ->
  do_aux_function cfg env trigger = invalid_channel_option (func trigger).
Proof.
  destruct trigger as [f p src idx]. cbn [func pos].
  unfold do_aux_function, has_dispatch_case. cbn [func pos].
  destruct f as [|q|q]; [reflexivity | | reflexivity].
  repeat (destruct q as [q|q|];
          try (intros H; first [reflexivity | rewrite H; reflexivity | discriminate H])).
Qed.

Lemma do_aux_function_inert (cfg : Config) (env : Env) (trigger : AuxFuncTrigger) :
  In (func trigger) inert_ids ->
  has_dispatch_case cfg (func trigger) = true ->
  do_aux_function cfg env trigger = ret true.
Proof.
  destruct trigger as [f p src idx]. cbn [func pos].
  unfold inert_ids. intros Hin.
  repeat (destruct Hin as [Hin | Hin];
          [subst f; cbn; intros ->; reflexivity|]).
  contradiction.
Qed.

Lemma list_neq_snoc {A : Type} (l : list A) (a : A) : l <> l ++ [a].
Proof.
  intros H. apply (f_equal (@length A)) in H. rewrite length_app in H.
  cbn in H. lia.
Qed.

Ltac not_default_path :=
  let Heq := fresh "Heq" in
  intros Heq; inversion Heq;
  first [ discriminate
        | match goal with
          | H : ?l = ?l ++ [_] |- _ => exact (list_neq_snoc _ _ H)
          | H : ?l ++ _ = ?l ++ _ |- _ => apply app_inv_head in H; discriminate H
          end ].

(** An id with a compiled case label does not take the default branch:
    its case returns true, or returns what the camera answers after calling
    it, or returns false without sending anything. *)
Lemma do_aux_function_case (cfg : Config) (env : Env) (trigger : AuxFuncTrigger)
    (s : State) :
  has_dispatch_case cfg (func trigger) = true ->
  do_aux_function cfg env trigger s <> invalid_channel_option (func trigger) s.
Proof.
  destruct trigger as [f p src idx]. destruct s as [c [ovr new lost evs]].
  cbn [func pos].
  unfold do_aux_function, has_dispatch_case. cbn [func pos].
  destruct f as [|q|q]; [discriminate | | discriminate].
  repeat (destruct q as [q|q|]; try discriminate);
    intros Hflag; try rewrite Hflag;
    unfold invalid_channel_option,
      do_aux_function_fence, do_aux_function_gripper,
      do_aux_function_rc_override_enable, do_aux_function_avoid_proximity,
      do_aux_function_relay, do_aux_function_runcam_control,
      do_aux_function_runcam_osd_control, do_aux_function_clear_wp,
      do_aux_function_mission_reset, do_aux_function_avoid_adsb,
      do_aux_function_fft_notch_tune, do_aux_function_generator,
      do_aux_function_sprayer, do_aux_function_lost_vehicle_sound,
      do_aux_function_armdisarm, do_aux_function_camera_trigger,
      do_aux_function_record_video, do_aux_function_camera_zoom,
      do_aux_function_camera_manual_focus, do_aux_function_camera_auto_focus,
      do_aux_function_camera_image_tracking, do_aux_function_camera_lens,
      do_aux_function_retract_mount, set_gcs_overrides_enabled, set_vehicle_lost;
    unfold_monad;
    destruct p; cbn;
    repeat match goal with
           | |- context [if ?b then _ else _] => destruct b; cbn
           end;
    not_default_path.
Qed.

(** C8: an id for which [do_aux_function] has no case label takes the
    default branch: it reports "Invalid channel option" to the GCS, returns
    false and leaves every field of the channel as it was, and so does
    [run_aux_function] around it; an id with a case label never takes that
    branch.  The ids whose case is empty (mount and scripting inputs,
    Loweheiser controls) return true and change nothing. *)
Theorem do_aux_function_unknown_id
    (cfg : Config) (env : Env) (trigger : AuxFuncTrigger) (s : State) :
  (has_dispatch_case cfg (func trigger) = false ->
   do_aux_function cfg env trigger s = invalid_channel_option (func trigger) s
   /\ fst (do_aux_function cfg env trigger s) = false
   /\ chan (snd (do_aux_function cfg env trigger s)) = chan s
   /\ fst (run_aux_function cfg (do_aux_function cfg env) (func trigger)
             (pos trigger) (source trigger) (source_index trigger) s) = false
   /\ chan (snd (run_aux_function cfg (do_aux_function cfg env) (func trigger)
                   (pos trigger) (source trigger) (source_index trigger) s))
      = chan s)
  /\ (has_dispatch_case cfg (func trigger) = true ->
      do_aux_function cfg env trigger s <> invalid_channel_option (func trigger) s)
  /\ (In (func trigger) inert_ids ->
      has_dispatch_case cfg (func trigger) = true ->
      do_aux_function cfg env trigger s = (true, s)).
Proof.
  split; [|split; [apply do_aux_function_case|]].
  - intros Hnone.
    pose proof (do_aux_function_default cfg env trigger Hnone) as Hdef.
    assert (Hrun :
              fst (run_aux_function cfg (do_aux_function cfg env) (func trigger)
                     (pos trigger) (source trigger) (source_index trigger) s) = false
              /\ chan (snd (run_aux_function cfg (do_aux_function cfg env)
                              (func trigger) (pos trigger) (source trigger)
                              (source_index trigger) s))
                 = chan s).
    { unfold run_aux_function.
      destruct trigger as [f p src idx]. cbn [func pos source source_index] in *.
      rewrite Hdef. unfold invalid_channel_option. unfold_monad.
      destruct (AP_SCRIPTING_ENABLED cfg), (HAL_LOGGING_ENABLED cfg); cbn;
        split; reflexivity. }
    rewrite Hdef. repeat split; apply Hrun.
  - intros Hin Hcase. rewrite (do_aux_function_inert cfg env trigger Hin Hcase).
    reflexivity.
Qed.

Lemma do_aux_function_unknown_id_witness :
  do_aux_function example_config (example_env None)
    {| func := 9999; pos := HIGH; source := RC; source_index := 6 |}
    (example_state 9999 1900)
  = invalid_channel_option 9999 (example_state 9999 1900)
  /\ do_aux_function example_config (example_env None)
       {| func := AUX_FUNC.SCRIPTING_3; pos := HIGH; source := RC; source_index := 6 |}
       (example_state AUX_FUNC.SCRIPTING_3 1900)
     = (true, example_state AUX_FUNC.SCRIPTING_3 1900).
Proof.
  split.
  - apply (proj1 (do_aux_function_unknown_id example_config (example_env None)
                    {| func := 9999; pos := HIGH; source := RC; source_index := 6 |}
                    (example_state 9999 1900))).
    reflexivity.
  - apply (proj2 (proj2 (do_aux_function_unknown_id example_config (example_env None)
                           {| func := AUX_FUNC.SCRIPTING_3; pos := HIGH; source := RC;
                              source_index := 6 |}
                           (example_state AUX_FUNC.SCRIPTING_3 1900)))).
    + cbn. do 8 right. left. reflexivity.
    + reflexivity.
Defined.

(** ** The auxiliary switch *)

Lemma set_switch_state_same (c : RC_Channel) :
  set_switch_state c (switch_state c) = c.
Proof. destruct c; reflexivity. Qed.

Lemma with_switch_state_same (s : State) :
  with_switch_state s (switch_of s) = s.
Proof.
  unfold with_switch_state, switch_of. rewrite set_switch_state_same.
  destruct s; reflexivity.
Qed.

(** [read_aux] on the 3-position path, as one equation. *)
Lemma read_aux_3pos (cfg : Config) (env : Env) (dispatch : AuxFuncTrigger -> M bool)
    (tnow_ms : Z) (s : State) (p : AuxSwitchPos) :
  option_id (chan s) <> AUX_FUNC.DO_NOTHING ->
  is_6pos_special_case cfg (option_id (chan s)) = false ->
  read_3pos_switch cfg env (chan s) = Some p ->
  read_aux cfg env dispatch tnow_ms s =
    let ss := switch_of s in
    let s0 :=
      if initialised ss then s
      else if init_position_on_first_radio_read cfg (option_id (chan s))
           then with_switch_state s
                  (switch_state_of (position_of p) (position_of p)
                     (last_edge_time_ms ss) true)
           else with_switch_state s (with_initialised ss true) in
    if fst (debounce_completed tnow_ms (position_of p) s0)
    then announce_and_run cfg env dispatch (chan s) p
           (snd (debounce_completed tnow_ms (position_of p) s0))
    else (false, snd (debounce_completed tnow_ms (position_of p) s0)).
Proof.
  intros Hopt Hvtx Hpos. unfold is_6pos_special_case in Hvtx.
  unfold option_id in *.
  unfold read_aux. unfold bind at 1. unfold get_chan at 1.
  apply Z.eqb_neq in Hopt. cbv zeta. rewrite Hopt, Hvtx, Hpos.
  fold (position_of p). unfold switch_of.
  unfold bind at 1.
  destruct (initialised (switch_state (chan s))) eqn:Hinit; cbn [negb].
  - unfold ret at 1. unfold bind at 1.
    destruct (debounce_completed tnow_ms (position_of p) s) as [[|] s1];
      cbn [fst snd negb]; reflexivity.
  - destruct (init_position_on_first_radio_read cfg (to_uint16 (option_ (chan s))));
      unfold put_chan at 1; unfold bind at 1;
      unfold with_switch_state, switch_state_of, with_initialised;
      match goal with
      | |- context [debounce_completed tnow_ms (position_of p) ?st] =>
          destruct (debounce_completed tnow_ms (position_of p) st) as [[|] s1]
      end; cbn [fst snd negb]; reflexivity.
Qed.



Lemma position_of_inj (p q : AuxSwitchPos) : position_of p = position_of q -> p = q.
Proof. destruct p, q; vm_compute; congruence. Qed.

(** One call of [read_aux] on a channel whose switch state is
    [(deb, cur, edge, true)], for an id on the 3-position path. *)
Lemma read_aux_initialised (cfg : Config) (env : Env)
    (dispatch : AuxFuncTrigger -> M bool) (tnow_ms : Z) (s : State) (q : AuxSwitchPos) :
  option_id (chan s) <> AUX_FUNC.DO_NOTHING ->
  is_6pos_special_case cfg (option_id (chan s)) = false ->
  read_3pos_switch cfg env (chan s) = Some q ->
  initialised (switch_of s) = true ->
  read_aux cfg env dispatch tnow_ms s =
    if fst (debounce_completed tnow_ms (position_of q) s)
    then announce_and_run cfg env dispatch (chan s) q
           (snd (debounce_completed tnow_ms (position_of q) s))
    else (false, snd (debounce_completed tnow_ms (position_of q) s)).
Proof.
  intros Hopt Hvtx Hpos Hinit.
  rewrite (read_aux_3pos cfg env dispatch tnow_ms s q Hopt Hvtx Hpos).
  cbv zeta. rewrite Hinit. reflexivity.
Qed.

(** A position read for the first time while another one is latched is
    recorded as the candidate; read again, it is confirmed once 200 ms have
    passed since. *)
Lemma read_aux_pending (cfg : Config) (env : Env)
    (dispatch : AuxFuncTrigger -> M bool) (tnow_ms : Z) (s : State) (q : AuxSwitchPos)
    (deb cur edge : Z) :
  option_id (chan s) <> AUX_FUNC.DO_NOTHING ->
  is_6pos_special_case cfg (option_id (chan s)) = false ->
  read_3pos_switch cfg env (chan s) = Some q ->
  switch_of s = switch_state_of deb cur edge true ->
  cur <> position_of q -> deb <> position_of q ->
  read_aux cfg env dispatch tnow_ms s
  = (false, with_switch_state s (switch_state_of (position_of q) cur tnow_ms true)).
Proof.
  intros Hopt Hvtx Hpos Hss Hcur Hdeb.
  rewrite (read_aux_initialised cfg env dispatch tnow_ms s q Hopt Hvtx Hpos)
    by (rewrite Hss; reflexivity).
  rewrite debounce_completed_cases. cbv zeta. rewrite Hss. cbn.
  apply Z.eqb_neq in Hcur, Hdeb. rewrite Hcur, Hdeb. reflexivity.
Qed.

Lemma read_aux_confirm (cfg : Config) (env : Env)
    (dispatch : AuxFuncTrigger -> M bool) (tnow_ms : Z) (s : State) (q : AuxSwitchPos)
    (cur edge : Z) :
  option_id (chan s) <> AUX_FUNC.DO_NOTHING ->
  is_6pos_special_case cfg (option_id (chan s)) = false ->
  read_3pos_switch cfg env (chan s) = Some q ->
  switch_of s = switch_state_of (position_of q) cur edge true ->
  cur <> position_of q ->
  (200 <= sub_uint32 tnow_ms edge ->
   read_aux cfg env dispatch tnow_ms s
   = announce_and_run cfg env dispatch (chan s) q
       (with_switch_state s
          (switch_state_of (position_of q) (position_of q) edge true)))
  /\ (sub_uint32 tnow_ms edge < 200 ->
      read_aux cfg env dispatch tnow_ms s = (false, s)).
Proof.
  intros Hopt Hvtx Hpos Hss Hcur.
  rewrite (read_aux_initialised cfg env dispatch tnow_ms s q Hopt Hvtx Hpos)
    by (rewrite Hss; reflexivity).
  rewrite debounce_completed_cases. cbv zeta. rewrite Hss. cbn.
  apply Z.eqb_neq in Hcur. rewrite Hcur, Z.eqb_refl. cbn [negb].
  unfold SWITCH_DEBOUNCE_TIME_MS. split; intros Ht.
  - apply Z.geb_le in Ht. rewrite Ht. reflexivity.
  - assert ((sub_uint32 tnow_ms edge >=? 200) = false) as ->
      by (rewrite Z.geb_leb; apply Z.leb_gt; lia).
    reflexivity.
Qed.

(** *** What a confirmed switch change executes *)

Lemma to_uint16_idem (x : Z) : to_uint16 (to_uint16 x) = to_uint16 x.
Proof. unfold to_uint16. apply Z.mod_mod. discriminate. Qed.

(** The announcement, the cached position, the handler applied to the
    trigger of the channel, the log record carrying its result; true is
    returned whatever the handler answers. *)
Lemma announce_and_run_calls (cfg : Config) (env : Env)
    (dispatch : AuxFuncTrigger -> M bool) (c : RC_Channel) (p : AuxSwitchPos)
    (s : State) :
  announce_and_run cfg env dispatch c p s
  = (true,
     after_calls
       (snd (dispatch (rc_trigger c p)
               (after_calls s (calls_before_handler cfg env c p))))
       (calls_after_handler cfg c p
          (fst (dispatch (rc_trigger c p)
                  (after_calls s (calls_before_handler cfg env c p)))))).
Proof.
  unfold announce_and_run, run_aux_function, calls_before_handler,
    calls_after_handler, rc_trigger, option_id, when.
  rewrite to_uint16_idem.
  destruct s as [c0 [g n l evs]].
  unfold bind, ret, emit, after_calls.
  destruct (AP_RC_CHANNEL_AUX_FUNCTION_STRINGS_ENABLED cfg);
    [destruct (string_for_aux_function env (to_uint16 (option_ c)))|];
    destruct (AP_SCRIPTING_ENABLED cfg);
    cbn [chan world events gcs_overrides_enabled has_new_overrides vehicle_lost app];
    rewrite <- ?app_assoc; cbn [app]; rewrite ?app_nil_r;
    match goal with
    | |- context [dispatch ?t ?st] =>
        destruct (dispatch t st) as [r [c1 [g1 n1 l1 evs1]]]
    end;
    cbn [fst snd chan world events gcs_overrides_enabled has_new_overrides vehicle_lost];
    destruct (HAL_LOGGING_ENABLED cfg);
    cbn [chan world events gcs_overrides_enabled has_new_overrides vehicle_lost];
    rewrite ?app_nil_r; reflexivity.
Qed.



(** C2, as stated, fails: a channel just constructed with the FENCE option
    and its switch held HIGH gets a valid classification on the first call
    of [read_aux], which returns false, records HIGH as the debounce
    candidate and calls nothing. *)
Lemma first_read_runs_function_counterexample :
  let cfg := example_config in
  let env := example_env None in
  let s := example_state AUX_FUNC.FENCE 1900 in
  option_id (chan s) <> AUX_FUNC.DO_NOTHING
  /\ is_6pos_special_case cfg (option_id (chan s)) = false
  /\ init_position_on_first_radio_read cfg (option_id (chan s)) = false
  /\ initialised (switch_of s) = false
  /\ read_3pos_switch cfg env (chan s) = Some HIGH
  /\ read_aux cfg env (do_aux_function cfg env) 5000 s
     = (false, with_switch_state s (switch_state_of 2 (-1) 5000 true))
  /\ events (world (snd (read_aux cfg env (do_aux_function cfg env) 5000 s))) = [].
Proof.
  cbv zeta. repeat split; try reflexivity. discriminate.
Qed.

(** C2, amended: for an id that is not DO_NOTHING, not on the 6-position
    path and not deferred, the first call of [read_aux] that classifies the
    switch, on a channel whose latched and debounce positions are not that
    position (both are -1 on a new channel), records the position as the
    debounce candidate and returns false without invoking the handler.
    A later call that reads the same position less than 200 ms after the
    first changes nothing and returns false; one that reads it 200 ms or
    more after the first latches the position, makes the announcement and
    caches the position, invokes the handler once on the trigger of the
    channel at that position, writes the log record with the handler's
    result and returns true. *)
Theorem first_read_is_debounced
    (cfg : Config) (env : Env) (dispatch : AuxFuncTrigger -> M bool)
    (t0 : Z) (s : State) (p : AuxSwitchPos) :
  option_id (chan s) <> AUX_FUNC.DO_NOTHING ->
  is_6pos_special_case cfg (option_id (chan s)) = false ->
  init_position_on_first_radio_read cfg (option_id (chan s)) = false ->
  initialised (switch_of s) = false ->
  current_position (switch_of s) <> position_of p ->
  debounce_position (switch_of s) <> position_of p ->
  read_3pos_switch cfg env (chan s) = Some p ->
  let pending :=
    switch_state_of (position_of p) (current_position (switch_of s)) t0 true in
  read_aux cfg env dispatch t0 s = (false, with_switch_state s pending)
  /\ (forall (t : Z) (s2 : State),
         option_id (chan s2) = option_id (chan s) ->
         read_3pos_switch cfg env (chan s2) = Some p ->
         switch_of s2 = pending ->
         (sub_uint32 t t0 < 200 -> read_aux cfg env dispatch t s2 = (false, s2))
         /\ (200 <= sub_uint32 t t0 ->
             let confirmed :=
               with_switch_state s2
                 (switch_state_of (position_of p) (position_of p) t0 true) in
             let before :=
               after_calls confirmed (calls_before_handler cfg env (chan s2) p) in
             let handled := dispatch (rc_trigger (chan s2) p) before in
             read_aux cfg env dispatch t s2
             = (true, after_calls (snd handled)
                        (calls_after_handler cfg (chan s2) p (fst handled))))).
Proof.
  intros Hopt Hvtx Hnodefer Hinit Hcur Hdeb Hpos pending. split.
  - rewrite (read_aux_3pos cfg env dispatch t0 s p Hopt Hvtx Hpos).
    cbv zeta. rewrite Hinit, Hnodefer.
    rewrite debounce_completed_cases. cbv zeta.
    apply Z.eqb_neq in Hcur, Hdeb.
    unfold switch_of, with_switch_state, with_initialised in *.
    cbn [chan switch_state set_switch_state current_position debounce_position
         last_edge_time_ms initialised].
    rewrite Hcur, Hdeb. cbn. reflexivity.
  - intros t s2 Hopt2 Hpos2 Hss2.
    pose proof (read_aux_confirm cfg env dispatch t s2 p
                  (current_position (switch_of s)) t0) as [Hfire Hwait];
      try assumption; try (rewrite Hopt2; assumption).
    split; [assumption|].
    intros Hlate. cbv zeta. rewrite <- announce_and_run_calls. exact (Hfire Hlate).
Qed.

Lemma first_read_is_debounced_witness :
  let cfg := example_config in
  let env := example_env None in
  let pending :=
    with_switch_state (example_state AUX_FUNC.FENCE 1900)
      (switch_state_of 2 (-1) 5000 true) in
  read_aux cfg env (do_aux_function cfg env) 5000 (example_state AUX_FUNC.FENCE 1900)
  = (false, pending)
  /\ read_aux cfg env (do_aux_function cfg env) 5200 pending
     = (true,
        after_calls (with_switch_state pending (switch_state_of 2 2 5000 true))
          [RC_set_aux_cached AUX_FUNC.FENCE HIGH; Fence_enable_configured true;
           Logger_Write_AUXF AUX_FUNC.FENCE 2 1 6 1]).
Proof.
  cbv zeta.
  destruct (first_read_is_debounced example_config (example_env None)
              (do_aux_function example_config (example_env None)) 5000
              (example_state AUX_FUNC.FENCE 1900) HIGH
              ltac:(vm_compute; discriminate) eq_refl eq_refl eq_refl
              ltac:(discriminate) ltac:(discriminate) eq_refl)
    as (Hfirst & Hlater).
  split; [exact Hfirst|].
  destruct (Hlater 5200
              (with_switch_state (example_state AUX_FUNC.FENCE 1900)
                 (switch_state_of 2 (-1) 5000 true))
              eq_refl eq_refl eq_refl) as (_ & Hfire).
  cbv zeta in Hfire. rewrite Hfire; [reflexivity|]. vm_compute. discriminate.
Defined.

(** ** Single-precision rounding *)

Section Rounding.

Import F32.
Local Open Scope Q_scope.

Lemma round_half_even_bounds (q : Q) :
  (Qfloor q <= round_half_even q <= Qfloor q + 1)%Z.
Proof.
  unfold round_half_even.
  destruct (q - inject_Z (Qfloor q) ?= 1 # 2); [destruct (Z.even _)| |]; lia.
Qed.

Lemma round_half_even_Z (z : Z) : round_half_even (inject_Z z) = z.
Proof.
  unfold round_half_even. rewrite Qfloor_Z.
  destruct (Qcompare_spec (inject_Z z - inject_Z z) (1 # 2)) as [H | H | H];
    [exfalso; lra | reflexivity | exfalso; lra].
Qed.

Lemma round_half_even_le (q1 q2 : Q) :
  q1 <= q2 -> (round_half_even q1 <= round_half_even q2)%Z.
Proof.
  intros Hle.
  pose proof (Qfloor_resp_le q1 q2 Hle) as Hfl.
  destruct (Z.eq_dec (Qfloor q1) (Qfloor q2)) as [Heq | Hne].
  - unfold round_half_even. rewrite <- Heq.
    destruct (Qcompare_spec (q1 - inject_Z (Qfloor q1)) (1 # 2)) as [H1 | H1 | H1];
      destruct (Qcompare_spec (q2 - inject_Z (Qfloor q1)) (1 # 2)) as [H2 | H2 | H2];
      try destruct (Z.even (Qfloor q1)); try lia; exfalso; lra.
  - pose proof (round_half_even_bounds q1). pose proof (round_half_even_bounds q2).
    lia.
Qed.

Lemma pow2_pos (k : Z) : (0 < 2 ^ k)%Z -> 0 < inject_Z (2 ^ k).
Proof. intros H. rewrite <- (Zlt_Qlt 0). assumption. Qed.

(** Below [2^(k+24)] units the rounded value has at most 24 bits above
    bit [k]; from [2^(k+23)] units on it has at least 24. *)
Lemma round_scaled_upper (X : Q) (k : Z) :
  (0 <= k)%Z -> X <= inject_Z (2 ^ (k + 24)) ->
  (round_half_even (X / inject_Z (2 ^ k)) * 2 ^ k <= 2 ^ (k + 24))%Z.
Proof.
  intros Hk HX.
  assert (Hp : (0 < 2 ^ k)%Z) by (apply Z.pow_pos_nonneg; lia).
  rewrite Z.pow_add_r by lia. rewrite (Z.mul_comm (2 ^ k)).
  apply Z.mul_le_mono_nonneg_r; [lia|].
  rewrite <- (round_half_even_Z (2 ^ 24)).
  apply round_half_even_le.
  apply Qle_shift_div_r; [apply pow2_pos; exact Hp|].
  rewrite <- inject_Z_mult. rewrite Z.mul_comm, <- Z.pow_add_r by lia. exact HX.
Qed.

Lemma round_scaled_lower (X : Q) (k : Z) :
  (0 <= k)%Z -> inject_Z (2 ^ (k + 23)) <= X ->
  (2 ^ (k + 23) <= round_half_even (X / inject_Z (2 ^ k)) * 2 ^ k)%Z.
Proof.
  intros Hk HX.
  assert (Hp : (0 < 2 ^ k)%Z) by (apply Z.pow_pos_nonneg; lia).
  rewrite Z.pow_add_r by lia. rewrite (Z.mul_comm (2 ^ k)).
  apply Z.mul_le_mono_nonneg_r; [lia|].
  rewrite <- (round_half_even_Z (2 ^ 23)) at 1.
  apply round_half_even_le.
  apply Qle_shift_div_l; [apply pow2_pos; exact Hp|].
  rewrite <- inject_Z_mult. rewrite Z.mul_comm, <- Z.pow_add_r by lia. exact HX.
Qed.

Lemma round_units_le (X1 X2 : Q) :
  0 <= X1 -> X1 <= X2 -> (round_units X1 <= round_units X2)%Z.
Proof.
  intros H0 Hle. unfold round_units.
  set (f1 := Qfloor X1). set (f2 := Qfloor X2).
  assert (Hf1 : (0 <= f1)%Z).
  { subst f1. rewrite <- (Qfloor_Z 0). apply Qfloor_resp_le. exact H0. }
  assert (Hf : (f1 <= f2)%Z) by (apply Qfloor_resp_le; exact Hle).
  pose proof (Z.log2_le_mono f1 f2 Hf) as Hlog.
  set (k1 := Z.max (Z.log2 f1 - 23) 0). set (k2 := Z.max (Z.log2 f2 - 23) 0).
  assert (Hk1 : (0 <= k1)%Z) by (subst k1; lia).
  assert (Hk : (k1 <= k2)%Z) by (subst k1 k2; lia).
  destruct (Z.eq_dec k1 k2) as [Heq | Hne].
  - rewrite <- Heq.
    assert (Hp : (0 < 2 ^ k1)%Z) by (apply Z.pow_pos_nonneg; lia).
    apply Z.mul_le_mono_nonneg_r; [lia|].
    apply round_half_even_le.
    apply Qmult_le_compat_r; [exact Hle|].
    apply Qlt_le_weak, Qinv_lt_0_compat, pow2_pos; exact Hp.
  - assert (Hup : X1 <= inject_Z (2 ^ (k1 + 24))).
    { apply Qlt_le_weak. apply Qlt_le_trans with (inject_Z (f1 + 1)).
      - subst f1. apply Qlt_floor.
      - rewrite <- Zle_Qle.
        destruct (Z.eq_dec f1 0) as [Hz | Hnz].
        + rewrite Hz. apply (Z.pow_le_mono_r 2 0); lia.
        + pose proof (Z.log2_spec f1 ltac:(lia)) as [_ Hs].
          apply Z.le_trans with (2 ^ Z.succ (Z.log2 f1))%Z; [lia|].
          apply Z.pow_le_mono_r; subst k1; lia. }
    assert (Hlow : inject_Z (2 ^ (k2 + 23)) <= X2).
    { apply Qle_trans with (inject_Z f2); [|subst f2; apply Qfloor_le].
      rewrite <- Zle_Qle.
      assert (Hk2 : k2 = (Z.log2 f2 - 23)%Z) by (subst k1 k2; lia).
      assert (Hpos2 : (0 < f2)%Z).
      { destruct (Z.lt_ge_cases 0 f2) as [Hlt | Hge]; [exact Hlt|].
        rewrite (Z.log2_nonpos f2 Hge) in Hk2. subst k2 k1. lia. }
      pose proof (Z.log2_spec f2 Hpos2) as [Hs _].
      replace (k2 + 23)%Z with (Z.log2 f2) by lia. exact Hs. }
    apply Z.le_trans with (2 ^ (k1 + 24))%Z;
      [apply round_scaled_upper; assumption|].
    apply Z.le_trans with (2 ^ (k2 + 23))%Z;
      [apply Z.pow_le_mono_r; lia|].
    apply round_scaled_lower; [lia | exact Hlow].
Qed.

Lemma scale_pos : 0 < inject_Z scale.
Proof. reflexivity. Qed.

Lemma round_mag_le (x y : Q) : 0 <= x -> x <= y -> round_mag x <= round_mag y.
Proof.
  intros H0 Hle. unfold round_mag. rewrite !Qred_correct.
  apply Qmult_le_compat_r;
    [|apply Qlt_le_weak, Qinv_lt_0_compat, scale_pos].
  rewrite <- Zle_Qle. apply round_units_le.
  - apply Qmult_le_0_compat; [exact H0 | apply Qlt_le_weak, scale_pos].
  - apply Qmult_le_compat_r; [exact Hle | apply Qlt_le_weak, scale_pos].
Qed.

Lemma round_half_even_comp (x y : Q) :
  x == y -> round_half_even x = round_half_even y.
Proof.
  intros H. unfold round_half_even.
  rewrite (Qfloor_comp x y H).
  assert (Hc : (x - inject_Z (Qfloor y) ?= 1 # 2) = (y - inject_Z (Qfloor y) ?= 1 # 2)).
  { apply Qcompare_comp; [rewrite H; reflexivity | reflexivity]. }
  rewrite Hc. reflexivity.
Qed.

Lemma inject_Z_mult_eq (a b : Z) : inject_Z a * inject_Z b = inject_Z (a * b).
Proof. reflexivity. Qed.

(** An integer below [2^24] is a binary32 value: rounding keeps it. *)
Lemma round_units_int (n : Z) :
  (0 <= n < 2 ^ 24)%Z -> round_units (inject_Z (n * scale)) = (n * scale)%Z.
Proof.
  intros Hn. unfold round_units. rewrite Qfloor_Z.
  destruct (Z.eq_dec n 0) as [-> | Hnz]; [reflexivity|].
  assert (Hpos : (0 < n)%Z) by lia.
  pose proof (Z.log2_nonneg n) as Hl0.
  assert (Hl : (Z.log2 n < 24)%Z) by (apply Z.log2_lt_pow2; lia).
  unfold scale. rewrite Z.log2_mul_pow2 by lia.
  replace (Z.max (149 + Z.log2 n - 23) 0) with (Z.log2 n + 126)%Z by lia.
  assert (Hsplit : (n * 2 ^ 149 = n * 2 ^ (23 - Z.log2 n) * 2 ^ (Z.log2 n + 126))%Z).
  { rewrite <- Z.mul_assoc, <- Z.pow_add_r by lia. do 2 f_equal. lia. }
  assert (Hp : (0 < 2 ^ (Z.log2 n + 126))%Z) by (apply Z.pow_pos_nonneg; lia).
  rewrite (round_half_even_comp _ (inject_Z (n * 2 ^ (23 - Z.log2 n)))).
  - rewrite round_half_even_Z. symmetry. exact Hsplit.
  - rewrite Hsplit at 1. rewrite inject_Z_mult. field.
    intros Hz. pose proof (pow2_pos _ Hp) as Hq. rewrite Hz in Hq.
    apply (Qlt_irrefl 0). exact Hq.
Qed.

Lemma Qred_inject_Z (n : Z) : Qred (inject_Z n) = inject_Z n.
Proof. apply Qred_identity. cbn. apply Z.gcd_1_r. Qed.

Lemma round_mag_int (n : Z) :
  (0 <= n < 2 ^ 24)%Z -> round_mag (inject_Z n) = inject_Z n.
Proof.
  intros Hn. unfold round_mag.
  rewrite inject_Z_mult_eq, (round_units_int n Hn).
  rewrite <- (Qred_inject_Z n) at 1. apply Qred_complete.
  rewrite inject_Z_mult. field.
  intros Hz. pose proof scale_pos as Hq. rewrite Hz in Hq.
  apply (Qlt_irrefl 0). exact Hq.
Qed.

Lemma round_int (n : Z) :
  (- 2 ^ 24 < n < 2 ^ 24)%Z -> round (inject_Z n) = inject_Z n.
Proof.
  intros Hn. unfold round.
  destruct (Qle_bool 0 (inject_Z n)) eqn:Hsign.
  - apply Qle_bool_iff in Hsign. rewrite <- (Zle_Qle 0) in Hsign.
    apply round_mag_int. lia.
  - assert (Hneg : (n < 0)%Z).
    { destruct (Z.lt_ge_cases n 0) as [Hlt | Hge]; [exact Hlt|].
      rewrite (Zle_Qle 0) in Hge. apply Qle_bool_iff in Hge.
      change (inject_Z 0) with 0 in Hge. congruence. }
    change (- inject_Z n) with (inject_Z (- n)).
    rewrite round_mag_int by lia.
    change (- inject_Z (- n)) with (inject_Z (- - n)).
    rewrite Z.opp_involutive. reflexivity.
Qed.

Lemma round_mag_0 : round_mag 0 = 0.
Proof. reflexivity. Qed.

Lemma round_mag_nonneg (x : Q) : 0 <= x -> 0 <= round_mag x.
Proof.
  intros H. rewrite <- round_mag_0 at 1. apply round_mag_le; [apply Qle_refl | exact H].
Qed.

Lemma round_nonneg (x : Q) : 0 <= x -> 0 <= round x.
Proof.
  intros H. unfold round.
  apply Qle_bool_iff in H. rewrite H. apply Qle_bool_iff in H.
  apply round_mag_nonneg. exact H.
Qed.

(** Rounding is monotone on the non-negative rationals. *)
Lemma round_le (x y : Q) : 0 <= x -> x <= y -> round x <= round y.
Proof.
  intros H0 Hle. unfold round.
  assert (Hy : 0 <= y) by (apply Qle_trans with x; assumption).
  apply Qle_bool_iff in H0, Hy. rewrite H0, Hy.
  apply Qle_bool_iff in H0. apply round_mag_le; assumption.
Qed.

Lemma round_mag_two32 : round_mag two32 = two32.
Proof. vm_compute. reflexivity. Qed.

Lemma round_abs_le (x : Q) : Qabs x <= two32 -> Qabs (round x) <= two32.
Proof.
  intros Hx. unfold round.
  destruct (Qle_bool 0 x) eqn:Hsign.
  - apply Qle_bool_iff in Hsign.
    rewrite Qabs_pos in Hx by exact Hsign.
    rewrite Qabs_pos by (apply round_mag_nonneg; exact Hsign).
    rewrite <- round_mag_two32. apply round_mag_le; assumption.
  - assert (Hneg : x <= 0).
    { destruct (Qlt_le_dec 0 x) as [Hlt | Hle]; [|exact Hle].
      apply Qlt_le_weak in Hlt. apply Qle_bool_iff in Hlt. congruence. }
    rewrite Qabs_neg in Hx by exact Hneg.
    assert (H0 : 0 <= - x) by lra.
    rewrite Qabs_opp. rewrite Qabs_pos by (apply round_mag_nonneg; exact H0).
    rewrite <- round_mag_two32. apply round_mag_le; assumption.
Qed.

(** Below [2^32] in absolute value nothing overflows. *)
Lemma of_Q_finite (x : Q) : Qabs x <= two32 -> of_Q x = Finite (round x).
Proof.
  intros Hx. unfold of_Q.
  assert (H : Qabs (round x) <= FLT_MAX).
  { apply Qle_trans with two32; [apply round_abs_le; exact Hx|].
    unfold two32, FLT_MAX. rewrite <- Zle_Qle. vm_compute. discriminate. }
  apply Qle_bool_iff in H. rewrite H. reflexivity.
Qed.

Lemma Qabs_inject_Z_le (n b : Z) :
  (- b <= n <= b)%Z -> Qabs (inject_Z n) <= inject_Z b.
Proof.
  intros Hn. apply Qabs_case; intros _.
  - rewrite <- Zle_Qle. lia.
  - change (- inject_Z n) with (inject_Z (- n)). rewrite <- Zle_Qle. lia.
Qed.

Lemma of_int_exact (n : Z) :
  (- 2 ^ 24 < n < 2 ^ 24)%Z -> of_int n = Finite (inject_Z n).
Proof.
  intros Hn. unfold of_int.
  rewrite of_Q_finite by (apply Qabs_inject_Z_le; cbn; lia).
  rewrite round_int by exact Hn. reflexivity.
Qed.

End Rounding.

(** ** PWM conversions *)

Section Conversions.

Import F32.
Local Open Scope Q_scope.

Lemma inject_Z_nonzero (d : Z) : d <> 0%Z -> ~ inject_Z d == 0.
Proof.
  intros Hd Hz. apply Hd. apply (inject_Z_injective d 0). exact Hz.
Qed.

Lemma mul_finite (x y : Q) :
  Qabs (x * y) <= two32 -> mul (Finite x) (Finite y) = Finite (round (x * y)).
Proof. intros H. cbn. apply of_Q_finite. exact H. Qed.

(** The product of two converted integers. *)
Lemma mul_int_finite (h a : Z) :
  (- 2 ^ 24 < h < 2 ^ 24)%Z -> (- 2 ^ 24 < a < 2 ^ 24)%Z ->
  (- 2 ^ 32 <= h * a <= 2 ^ 32)%Z ->
  mul (of_int h) (of_int a) = Finite (round (inject_Z (h * a))).
Proof.
  intros Hh Ha Hp. rewrite (of_int_exact h Hh), (of_int_exact a Ha).
  rewrite mul_finite; rewrite inject_Z_mult_eq.
  - reflexivity.
  - apply Qabs_inject_Z_le. exact Hp.
Qed.

(** Dividing by a converted nonzero integer stays finite. *)
Lemma div_int_finite (P : Q) (d : Z) :
  Qabs P <= two32 -> d <> 0%Z -> (- 2 ^ 24 < d < 2 ^ 24)%Z ->
  div (Finite P) (of_int d) = Finite (round (P / inject_Z d))
  /\ Qabs (P / inject_Z d) <= two32.
Proof.
  intros HP Hd Hr. rewrite (of_int_exact d Hr). cbn [div].
  assert (Hnz : Qeq_bool (inject_Z d) 0 = false).
  { destruct (Qeq_bool (inject_Z d) 0) eqn:E; [|reflexivity].
    apply Qeq_bool_iff in E. exfalso. exact (inject_Z_nonzero d Hd E). }
  rewrite Hnz.
  assert (Hb : Qabs (P / inject_Z d) <= two32).
  { unfold Qdiv. rewrite Qabs_Qmult, Qabs_Qinv.
    assert (H1 : 1 <= Qabs (inject_Z d)).
    { change 1 with (inject_Z 1).
      apply Qabs_case; intros Hs.
      - change 0 with (inject_Z 0) in Hs. rewrite <- Zle_Qle in Hs.
        rewrite <- Zle_Qle. lia.
      - change 0 with (inject_Z 0) in Hs. rewrite <- Zle_Qle in Hs.
        change (- inject_Z d) with (inject_Z (- d)). rewrite <- Zle_Qle. lia. }
    assert (H0 : 0 <= Qabs P) by apply Qabs_nonneg.
    assert (H32 : 0 < two32) by reflexivity.
    apply Qle_shift_div_r; [lra|]. nra. }
  split; [|exact Hb]. apply of_Q_finite. exact Hb.
Qed.

Lemma to_int16_range (x : Z) : is_int16 (to_int16 x).
Proof.
  unfold is_int16, to_int16.
  pose proof (Z.mod_pos_bound (x + 2 ^ 15) (2 ^ 16) ltac:(reflexivity)).
  change (2 ^ 16)%Z with (2 ^ 15 + 2 ^ 15)%Z in *. lia.
Qed.

Lemma to_int16_id (x : Z) : is_int16 x -> to_int16 x = x.
Proof.
  unfold is_int16, to_int16. intros H.
  rewrite Z.mod_small; [lia|].
  change (2 ^ 16)%Z with (2 ^ 15 + 2 ^ 15)%Z. lia.
Qed.

Lemma constrain_int16_inside (amt low high : Z) :
  (low <= amt <= high)%Z -> constrain_int16 amt low high = amt.
Proof.
  intros H. unfold constrain_int16.
  assert ((amt <? low)%Z = false) as -> by (apply Z.ltb_ge; lia).
  assert ((amt >? high)%Z = false) as -> by (rewrite Z.gtb_ltb; apply Z.ltb_ge; lia).
  reflexivity.
Qed.

(** With the bounds the wrong way round the clamp yields one of them. *)
Lemma constrain_int16_inverted (amt low high : Z) :
  (high <= low)%Z ->
  constrain_int16 amt low high = low \/ constrain_int16 amt low high = high.
Proof.
  intros H. unfold constrain_int16.
  destruct (amt <? low)%Z eqn:E1; [left; reflexivity|].
  apply Z.ltb_ge in E1.
  destruct (amt >? high)%Z eqn:E2; [right; reflexivity|].
  rewrite Z.gtb_ltb in E2. apply Z.ltb_ge in E2. left. lia.
Qed.

Lemma range_branch (h mx tl r : Z) :
  (0 <= h < 2 ^ 16)%Z -> is_int16 mx -> is_int16 tl -> is_int16 r -> (r <= mx)%Z ->
  (if (r >? tl)%Z
   then div (mul (of_int h) (of_int (r - tl))) (of_int (mx - tl))
   else zero)
  = Finite (range_value h (mx - tl) (r - tl)).
Proof.
  unfold is_int16, range_value. intros Hh Hmx Htl Hr Hle.
  change (2 ^ 15)%Z with 32768%Z in *. change (2 ^ 16)%Z with 65536%Z in *.
  destruct (r >? tl)%Z eqn:E; rewrite Z.gtb_ltb in E.
  - apply Z.ltb_lt in E.
    assert ((r - tl >? 0)%Z = true) as ->
      by (rewrite Z.gtb_ltb; apply Z.ltb_lt; lia).
    assert (Hprod : (0 <= h * (r - tl) <= 65535 * 65535)%Z) by nia.
    rewrite mul_int_finite by (cbn; lia).
    apply div_int_finite; [|lia | cbn; lia].
    apply round_abs_le. apply Qabs_inject_Z_le. cbn. lia.
  - apply Z.ltb_ge in E.
    assert ((r - tl >? 0)%Z = false) as ->
      by (rewrite Z.gtb_ltb; apply Z.ltb_ge; lia).
    reflexivity.
Qed.

Lemma range_value_le (h d a1 a2 : Z) :
  (0 <= h)%Z -> (a1 <= a2)%Z -> (a2 <= d)%Z ->
  range_value h d a1 <= range_value h d a2.
Proof.
  intros Hh Ha Hd. unfold range_value.
  destruct (a2 >? 0)%Z eqn:E2; rewrite Z.gtb_ltb in E2.
  - apply Z.ltb_lt in E2.
    assert (Hdq : 0 < inject_Z d) by (rewrite <- (Zlt_Qlt 0); lia).
    assert (Hinv : 0 <= / inject_Z d) by (apply Qlt_le_weak, Qinv_lt_0_compat, Hdq).
    destruct (a1 >? 0)%Z eqn:E1; rewrite Z.gtb_ltb in E1.
    + apply Z.ltb_lt in E1.
      assert (H1 : 0 <= inject_Z (h * a1)) by (rewrite <- (Zle_Qle 0); nia).
      apply round_le.
      * apply Qmult_le_0_compat; [apply round_nonneg; exact H1 | exact Hinv].
      * apply Qmult_le_compat_r; [|exact Hinv].
        apply round_le; [exact H1|]. rewrite <- Zle_Qle. nia.
    + apply round_nonneg. apply Qmult_le_0_compat; [|exact Hinv].
      apply round_nonneg. rewrite <- (Zle_Qle 0). nia.
  - apply Z.ltb_ge in E2.
    assert ((a1 >? 0)%Z = false) as ->
      by (rewrite Z.gtb_ltb; apply Z.ltb_ge; lia).
    apply Qle_refl.
Qed.

Lemma range_value_nonneg (h d a : Z) :
  (0 <= h)%Z -> (a <= d)%Z -> 0 <= range_value h d a.
Proof.
  intros Hh Hd.
  destruct (Z.le_gt_cases a 0) as [Hle | Hgt].
  - unfold range_value.
    assert ((a >? 0)%Z = false) as ->
      by (rewrite Z.gtb_ltb; apply Z.ltb_ge; lia).
    apply Qle_refl.
  - change 0 with (range_value h d 0). apply range_value_le; lia.
Qed.

(** When the product [h * d] is exact, the result does not exceed [h]. *)
Lemma range_value_upper (h d a : Z) :
  (0 <= h)%Z -> (a <= d)%Z -> (h * d < 2 ^ 24)%Z ->
  range_value h d a <= inject_Z h.
Proof.
  intros Hh Hd Hexact. unfold range_value.
  destruct (a >? 0)%Z eqn:E; rewrite Z.gtb_ltb in E.
  - apply Z.ltb_lt in E.
    assert (Hh24 : (h < 2 ^ 24)%Z) by nia.
    assert (Hdq : 0 < inject_Z d) by (rewrite <- (Zlt_Qlt 0); lia).
    rewrite (round_int (h * a)) by nia.
    rewrite <- (round_int h) at 1 by lia.
    apply round_le.
    + apply Qmult_le_0_compat;
        [rewrite <- (Zle_Qle 0); nia | apply Qlt_le_weak, Qinv_lt_0_compat, Hdq].
    + apply Qle_shift_div_r; [exact Hdq|].
      rewrite <- inject_Z_mult, <- Zle_Qle. nia.
  - rewrite <- (Zle_Qle 0). exact Hh.
Qed.

Lemma constrain_int16_is_int16 (amt low high : Z) :
  is_int16 amt -> is_int16 low -> is_int16 high ->
  is_int16 (constrain_int16 amt low high).
Proof.
  intros Ha Hl Hh. unfold constrain_int16.
  destruct (amt <? low)%Z; [exact Hl|]. destruct (amt >? high)%Z; assumption.
Qed.

(** The value of the RANGE conversion for an input inside the
    calibrated travel. *)
Lemma pwm_to_range_dz_value (c : RC_Channel) (dz p : Z) :
  is_int16 (radio_min c) -> is_int16 (radio_max c) ->
  (0 <= high_in c < 2 ^ 16)%Z ->
  (radio_min c <= p <= radio_max c)%Z ->
  pwm_to_range_dz (with_radio_in c p) dz
  = Finite (range_value (high_in c)
              (radio_max c - to_int16 (radio_min c + dz))
              ((if get_reverse c then radio_max c - (p - radio_min c) else p)
               - to_int16 (radio_min c + dz))).
Proof.
  intros Hmin Hmax Hh Hp.
  assert (Hp16 : is_int16 p) by (unfold is_int16 in *; lia).
  unfold pwm_to_range_dz.
  change (get_reverse (with_radio_in c p)) with (get_reverse c).
  cbn [radio_in radio_min radio_max high_in with_radio_in].
  rewrite (to_int16_id p Hp16), (constrain_int16_inside p _ _ Hp).
  destruct (get_reverse c).
  - rewrite to_int16_id by (unfold is_int16 in *; lia).
    apply range_branch; try assumption; try apply to_int16_range;
      unfold is_int16 in *; lia.
  - apply range_branch; try assumption; try apply to_int16_range; lia.
Qed.

(** The default calibration 1100..1900 with a scale of 1000 and no dead
    zone: 1100, 1500 and 1900 convert to 0, 500 and 1000. *)
Example pwm_to_range_dz_default_calibration :
  pwm_to_range_dz (example_channel 0 1100) 0 = Finite 0
  /\ pwm_to_range_dz (example_channel 0 1500) 0 = Finite 500
  /\ pwm_to_range_dz (example_channel 0 1900) 0 = Finite 1000.
Proof. repeat split; vm_compute; reflexivity. Qed.

(** C6, amended: with [radio_min < radio_max], over the pulse widths of
    [radio_min .. radio_max] the RANGE conversion returns a finite value
    that is non-decreasing in the pulse width, non-increasing when the
    channel is reversed, and never below 0; it is at most [high_in]
    whenever [high_in * (radio_max - radio_trim_low)] is below [2^24],
    where the single-precision product is exact. *)
Theorem pwm_to_range_dz_monotone (c : RC_Channel) (dz p1 p2 : Z) :
  is_int16 (radio_min c) -> is_int16 (radio_max c) ->
  (0 <= high_in c < 2 ^ 16)%Z ->
  (radio_min c < radio_max c)%Z ->
  (radio_min c <= p1)%Z -> (p1 <= p2)%Z -> (p2 <= radio_max c)%Z ->
  exists y1 y2 : Q,
    pwm_to_range_dz (with_radio_in c p1) dz = Finite y1
    /\ pwm_to_range_dz (with_radio_in c p2) dz = Finite y2
    /\ (get_reverse c = false -> y1 <= y2)
    /\ (get_reverse c = true -> y2 <= y1)
    /\ 0 <= y1 /\ 0 <= y2
    /\ ((high_in c * (radio_max c - to_int16 (radio_min c + dz)) < 2 ^ 24)%Z ->
        y1 <= inject_Z (high_in c) /\ y2 <= inject_Z (high_in c)).
Proof.
  intros Hmin Hmax Hh Hlt H1 H12 H2.
  rewrite (pwm_to_range_dz_value c dz p1) by (try assumption; lia).
  rewrite (pwm_to_range_dz_value c dz p2) by (try assumption; lia).
  set (tl := to_int16 (radio_min c + dz)).
  eexists. eexists. split; [reflexivity|]. split; [reflexivity|].
  repeat split.
  - intros ->. apply range_value_le; lia.
  - intros ->. apply range_value_le; lia.
  - apply range_value_nonneg; [lia|]. destruct (get_reverse c); lia.
  - apply range_value_nonneg; [lia|]. destruct (get_reverse c); lia.
  - apply range_value_upper; [lia | | assumption]. destruct (get_reverse c); lia.
  - apply range_value_upper; [lia | | assumption]. destruct (get_reverse c); lia.
Qed.

Lemma pwm_to_range_dz_monotone_witness :
  exists y1 y2 : Q,
    pwm_to_range_dz (with_radio_in (example_channel 0 0) 1300) 0 = Finite y1
    /\ pwm_to_range_dz (with_radio_in (example_channel 0 0) 1700) 0 = Finite y2
    /\ y1 <= y2 /\ 0 <= y1 /\ y2 <= 1000.
Proof.
  assert (Hmin : is_int16 (radio_min (example_channel 0 0)))
    by (cbv [is_int16 example_channel radio_min]; lia).
  assert (Hmax : is_int16 (radio_max (example_channel 0 0)))
    by (cbv [is_int16 example_channel radio_max]; lia).
  assert (Hh : (0 <= high_in (example_channel 0 0) < 2 ^ 16)%Z)
    by (cbv [example_channel high_in]; lia).
  destruct (pwm_to_range_dz_monotone (example_channel 0 0) 0 1300 1700 Hmin Hmax Hh
              ltac:(cbv [example_channel radio_min radio_max]; lia)
              ltac:(cbv [example_channel radio_min]; lia)
              ltac:(lia)
              ltac:(cbv [example_channel radio_max]; lia))
    as [y1 [y2 (E1 & E2 & Hup & _ & H0 & _ & Hbound)]].
  exists y1, y2. repeat split; try assumption.
  - apply Hup. reflexivity.
  - apply Hbound. vm_compute. reflexivity.
Defined.

(** C6, as stated, fails on the upper bound: with [high_in = 16401] and a
    travel of 1023 the product [16401 * 1023] is rounded up in single
    precision, and at [radio_in = radio_max] the conversion returns
    16401.001953125.  The Standard Library's IEEE 754 operations at
    precision 24 give the same value. *)
Lemma pwm_to_range_dz_bound_counterexample :
  let c := wide_scale_channel 2023 in
  (radio_min c < radio_max c)%Z
  /\ (radio_min c <= radio_in c <= radio_max c)%Z
  /\ pwm_to_range_dz c 0 = Finite (8397313 # 512)
  /\ inject_Z (high_in c) < 8397313 # 512
  /\ of_spec_float
       (SFdiv 24 128
          (SFmul 24 128 (spec_of_int 16401) (spec_of_int (2023 - 1000)))
          (spec_of_int (2023 - 1000)))
     = Finite (8397313 # 512).
Proof.
  cbv zeta. split; [|split; [|split; [|split]]].
  - cbv [wide_scale_channel radio_min radio_max]. lia.
  - cbv [wide_scale_channel radio_min radio_max radio_in]. lia.
  - vm_compute. reflexivity.
  - vm_compute. reflexivity.
  - vm_compute. reflexivity.
Qed.

(** Every path of the ANGLE conversion yields a finite value. *)
Lemma angle_branch (m h a d : Z) :
  (m = 1 \/ m = -1)%Z -> (0 <= h < 2 ^ 16)%Z ->
  (- 2 ^ 16 < a < 2 ^ 16)%Z -> (- 2 ^ 16 < d < 2 ^ 16)%Z -> d <> 0%Z ->
  exists y : Q,
    div (mul (of_int m) (mul (of_int h) (of_int a))) (of_int d) = Finite y.
Proof.
  intros Hm Hh Ha Hd Hnz.
  change (2 ^ 16)%Z with 65536%Z in *.
  assert (Hprod : (- (65535 * 65535) <= h * a <= 65535 * 65535)%Z) by nia.
  rewrite mul_int_finite by (cbn; lia).
  assert (HP : Qabs (round (inject_Z (h * a))) <= two32).
  { apply round_abs_le. apply Qabs_inject_Z_le. cbn. lia. }
  rewrite (of_int_exact m) by (cbn; lia).
  assert (HmP : Qabs (inject_Z m * round (inject_Z (h * a))) <= two32).
  { rewrite Qabs_Qmult.
    assert (Hone : Qabs (inject_Z m) == 1) by (destruct Hm as [-> | ->]; reflexivity).
    rewrite Hone, Qmult_1_l. exact HP. }
  rewrite mul_finite by exact HmP.
  destruct (div_int_finite (round (inject_Z m * round (inject_Z (h * a)))) d)
    as [Hdiv _]; [apply round_abs_le; exact HmP | exact Hnz | cbn; lia |].
  eexists. exact Hdiv.
Qed.

Lemma int16_difference (a b : Z) :
  is_int16 a -> is_int16 b -> (- 2 ^ 16 < a - b < 2 ^ 16)%Z.
Proof.
  unfold is_int16. change (2 ^ 15)%Z with 32768%Z. change (2 ^ 16)%Z with 65536%Z. lia.
Qed.

Lemma pwm_to_angle_dz_trim_finite (c : RC_Channel) (dz trim : Z) :
  is_int16 (radio_min c) -> is_int16 (radio_max c) -> (0 <= high_in c < 2 ^ 16)%Z ->
  exists y : Q, pwm_to_angle_dz_trim c dz trim = Finite y.
Proof.
  intros Hmin Hmax Hh. unfold pwm_to_angle_dz_trim.
  set (r_in := constrain_int16 (to_int16 (radio_in c)) (radio_min c) (radio_max c)).
  assert (Hr : is_int16 r_in)
    by (apply constrain_int16_is_int16; [apply to_int16_range | assumption | assumption]).
  pose proof (to_int16_range (trim + dz)) as Hth.
  pose proof (to_int16_range (trim - dz)) as Htl.
  assert (Hm : ((if get_reverse c then -1 else 1) = 1
                \/ (if get_reverse c then -1 else 1) = -1)%Z)
    by (destruct (get_reverse c); auto).
  destruct ((r_in >? to_int16 (trim + dz))%Z
            && negb (radio_max c =? to_int16 (trim + dz))%Z) eqn:Ehi.
  - apply andb_true_iff in Ehi. destruct Ehi as [_ Hne].
    apply negb_true_iff, Z.eqb_neq in Hne.
    apply angle_branch; try assumption; try (apply int16_difference; assumption). lia.
  - destruct ((r_in <? to_int16 (trim - dz))%Z
              && negb (to_int16 (trim - dz) =? radio_min c)%Z) eqn:Elo.
    + apply andb_true_iff in Elo. destruct Elo as [_ Hne].
      apply negb_true_iff, Z.eqb_neq in Hne.
      apply angle_branch; try assumption; try (apply int16_difference; assumption). lia.
    + exists 0. reflexivity.
Qed.

Lemma pwm_to_range_dz_inverted (c : RC_Channel) (dz : Z) :
  is_int16 (radio_min c) -> is_int16 (radio_max c) ->
  (radio_max c <= radio_min c)%Z -> (0 <= dz)%Z -> (radio_min c + dz < 2 ^ 15)%Z ->
  pwm_to_range_dz c dz = zero.
Proof.
  intros Hmin Hmax Hinv Hdz Hfit. unfold pwm_to_range_dz.
  set (r_in := constrain_int16 (to_int16 (radio_in c)) (radio_min c) (radio_max c)).
  assert (Hr : r_in = radio_min c \/ r_in = radio_max c)
    by (apply constrain_int16_inverted; exact Hinv).
  rewrite (to_int16_id (radio_min c + dz)) by (unfold is_int16 in *; lia).
  assert (Hrev : (to_int16 (radio_max c - (r_in - radio_min c)) <= radio_min c)%Z).
  { destruct Hr as [-> | ->].
    - replace (radio_max c - (radio_min c - radio_min c))%Z with (radio_max c) by lia.
      rewrite to_int16_id by assumption. lia.
    - replace (radio_max c - (radio_max c - radio_min c))%Z with (radio_min c) by lia.
      rewrite to_int16_id by assumption. lia. }
  assert (Hle : ((if get_reverse c
                  then to_int16 (radio_max c - (r_in - radio_min c))
                  else r_in) <= radio_min c + dz)%Z).
  { destruct (get_reverse c); [lia|]. destruct Hr as [-> | ->]; lia. }
  assert (((if get_reverse c
            then to_int16 (radio_max c - (r_in - radio_min c))
            else r_in) >? radio_min c + dz)%Z = false) as ->
    by (rewrite Z.gtb_ltb; apply Z.ltb_ge; exact Hle).
  reflexivity.
Qed.

Lemma pwm_to_range_dz_finite (c : RC_Channel) (dz : Z) :
  is_int16 (radio_min c) -> is_int16 (radio_max c) -> (0 <= high_in c < 2 ^ 16)%Z ->
  (radio_min c <= radio_max c)%Z ->
  exists y : Q, pwm_to_range_dz c dz = Finite y.
Proof.
  intros Hmin Hmax Hh Hord. unfold pwm_to_range_dz.
  set (r_in := constrain_int16 (to_int16 (radio_in c)) (radio_min c) (radio_max c)).
  assert (Hr : (radio_min c <= r_in <= radio_max c)%Z).
  { subst r_in. unfold constrain_int16.
    destruct (to_int16 (radio_in c) <? radio_min c)%Z eqn:E1; [lia|].
    apply Z.ltb_ge in E1.
    destruct (to_int16 (radio_in c) >? radio_max c)%Z eqn:E2; [lia|].
    rewrite Z.gtb_ltb in E2. apply Z.ltb_ge in E2. lia. }
  eexists. apply range_branch; try assumption; try apply to_int16_range.
  - destruct (get_reverse c); [apply to_int16_range | unfold is_int16 in *; lia].
  - destruct (get_reverse c); [|lia].
    rewrite to_int16_id by (unfold is_int16 in *; lia). lia.
Qed.

(** C4, amended: with [radio_max <= radio_min] and a dead zone for which
    [radio_min + dead_zone] fits in an [int16_t], [pwm_to_range_dz] returns
    0 for every [radio_in].  [pwm_to_angle_dz_trim] returns 0 when the
    clamped input lies in the dead band, its two ends included, and when
    the denominator of the side the input is on would be zero; on every
    path, whatever the calibration, it returns a finite value: no division
    by zero is evaluated.  The same holds of [pwm_to_range_dz] whenever
    [radio_min <= radio_max]. *)
Theorem conversions_neutral_value (c : RC_Channel) (dz trim : Z) :
  is_int16 (radio_min c) -> is_int16 (radio_max c) ->
  (0 <= high_in c < 2 ^ 16)%Z ->
  let r_in := constrain_int16 (to_int16 (radio_in c)) (radio_min c) (radio_max c) in
  let radio_trim_high := to_int16 (trim + dz) in
  let radio_trim_low := to_int16 (trim - dz) in
  ((radio_max c <= radio_min c)%Z -> (0 <= dz)%Z -> (radio_min c + dz < 2 ^ 15)%Z ->
   pwm_to_range_dz c dz = zero)
  /\ ((radio_trim_low <= r_in <= radio_trim_high)%Z ->
      pwm_to_angle_dz_trim c dz trim = zero)
  /\ ((radio_trim_low <= r_in)%Z -> radio_max c = radio_trim_high ->
      pwm_to_angle_dz_trim c dz trim = zero)
  /\ ((r_in <= radio_trim_high)%Z -> radio_trim_low = radio_min c ->
      pwm_to_angle_dz_trim c dz trim = zero)
  /\ (exists y : Q, pwm_to_angle_dz_trim c dz trim = Finite y)
  /\ ((radio_min c <= radio_max c)%Z ->
      exists y : Q, pwm_to_range_dz c dz = Finite y).
Proof.
  intros Hmin Hmax Hh r_in radio_trim_high radio_trim_low.
  repeat split.
  - apply pwm_to_range_dz_inverted; assumption.
  - intros [Hlo Hhi]. unfold pwm_to_angle_dz_trim.
    fold r_in radio_trim_high radio_trim_low.
    assert ((r_in >? radio_trim_high)%Z = false) as ->
      by (rewrite Z.gtb_ltb; apply Z.ltb_ge; lia).
    assert ((r_in <? radio_trim_low)%Z = false) as -> by (apply Z.ltb_ge; lia).
    reflexivity.
  - intros Hlo Heq. unfold pwm_to_angle_dz_trim.
    fold r_in radio_trim_high radio_trim_low.
    assert ((radio_max c =? radio_trim_high)%Z = true) as -> by (apply Z.eqb_eq; exact Heq).
    assert ((r_in <? radio_trim_low)%Z = false) as -> by (apply Z.ltb_ge; lia).
    rewrite andb_false_r. reflexivity.
  - intros Hhi Heq. unfold pwm_to_angle_dz_trim.
    fold r_in radio_trim_high radio_trim_low.
    assert ((r_in >? radio_trim_high)%Z = false) as ->
      by (rewrite Z.gtb_ltb; apply Z.ltb_ge; lia).
    assert ((radio_trim_low =? radio_min c)%Z = true) as -> by (apply Z.eqb_eq; exact Heq).
    rewrite andb_false_r. reflexivity.
  - apply pwm_to_angle_dz_trim_finite; assumption.
  - intros Hord. apply pwm_to_range_dz_finite; assumption.
Qed.

Lemma conversions_neutral_value_witness :
  pwm_to_range_dz (inverted_channel 1000) 30 = zero
  /\ pwm_to_angle_dz_trim (example_channel 0 1510) 20 1500 = zero.
Proof.
  split.
  - apply (proj1 (conversions_neutral_value (inverted_channel 1000) 30 1500
                    ltac:(cbv [is_int16 inverted_channel radio_min]; lia)
                    ltac:(cbv [is_int16 inverted_channel radio_max]; lia)
                    ltac:(cbv [inverted_channel high_in]; lia))).
    + cbv [inverted_channel radio_min radio_max]. lia.
    + lia.
    + cbv [inverted_channel radio_min]. lia.
  - apply (proj1 (proj2 (conversions_neutral_value (example_channel 0 1510) 20 1500
                           ltac:(cbv [is_int16 example_channel radio_min]; lia)
                           ltac:(cbv [is_int16 example_channel radio_max]; lia)
                           ltac:(cbv [example_channel high_in]; lia)))).
    vm_compute. split; intros H; discriminate H.
Defined.

(** C4, as stated, fails: with [radio_min = 1900], [radio_max = 1100] and
    the trim at 1500, a pulse of 2000 is clamped to 1100 and
    [pwm_to_angle_dz_trim] divides [4500 * (1100 - 1500)] by
    [1500 - 1900]: it returns 4500, and -4500 for a pulse of 1000.  And a
    negative dead zone, -500 here, reaches [pwm_to_range_dz] as 65036, wraps
    [radio_min + dead_zone] around and lets it divide by
    [radio_max - radio_trim_low = 0]. *)
Lemma conversions_neutral_value_counterexample :
  (radio_max (inverted_channel 2000) <= radio_min (inverted_channel 2000))%Z
  /\ pwm_to_angle_dz_trim (inverted_channel 2000) 0 1500 = Finite 4500
  /\ pwm_to_angle_dz_trim (inverted_channel 1000) 0 1500 = Finite (-4500)
  /\ (radio_max wrapped_dead_zone_channel <= radio_min wrapped_dead_zone_channel)%Z
  /\ pwm_to_range wrapped_dead_zone_channel = NonFinite.
Proof.
  split; [|split; [|split; [|split]]].
  - cbv [inverted_channel radio_min radio_max]. lia.
  - vm_compute. reflexivity.
  - vm_compute. reflexivity.
  - cbv [wrapped_dead_zone_channel radio_min radio_max]. lia.
  - vm_compute. reflexivity.
Qed.

End Conversions.

(** * Further properties *)

(** ** Rounding, continued *)

Section RoundingMore.

Import F32 F32Ops.
Local Open Scope Q_scope.

Lemma round_units_comp (X Y : Q) : X == Y -> round_units X = round_units Y.
Proof.
  intros H. unfold round_units. rewrite (Qfloor_comp X Y H).
  f_equal. apply round_half_even_comp. rewrite H. reflexivity.
Qed.

Lemma round_mag_comp (x y : Q) : x == y -> round_mag x = round_mag y.
Proof.
  intros H. unfold round_mag. f_equal. f_equal. f_equal.
  apply round_units_comp. rewrite H. reflexivity.
Qed.

Lemma Qle_bool_comp (a x y : Q) : x == y -> Qle_bool a x = Qle_bool a y.
Proof.
  intros H. destruct (Qle_bool a x) eqn:E1, (Qle_bool a y) eqn:E2; try reflexivity.
  - apply Qle_bool_iff in E1. rewrite H in E1. apply Qle_bool_iff in E1. congruence.
  - apply Qle_bool_iff in E2. rewrite <- H in E2. apply Qle_bool_iff in E2. congruence.
Qed.

(** Rounding depends on the value only, not on the fraction denoting it. *)
Lemma round_comp (x y : Q) : x == y -> round x = round y.
Proof.
  intros H. unfold round. rewrite (Qle_bool_comp 0 x y H).
  destruct (Qle_bool 0 y).
  - apply round_mag_comp. exact H.
  - f_equal. apply round_mag_comp. rewrite H. reflexivity.
Qed.

Lemma Qle_bool_false (x y : Q) : Qle_bool x y = false <-> y < x.
Proof.
  split.
  - intros E. destruct (Qlt_le_dec y x) as [Hlt | Hle]; [exact Hlt|].
    apply Qle_bool_iff in Hle. congruence.
  - intros Hlt. destruct (Qle_bool x y) eqn:E; [|reflexivity].
    apply Qle_bool_iff in E. exfalso. apply (Qlt_irrefl y).
    apply Qlt_le_trans with x; assumption.
Qed.

Lemma round_nonpos (x : Q) : x <= 0 -> round x <= 0.
Proof.
  intros H. unfold round. destruct (Qle_bool 0 x) eqn:E.
  - apply Qle_bool_iff in E.
    assert (Hz : x == 0) by (apply Qle_antisym; assumption).
    rewrite (round_mag_comp x 0 Hz). apply Qle_refl.
  - apply Qle_bool_false in E.
    assert (H0 : 0 <= round_mag (- x)) by (apply round_mag_nonneg; lra).
    lra.
Qed.

(** Rounding is monotone. *)
Lemma round_monotone (x y : Q) : x <= y -> round x <= round y.
Proof.
  intros Hle.
  destruct (Qlt_le_dec x 0) as [Hx | Hx].
  - destruct (Qlt_le_dec y 0) as [Hy | Hy].
    + unfold round.
      assert (Ex : Qle_bool 0 x = false) by (apply Qle_bool_false; exact Hx).
      assert (Ey : Qle_bool 0 y = false) by (apply Qle_bool_false; exact Hy).
      rewrite Ex, Ey.
      assert (Hm : round_mag (- y) <= round_mag (- x)) by (apply round_mag_le; lra).
      lra.
    + apply Qle_trans with 0; [apply round_nonpos; lra | apply round_nonneg; exact Hy].
  - apply round_le; assumption.
Qed.

(** Rounding commutes with negation. *)
Lemma round_opp (x : Q) : round (- x) == - round x.
Proof.
  unfold round.
  destruct (Qle_bool 0 x) eqn:Ex, (Qle_bool 0 (- x)) eqn:Ey.
  - apply Qle_bool_iff in Ex, Ey.
    assert (Hz : x == 0) by lra.
    rewrite (round_mag_comp (- x) 0), (round_mag_comp x 0); [reflexivity | exact Hz|].
    rewrite Hz. reflexivity.
  - rewrite (round_mag_comp (- - x) x); [reflexivity|]. ring.
  - ring.
  - apply Qle_bool_false in Ex, Ey. exfalso. lra.
Qed.

Lemma round_one : round 1 = 1.
Proof. vm_compute. reflexivity. Qed.

Lemma round_zero : round 0 = 0.
Proof. vm_compute. reflexivity. Qed.

End RoundingMore.

(** ** Percentage input *)

Section Percent.

Import F32 F32Ops.
Local Open Scope Q_scope.

Lemma percent_quotient (a d : Z) :
  (0 < a < d)%Z -> (d < 2 ^ 16)%Z ->
  div (mul (Finite 100) (of_int a)) (of_int d)
  = Finite (round (inject_Z (100 * a) / inject_Z d)).
Proof.
  intros Ha Hd. change (2 ^ 16)%Z with 65536%Z in Hd.
  assert (H24 : (2 ^ 24 = 16777216)%Z) by reflexivity.
  assert (H32 : (2 ^ 32 = 4294967296)%Z) by reflexivity.
  rewrite (of_int_exact a) by lia.
  change (Finite 100) with (Finite (inject_Z 100)).
  rewrite mul_finite; rewrite inject_Z_mult_eq.
  - rewrite (round_int (100 * a)) by lia.
    apply div_int_finite; [|lia | lia].
    apply Qabs_inject_Z_le. lia.
  - apply Qabs_inject_Z_le. lia.
Qed.

Lemma percent_fraction_bounds (a d : Z) :
  (0 < a < d)%Z ->
  0 <= round (inject_Z (100 * a) / inject_Z d) <= 100.
Proof.
  intros Ha.
  assert (Hd : 0 < inject_Z d) by (rewrite <- (Zlt_Qlt 0); lia).
  split.
  - apply round_nonneg. apply Qle_shift_div_l; [exact Hd|].
    rewrite Qmult_0_l. rewrite <- (Zle_Qle 0). lia.
  - change 100 with (inject_Z 100).
    rewrite <- (round_int 100) by (cbn; lia).
    apply round_monotone. apply Qle_shift_div_r; [exact Hd|].
    rewrite <- inject_Z_mult, <- Zle_Qle. lia.
Qed.

Lemma percent_value_bounds (c : RC_Channel) (p : Z) :
  (0 <= percent_value c p <= 100)%Z.
Proof.
  unfold percent_value.
  destruct (p <=? radio_min c)%Z eqn:E1; [lia|]. apply Z.leb_gt in E1.
  destruct (p >=? radio_max c)%Z eqn:E2; [lia|].
  rewrite Z.geb_leb in E2. apply Z.leb_gt in E2.
  destruct (percent_fraction_bounds (p - radio_min c) (radio_max c - radio_min c))
    as [Hlo Hhi]; [lia|].
  split.
  - rewrite <- (Qfloor_Z 0). apply Qfloor_resp_le. exact Hlo.
  - rewrite <- (Qfloor_Z 100). apply Qfloor_resp_le. exact Hhi.
Qed.

Lemma percent_value_monotone (c : RC_Channel) (p1 p2 : Z) :
  (p1 <= p2)%Z -> (percent_value c p1 <= percent_value c p2)%Z.
Proof.
  intros Hle.
  pose proof (percent_value_bounds c p1) as B1.
  pose proof (percent_value_bounds c p2) as B2.
  unfold percent_value in *.
  destruct (p1 <=? radio_min c)%Z eqn:E1; [lia|]. apply Z.leb_gt in E1.
  assert ((p2 <=? radio_min c)%Z = false) as Hp2 by (apply Z.leb_gt; lia).
  rewrite Hp2 in *.
  destruct (p2 >=? radio_max c)%Z eqn:E2; [lia|].
  rewrite Z.geb_leb in E2. apply Z.leb_gt in E2.
  assert ((p1 >=? radio_max c)%Z = false) as Hp1
    by (rewrite Z.geb_leb; apply Z.leb_gt; lia).
  rewrite Hp1 in *.
  apply Qfloor_resp_le. apply round_monotone.
  assert (Hd : 0 < inject_Z (radio_max c - radio_min c))
    by (rewrite <- (Zlt_Qlt 0); lia).
  apply Qmult_le_compat_r; [|apply Qlt_le_weak, Qinv_lt_0_compat, Hd].
  rewrite <- Zle_Qle. lia.
Qed.

(** What [percent_input] returns, in terms of [percent_value]. *)
Lemma percent_input_value (c : RC_Channel) (p : Z) :
  is_int16 (radio_min c) -> is_int16 (radio_max c) -> is_int16 p ->
  percent_input (with_radio_in c p)
  = Some (if get_reverse c then 100 - percent_value c p else percent_value c p)%Z.
Proof.
  intros Hmin Hmax Hp. unfold percent_input, percent_value.
  change (get_reverse (with_radio_in c p)) with (get_reverse c).
  cbn [radio_in radio_min radio_max with_radio_in].
  destruct (p <=? radio_min c)%Z eqn:E1; [destruct (get_reverse c); reflexivity|].
  apply Z.leb_gt in E1.
  destruct (p >=? radio_max c)%Z eqn:E2; [destruct (get_reverse c); reflexivity|].
  rewrite Z.geb_leb in E2. apply Z.leb_gt in E2.
  unfold is_int16 in *. change (2 ^ 15)%Z with 32768%Z in *.
  rewrite percent_quotient by (change (2 ^ 16)%Z with 65536%Z; lia).
  destruct (percent_fraction_bounds (p - radio_min c) (radio_max c - radio_min c))
    as [Hlo Hhi]; [lia|].
  set (v := round (inject_Z (100 * (p - radio_min c))
                   / inject_Z (radio_max c - radio_min c))) in *.
  assert (Hfl : (0 <= Qfloor v <= 100)%Z).
  { split.
    - rewrite <- (Qfloor_Z 0). apply Qfloor_resp_le. exact Hlo.
    - rewrite <- (Qfloor_Z 100). apply Qfloor_resp_le. exact Hhi. }
  unfold to_uint8_of, truncate.
  apply Qle_bool_iff in Hlo. rewrite Hlo.
  assert ((0 <=? Qfloor v)%Z = true) as -> by (apply Z.leb_le; lia).
  assert ((Qfloor v <=? 255)%Z = true) as -> by (apply Z.leb_le; lia).
  cbn [andb]. destruct (get_reverse c); [|reflexivity].
  f_equal. unfold to_uint8. apply Z.mod_small. change (2 ^ 8)%Z with 256%Z. lia.
Qed.

(** X1: [percent_input] converts for every calibration and every input: it
    never divides by zero and its result is a percentage, 0 .. 100.  It does
    not decrease when the pulse widens, and does not increase when the
    channel is reversed. *)
Theorem percent_input_bounded_monotone (c : RC_Channel) (p1 p2 : Z) :
  is_int16 (radio_min c) -> is_int16 (radio_max c) ->
  is_int16 p1 -> is_int16 p2 -> (p1 <= p2)%Z ->
  exists r1 r2 : Z,
    percent_input (with_radio_in c p1) = Some r1
    /\ percent_input (with_radio_in c p2) = Some r2
    /\ (0 <= r1 <= 100)%Z /\ (0 <= r2 <= 100)%Z
    /\ (get_reverse c = false -> (r1 <= r2)%Z)
    /\ (get_reverse c = true -> (r2 <= r1)%Z).
Proof.
  intros Hmin Hmax Hp1 Hp2 Hle.
  rewrite (percent_input_value c p1), (percent_input_value c p2) by assumption.
  pose proof (percent_value_bounds c p1) as B1.
  pose proof (percent_value_bounds c p2) as B2.
  pose proof (percent_value_monotone c p1 p2 Hle) as Hm.
  eexists. eexists. split; [reflexivity|]. split; [reflexivity|].
  destruct (get_reverse c); repeat split; try lia; discriminate.
Qed.

Lemma percent_input_bounded_monotone_witness :
  exists r1 r2 : Z,
    percent_input (with_radio_in (example_channel 0 0) 1300) = Some r1
    /\ percent_input (with_radio_in (example_channel 0 0) 1700) = Some r2
    /\ (r1 <= r2)%Z /\ (r2 <= 100)%Z.
Proof.
  destruct (percent_input_bounded_monotone (example_channel 0 0) 1300 1700
              ltac:(cbv [is_int16 example_channel radio_min]; lia)
              ltac:(cbv [is_int16 example_channel radio_max]; lia)
              ltac:(cbv [is_int16]; lia) ltac:(cbv [is_int16]; lia) ltac:(lia))
    as [r1 [r2 (E1 & E2 & _ & B2 & Hup & _)]].
  exists r1, r2. repeat split; try assumption.
  - apply Hup. reflexivity.
  - lia.
Defined.

(** X2: reversing the channel turns the percentage [r] into [100 - r]. *)
Theorem percent_input_reversed (c : RC_Channel) (r : Z) :
  is_int16 (radio_min c) -> is_int16 (radio_max c) -> is_int16 (radio_in c) ->
  reversed c = 0%Z ->
  percent_input c = Some r ->
  percent_input (with_reversed c 1) = Some (100 - r)%Z.
Proof.
  intros Hmin Hmax Hin Hrev Hr.
  assert (Hc : c = with_radio_in c (radio_in c)) by (destruct c; reflexivity).
  assert (Hc' : with_reversed c 1 = with_radio_in (with_reversed c 1) (radio_in c))
    by (destruct c; reflexivity).
  rewrite Hc in Hr. rewrite (percent_input_value c _ Hmin Hmax Hin) in Hr.
  rewrite Hc'. rewrite (percent_input_value (with_reversed c 1) _ Hmin Hmax Hin).
  unfold get_reverse in *. rewrite Hrev in Hr. cbn in Hr. inversion Hr; subst r.
  cbn [reversed with_reversed]. cbn [Z.eqb negb].
  reflexivity.
Qed.

Lemma percent_input_reversed_witness :
  percent_input (with_reversed (example_channel 0 1300) 1) = Some (100 - 25)%Z.
Proof.
  apply (percent_input_reversed (example_channel 0 1300) 25
           ltac:(cbv [is_int16 example_channel radio_min]; lia)
           ltac:(cbv [is_int16 example_channel radio_max]; lia)
           ltac:(cbv [is_int16 example_channel radio_in]; lia)
           eq_refl).
  vm_compute. reflexivity.
Defined.

End Percent.

(** ** Normalised inputs *)

Section Normalised.

Import F32 F32Ops.
Local Open Scope Q_scope.

Lemma round_abs_bound (x : Q) (n : Z) :
  (0 <= n < 2 ^ 24)%Z -> Qabs x <= inject_Z n -> Qabs (round x) <= inject_Z n.
Proof.
  intros Hn Hx.
  assert (Hlo : - inject_Z n <= x /\ x <= inject_Z n).
  { revert Hx. apply Qabs_case; intros Hs Hx; lra. }
  destruct Hlo as [Hlo Hhi].
  pose proof (round_monotone _ _ Hhi) as Hup.
  pose proof (round_monotone _ _ Hlo) as Hdown.
  rewrite round_opp in Hdown. rewrite (round_int n) in Hup, Hdown by lia.
  apply Qabs_case; intros _; lra.
Qed.

Lemma two32_bound (n : Z) (x : Q) :
  (0 <= n <= 2 ^ 32)%Z -> Qabs x <= inject_Z n -> Qabs x <= two32.
Proof.
  intros Hn Hx. apply Qle_trans with (inject_Z n); [exact Hx|].
  unfold two32. rewrite <- Zle_Qle. lia.
Qed.

(** The quotient [reverse_mul * a / d] of the normalised inputs. *)
Lemma norm_quotient (m a d : Z) :
  (m = 1 \/ m = -1)%Z -> (- 2 ^ 16 < a < 2 ^ 16)%Z -> (0 < d < 2 ^ 16)%Z ->
  div (mul (of_int m) (of_int a)) (of_int d)
  = Finite (round (inject_Z (m * a) / inject_Z d)).
Proof.
  intros Hm Ha Hd.
  change (2 ^ 16)%Z with 65536%Z in *.
  assert (H24 : (2 ^ 24 = 16777216)%Z) by reflexivity.
  assert (H32 : (2 ^ 32 = 4294967296)%Z) by reflexivity.
  assert (Hma : (- 65536 < m * a < 65536)%Z) by (destruct Hm as [-> | ->]; lia).
  rewrite mul_int_finite by lia.
  rewrite (round_int (m * a)) by lia.
  apply div_int_finite; [|lia | lia].
  apply Qabs_inject_Z_le. lia.
Qed.

Lemma constrain_float_unit (v : Q) :
  exists y : Q,
    constrain_float (Finite v) (Finite (-1)) (Finite 1) = Finite y
    /\ -1 <= y <= 1
    /\ (1 <= v -> y == 1)
    /\ (v <= -1 -> y == -1)
    /\ (-1 <= v <= 1 -> y = v).
Proof.
  unfold constrain_float.
  destruct (Qle_bool (-1) v) eqn:Elo; cbn [negb].
  - apply Qle_bool_iff in Elo.
    destruct (Qle_bool v 1) eqn:Ehi; cbn [negb].
    + apply Qle_bool_iff in Ehi. exists v.
      repeat split; try assumption; try reflexivity; intros; lra.
    + apply Qle_bool_false in Ehi. exists 1.
      repeat split; try reflexivity; try lra; intros; lra.
  - apply Qle_bool_false in Elo. exists (-1).
    repeat split; try reflexivity; try lra; intros; lra.
Qed.

(** The clamped quotient: finite, within -1 .. 1, and saturated as soon as
    the numerator reaches the denominator. *)
Lemma norm_clamped (m a d : Z) :
  (m = 1 \/ m = -1)%Z -> (- 2 ^ 16 < a < 2 ^ 16)%Z -> (0 < d < 2 ^ 16)%Z ->
  exists y : Q,
    constrain_float (div (mul (of_int m) (of_int a)) (of_int d))
                    (Finite (-1)) (Finite 1) = Finite y
    /\ -1 <= y <= 1
    /\ ((d <= m * a)%Z -> y == 1)
    /\ ((m * a <= - d)%Z -> y == -1)
    /\ (a = 0%Z -> y == 0)
    /\ ((0 <= m * a)%Z -> 0 <= y)
    /\ ((m * a <= 0)%Z -> y <= 0).
Proof.
  intros Hm Ha Hd. rewrite (norm_quotient m a d Hm Ha Hd).
  set (v := round (inject_Z (m * a) / inject_Z d)).
  assert (Hdq : 0 < inject_Z d) by (rewrite <- (Zlt_Qlt 0); lia).
  destruct (constrain_float_unit v) as [y (Ey & Hy & Hone & Hmone & Hid)].
  assert (Hpos : (0 <= m * a)%Z -> 0 <= v).
  { intros H. apply round_nonneg. apply Qle_shift_div_l; [exact Hdq|].
    rewrite Qmult_0_l. rewrite <- (Zle_Qle 0). exact H. }
  assert (Hneg : (m * a <= 0)%Z -> v <= 0).
  { intros H. apply round_nonpos. apply Qle_shift_div_r; [exact Hdq|].
    rewrite Qmult_0_l. rewrite <- (Zle_Qle _ 0). exact H. }
  exists y. split; [exact Ey|]. split; [exact Hy|].
  split; [|split; [|split; [|split]]].
  - intros H. apply Hone. subst v. rewrite <- round_one.
    apply round_monotone. apply Qle_shift_div_l; [exact Hdq|].
    rewrite Qmult_1_l, <- Zle_Qle. exact H.
  - intros H. apply Hmone. subst v.
    assert (Hr : round (-1) = -1) by (vm_compute; reflexivity).
    rewrite <- Hr. apply round_monotone. apply Qle_shift_div_r; [exact Hdq|].
    change (-1) with (inject_Z (-1)). rewrite <- inject_Z_mult, <- Zle_Qle. lia.
  - intros ->.
    assert (H0 : v = 0).
    { subst v. rewrite Z.mul_0_r. rewrite (round_comp _ 0); [apply round_zero |].
      unfold Qdiv. apply Qmult_0_l. }
    rewrite Hid; rewrite H0; [reflexivity | split; discriminate].
  - intros H. specialize (Hpos H).
    destruct (Qlt_le_dec 1 v) as [Hbig | Hsmall].
    + rewrite (Hone (Qlt_le_weak _ _ Hbig)). discriminate.
    + rewrite Hid; [exact Hpos | split; [lra | exact Hsmall]].
  - intros H. specialize (Hneg H).
    destruct (Qlt_le_dec v (-1)) as [Hbig | Hsmall].
    + rewrite (Hmone (Qlt_le_weak _ _ Hbig)). discriminate.
    + rewrite Hid; [exact Hneg | split; [exact Hsmall | lra]].
Qed.

Lemma reverse_mul_unit (c : RC_Channel) :
  ((if get_reverse c then -1 else 1) = 1 \/ (if get_reverse c then -1 else 1) = -1)%Z.
Proof. destruct (get_reverse c); auto. Qed.

(** X3: [norm_input] never divides by zero and returns a finite value in
    -1 .. 1 for every calibration: 0 at the trim, the sign of the deflection
    (inverted when the channel is reversed), and exactly 1 or -1 from
    [radio_max] or [radio_min] outwards. *)
Theorem norm_input_unit (c : RC_Channel) :
  is_int16 (radio_in c) -> is_int16 (radio_min c) ->
  is_int16 (radio_trim c) -> is_int16 (radio_max c) ->
  let m := (if get_reverse c then -1 else 1)%Z in
  exists y : Q,
    norm_input c = Finite y
    /\ -1 <= y <= 1
    /\ (radio_in c = radio_trim c -> y == 0)
    /\ ((0 <= m * (radio_in c - radio_trim c))%Z -> 0 <= y)
    /\ ((m * (radio_in c - radio_trim c) <= 0)%Z -> y <= 0)
    /\ ((radio_trim c < radio_max c)%Z -> (radio_max c <= radio_in c)%Z ->
        y == inject_Z m)
    /\ ((radio_min c < radio_trim c)%Z -> (radio_in c <= radio_min c)%Z ->
        y == - inject_Z m).
Proof.
  intros Hin Hmin Htrim Hmax m.
  pose proof (reverse_mul_unit c) as Hm. fold m in Hm.
  unfold is_int16 in *. change (2 ^ 15)%Z with 32768%Z in *.
  assert (Hzero : exists y : Q,
            Finite 0 = Finite y /\ -1 <= y <= 1 /\ y == 0).
  { exists 0. repeat split; try reflexivity; discriminate. }
  unfold norm_input. fold m.
  destruct (radio_in c <? radio_trim c)%Z eqn:Eside.
  - apply Z.ltb_lt in Eside.
    destruct (radio_min c >=? radio_trim c)%Z eqn:Edeg.
    + apply Z.geb_le in Edeg.
      destruct Hzero as [y (Ey & Hy & Hz)]. exists y.
      split; [exact Ey|]. split; [exact Hy|].
      repeat split; intros; try (rewrite Hz; try reflexivity; discriminate); lia.
    + rewrite Z.geb_leb in Edeg. apply Z.leb_gt in Edeg.
      destruct (norm_clamped m (radio_in c - radio_trim c) (radio_trim c - radio_min c))
        as [y (Ey & Hy & Hone & Hmone & Hz & Hpos & Hneg)];
        [exact Hm | change (2 ^ 16)%Z with 65536%Z; lia
         | change (2 ^ 16)%Z with 65536%Z; lia |].
      exists y. split; [exact Ey|]. split; [exact Hy|].
      split; [intros; lia|]. split; [exact Hpos|]. split; [exact Hneg|].
      split; [intros; lia|].
      intros _ Hout. destruct Hm as [Em | Em]; rewrite Em in *.
      * change (- inject_Z 1) with (-1). apply Hmone. lia.
      * change (- inject_Z (-1)) with 1. apply Hone. lia.
  - apply Z.ltb_ge in Eside.
    destruct (radio_max c <=? radio_trim c)%Z eqn:Edeg.
    + apply Z.leb_le in Edeg.
      destruct Hzero as [y (Ey & Hy & Hz)]. exists y.
      split; [exact Ey|]. split; [exact Hy|].
      repeat split; intros; try (rewrite Hz; try reflexivity; discriminate); lia.
    + apply Z.leb_gt in Edeg.
      destruct (norm_clamped m (radio_in c - radio_trim c) (radio_max c - radio_trim c))
        as [y (Ey & Hy & Hone & Hmone & Hz & Hpos & Hneg)];
        [exact Hm | change (2 ^ 16)%Z with 65536%Z; lia
         | change (2 ^ 16)%Z with 65536%Z; lia |].
      exists y. split; [exact Ey|]. split; [exact Hy|].
      split; [intros; apply Hz; lia|]. split; [exact Hpos|]. split; [exact Hneg|].
      split; [|intros; lia].
      intros _ Hout. destruct Hm as [Em | Em]; rewrite Em in *.
      * change (inject_Z 1) with 1. apply Hone. lia.
      * change (inject_Z (-1)) with (-1). apply Hmone. lia.
Qed.

Lemma norm_input_unit_witness :
  exists y : Q, norm_input (example_channel 0 1900) = Finite y /\ y == 1.
Proof.
  destruct (norm_input_unit (example_channel 0 1900)
              ltac:(cbv [is_int16 example_channel radio_in]; lia)
              ltac:(cbv [is_int16 example_channel radio_min]; lia)
              ltac:(cbv [is_int16 example_channel radio_trim]; lia)
              ltac:(cbv [is_int16 example_channel radio_max]; lia))
    as [y (Ey & _ & _ & _ & _ & Hfull & _)].
  exists y. split; [exact Ey|].
  apply Hfull; cbv [example_channel radio_trim radio_max radio_in]; lia.
Defined.

(** X4: [norm_input_dz] never divides by zero and returns a finite value in
    -1 .. 1 for every calibration; it is 0 while the input is inside the dead
    zone around the trim. *)
Theorem norm_input_dz_unit (c : RC_Channel) :
  is_int16 (radio_in c) -> is_int16 (radio_min c) -> is_int16 (radio_max c) ->
  let dz_min := to_int16 (radio_trim c - dead_zone c) in
  let dz_max := to_int16 (radio_trim c + dead_zone c) in
  exists y : Q,
    norm_input_dz c = Finite y
    /\ -1 <= y <= 1
    /\ ((dz_min <= radio_in c <= dz_max)%Z -> y == 0).
Proof.
  intros Hin Hmin Hmax dz_min dz_max.
  pose proof (reverse_mul_unit c) as Hm.
  pose proof (to_int16_range (radio_trim c - dead_zone c)) as Hlo.
  pose proof (to_int16_range (radio_trim c + dead_zone c)) as Hhi.
  fold dz_min in Hlo. fold dz_max in Hhi.
  unfold is_int16 in *. change (2 ^ 15)%Z with 32768%Z in *.
  unfold norm_input_dz. fold dz_min dz_max.
  destruct ((radio_in c <? dz_min)%Z && (dz_min >? radio_min c)%Z) eqn:Elow.
  - apply andb_true_iff in Elow. destruct Elow as [E1 E2].
    apply Z.ltb_lt in E1. rewrite Z.gtb_ltb in E2. apply Z.ltb_lt in E2.
    destruct (norm_clamped _ (radio_in c - dz_min) (dz_min - radio_min c) Hm)
      as [y (Ey & Hy & _)];
      [change (2 ^ 16)%Z with 65536%Z; lia | change (2 ^ 16)%Z with 65536%Z; lia |].
    exists y. split; [exact Ey|]. split; [exact Hy|]. intros; lia.
  - destruct ((radio_in c >? dz_max)%Z && (radio_max c >? dz_max)%Z) eqn:Ehigh.
    + apply andb_true_iff in Ehigh. destruct Ehigh as [E1 E2].
      rewrite Z.gtb_ltb in E1, E2. apply Z.ltb_lt in E1, E2.
      destruct (norm_clamped _ (radio_in c - dz_max) (radio_max c - dz_max) Hm)
        as [y (Ey & Hy & _)];
        [change (2 ^ 16)%Z with 65536%Z; lia | change (2 ^ 16)%Z with 65536%Z; lia |].
      exists y. split; [exact Ey|]. split; [exact Hy|]. intros; lia.
    + exists 0. repeat split; try reflexivity; discriminate.
Qed.

Lemma norm_input_dz_unit_witness :
  exists y : Q, norm_input_dz (example_channel 0 1500) = Finite y /\ y == 0.
Proof.
  destruct (norm_input_dz_unit (example_channel 0 1500)
              ltac:(cbv [is_int16 example_channel radio_in]; lia)
              ltac:(cbv [is_int16 example_channel radio_min]; lia)
              ltac:(cbv [is_int16 example_channel radio_max]; lia))
    as [y (Ey & _ & Hz)].
  exists y. split; [exact Ey|]. apply Hz. vm_compute. split; intros H; discriminate H.
Defined.

Lemma round_half : round (1 # 2) = 1 # 2.
Proof. vm_compute. reflexivity. Qed.

Lemma round_minus_one : round (-1) = -1.
Proof. vm_compute. reflexivity. Qed.

Lemma Qabs_bounds (x b : Q) : Qabs x <= b -> - b <= x /\ x <= b.
Proof. apply Qabs_case; intros Hs Hx; split; lra. Qed.

Lemma Qabs_of_bounds (x b : Q) : - b <= x -> x <= b -> Qabs x <= b.
Proof. intros Hlo Hhi. apply Qabs_case; intros _; lra. Qed.

Lemma round_ge_fixed (c x : Q) : round c = c -> c <= x -> c <= round x.
Proof. intros Hc Hx. rewrite <- Hc. apply round_monotone. exact Hx. Qed.

Lemma round_le_fixed (c x : Q) : round c = c -> x <= c -> round x <= c.
Proof. intros Hc Hx. rewrite <- Hc. apply round_monotone. exact Hx. Qed.

Lemma round_minus_half : round (- (1 # 2)) = - (1 # 2).
Proof. vm_compute. reflexivity. Qed.

(** The expression of [norm_input_ignore_trim] for the factor [k], 2 or -2,
    a numerator [a] and a positive denominator [d]. *)
Lemma ignore_trim_clamped (k : Q) (a d : Z) :
  k = 2 \/ k = -2 -> (- 2 ^ 16 < a < 2 ^ 16)%Z -> (0 < d < 2 ^ 16)%Z ->
  exists y : Q,
    constrain_float
      (mul (Finite k) (sub (div (of_int a) (of_int d)) (Finite (1 # 2))))
      (Finite (-1)) (Finite 1) = Finite y
    /\ -1 <= y <= 1
    /\ ((d <= a)%Z -> y == k / 2)
    /\ ((a <= 0)%Z -> y == - (k / 2))
    /\ ((2 * a = d)%Z -> y == 0).
Proof.
  intros Hk Ha Hd.
  change (2 ^ 16)%Z with 65536%Z in *.
  assert (H24 : (2 ^ 24 = 16777216)%Z) by reflexivity.
  assert (H32 : (2 ^ 32 = 4294967296)%Z) by reflexivity.
  assert (Hdq : 0 < inject_Z d) by (rewrite <- (Zlt_Qlt 0); lia).
  rewrite (of_int_exact a) by lia.
  destruct (div_int_finite (inject_Z a) d) as [Ediv _];
    [apply two32_bound with 65536%Z; [lia | apply Qabs_inject_Z_le; lia] | lia | lia |].
  rewrite Ediv. clear Ediv.
  set (q0 := inject_Z a / inject_Z d).
  assert (Hq0 : - inject_Z 65536 <= q0 /\ q0 <= inject_Z 65536).
  { subst q0. split.
    - apply Qle_shift_div_l; [exact Hdq|].
      rewrite <- (Qmult_le_l _ _ (inject_Z d)) by exact Hdq. 
      assert (H1 : inject_Z (-65536 * d) <= inject_Z a) by (rewrite <- Zle_Qle; nia).
      rewrite inject_Z_mult in H1. change (inject_Z (-65536)) with (- inject_Z 65536) in H1.
      nra.
    - apply Qle_shift_div_r; [exact Hdq|].
      assert (H1 : inject_Z a <= inject_Z (65536 * d)) by (rewrite <- Zle_Qle; nia).
      rewrite inject_Z_mult in H1. exact H1. }
  set (q1 := round q0).
  assert (Hq1 : Qabs q1 <= inject_Z 65536).
  { apply round_abs_bound; [lia|]. apply Qabs_of_bounds; tauto. }
  apply Qabs_bounds in Hq1.
  cbn [sub].
  rewrite of_Q_finite
    by (apply two32_bound with 65537%Z; [lia|];
        apply Qabs_of_bounds;
        change (inject_Z 65537) with (inject_Z 65536 + 1); lra).
  set (q2 := round (q1 - (1 # 2))).
  assert (Hq2 : Qabs q2 <= inject_Z 65537).
  { apply round_abs_bound; [lia|]. apply Qabs_of_bounds;
      change (inject_Z 65537) with (inject_Z 65536 + 1); lra. }
  apply Qabs_bounds in Hq2.
  rewrite mul_finite
    by (apply two32_bound with 131074%Z; [lia|];
        apply Qabs_of_bounds;
        change (inject_Z 131074) with (2 * inject_Z 65537);
        destruct Hk as [-> | ->]; lra).
  set (v := round (k * q2)).
  destruct (constrain_float_unit v) as [y (Ey & Hy & Hone & Hmone & Hid)].
  exists y. split; [exact Ey|]. split; [exact Hy|].
  assert (Hup : (d <= a)%Z -> 1 # 2 <= q2).
  { intros H. subst q2. apply round_ge_fixed; [exact round_half|].
    assert (H1 : 1 <= q1).
    { subst q1. apply round_ge_fixed; [exact round_one|]. subst q0.
      apply Qle_shift_div_l; [exact Hdq|]. rewrite Qmult_1_l, <- Zle_Qle. exact H. }
    lra. }
  assert (Hdown : (a <= 0)%Z -> q2 <= - (1 # 2)).
  { intros H. subst q2. apply round_le_fixed; [exact round_minus_half|].
    assert (H1 : q1 <= 0).
    { subst q1. apply round_nonpos. subst q0.
      apply Qle_shift_div_r; [exact Hdq|].
      rewrite Qmult_0_l. rewrite <- (Zle_Qle _ 0). exact H. }
    lra. }
  split; [|split].
  - intros H. specialize (Hup H). destruct Hk as [-> | ->].
    + rewrite Hone; [reflexivity|]. subst v.
      apply round_ge_fixed; [exact round_one | lra].
    + rewrite Hmone; [reflexivity|]. subst v.
      apply round_le_fixed; [exact round_minus_one | lra].
  - intros H. specialize (Hdown H). destruct Hk as [-> | ->].
    + rewrite Hmone; [reflexivity|]. subst v.
      apply round_le_fixed; [exact round_minus_one | lra].
    + rewrite Hone; [reflexivity|]. subst v.
      apply round_ge_fixed; [exact round_one | lra].
  - intros H.
    assert (E0 : q0 == 1 # 2).
    { subst q0. apply Qmult_inj_r with (inject_Z d); [lra|].
      rewrite Qmult_comm, Qmult_div_r by lra.
      rewrite <- H. rewrite inject_Z_mult. change (inject_Z 2) with 2. lra. }
    assert (E1 : q1 = 1 # 2).
    { subst q1. rewrite (round_comp _ _ E0). apply round_half. }
    assert (E2 : q2 = 0).
    { subst q2. rewrite E1. rewrite (round_comp _ 0); [apply round_zero | lra]. }
    assert (Ev : v = 0).
    { subst v. rewrite E2. rewrite (round_comp _ 0); [apply round_zero | lra]. }
    rewrite Hid; rewrite Ev; [reflexivity | split; discriminate].
Qed.

(** X5: [norm_input_ignore_trim] returns a finite value in -1 .. 1 for every
    calibration: 0 when [radio_max <= radio_min] (no division by zero) and
    at the exact middle of the travel, and 1 or -1 from the end points
    outwards, with the sign inverted on a reversed channel. *)
Theorem norm_input_ignore_trim_unit (c : RC_Channel) :
  is_int16 (radio_in c) -> is_int16 (radio_min c) -> is_int16 (radio_max c) ->
  let m := (if get_reverse c then -1 else 1)%Z in
  exists y : Q,
    norm_input_ignore_trim c = Finite y
    /\ -1 <= y <= 1
    /\ ((radio_max c <= radio_min c)%Z -> y == 0)
    /\ ((radio_min c < radio_max c)%Z -> (radio_max c <= radio_in c)%Z ->
        y == inject_Z m)
    /\ ((radio_min c < radio_max c)%Z -> (radio_in c <= radio_min c)%Z ->
        y == - inject_Z m)
    /\ ((radio_min c < radio_max c)%Z ->
        (2 * radio_in c = radio_min c + radio_max c)%Z -> y == 0).
Proof.
  intros Hin Hmin Hmax m.
  unfold is_int16 in *. change (2 ^ 15)%Z with 32768%Z in *.
  unfold norm_input_ignore_trim.
  destruct (radio_max c <=? radio_min c)%Z eqn:Edeg.
  - apply Z.leb_le in Edeg. exists 0.
    split; [reflexivity|]. split; [split; discriminate|].
    split; [reflexivity|]. repeat split; intros; lia.
  - apply Z.leb_gt in Edeg.
    assert (Ha : (- 2 ^ 16 < radio_in c - radio_min c < 2 ^ 16)%Z)
      by (change (2 ^ 16)%Z with 65536%Z; lia).
    assert (Hd : (0 < radio_max c - radio_min c < 2 ^ 16)%Z)
      by (change (2 ^ 16)%Z with 65536%Z; lia).
    subst m. destruct (get_reverse c).
    + destruct (ignore_trim_clamped (-2) _ _ (or_intror eq_refl) Ha Hd)
        as [y (Ey & Hy & Hhigh & Hlow & Hmid)].
      exists y. split; [exact Ey|]. split; [exact Hy|].
      split; [intros; lia|].
      split; [intros _ H; rewrite Hhigh by lia; reflexivity|].
      split; [intros _ H; rewrite Hlow by lia; reflexivity|].
      intros _ H. apply Hmid. lia.
    + destruct (ignore_trim_clamped 2 _ _ (or_introl eq_refl) Ha Hd)
        as [y (Ey & Hy & Hhigh & Hlow & Hmid)].
      exists y. split; [exact Ey|]. split; [exact Hy|].
      split; [intros; lia|].
      split; [intros _ H; rewrite Hhigh by lia; reflexivity|].
      split; [intros _ H; rewrite Hlow by lia; reflexivity|].
      intros _ H. apply Hmid. lia.
Qed.

Lemma norm_input_ignore_trim_unit_witness :
  exists y : Q, norm_input_ignore_trim (example_channel 0 1500) = Finite y /\ y == 0.
Proof.
  destruct (norm_input_ignore_trim_unit (example_channel 0 1500)
              ltac:(cbv [is_int16 example_channel radio_in]; lia)
              ltac:(cbv [is_int16 example_channel radio_min]; lia)
              ltac:(cbv [is_int16 example_channel radio_max]; lia))
    as [y (Ey & _ & _ & _ & _ & Hmid)].
  exists y. split; [exact Ey|].
  apply Hmid; cbv [example_channel radio_min radio_max radio_in]; lia.
Defined.

End Normalised.

(** ** Overrides *)

Section Overrides.

Local Open Scope Z_scope.

Lemma rc_override_enable_effect (cfg : Config) (env : Env) (p : AuxSwitchPos)
    (src : Source) (idx : Z) (s : State) :
  do_aux_function cfg env
    {| func := AUX_FUNC.RC_OVERRIDE_ENABLE; pos := p; source := src;
       source_index := idx |} s
  = (true, match p with
           | HIGH => snd (set_gcs_overrides_enabled env true s)
           | MIDDLE => s
           | LOW => snd (set_gcs_overrides_enabled env false s)
           end).
Proof. destruct p; reflexivity. Qed.

(** X6: the RC_OVERRIDE_ENABLE switch gates [set_override].  The function
    run at LOW leaves the overrides disabled, and [set_override] then
    changes nothing: no value, no timestamp, no new-override flag.  Run at
    HIGH it leaves them enabled, and [set_override] then records the value
    with the given timestamp, or the current time when the timestamp is 0,
    and raises the flag.  Run at MIDDLE it changes nothing at all.  This
    holds whatever [RC_Channels::set_gcs_overrides_enabled] does to the
    override that the channel already holds. *)
Theorem rc_override_enable_gates_set_override
    (cfg : Config) (env : Env) (src : Source) (idx : Z)
    (tnow_ms v timestamp_ms : Z) (s : State) :
  let switched p :=
    snd (do_aux_function cfg env
           {| func := AUX_FUNC.RC_OVERRIDE_ENABLE; pos := p; source := src;
              source_index := idx |} s) in
  let after p := snd (set_override tnow_ms v timestamp_ms (switched p)) in
  gcs_overrides_enabled (world (switched LOW)) = false
  /\ after LOW = switched LOW
  /\ gcs_overrides_enabled (world (switched HIGH)) = true
  /\ override_value (chan (after HIGH)) = v
  /\ last_override_time (chan (after HIGH))
     = (if timestamp_ms =? 0 then tnow_ms else timestamp_ms)
  /\ has_new_overrides (world (after HIGH)) = true
  /\ switched MIDDLE = s.
Proof.
  cbv beta zeta. rewrite !rc_override_enable_effect. cbn [snd].
  unfold set_override, set_gcs_overrides_enabled. cbn.
  repeat split.
  destruct (timestamp_ms =? 0); reflexivity.
Qed.

(** X7: [clear_override] ends an override whatever the timeout setting and
    the time: [has_override] answers false afterwards.  It leaves the input,
    the switch state and the [RC_Channels] flags as they were. *)
Theorem clear_override_ends_override (env : Env) (tnow_ms : Z) (s : State) :
  let s' := snd (clear_override s) in
  has_override env tnow_ms (chan s') = false
  /\ world s' = world s
  /\ radio_in (chan s') = radio_in (chan s)
  /\ control_in (chan s') = control_in (chan s)
  /\ switch_state (chan s') = switch_state (chan s).
Proof.
  cbv zeta. unfold clear_override. unfold_monad. cbn.
  repeat split.
Qed.

End Overrides.

(** ** Switch positions *)

Section SwitchPositions.

Local Open Scope Z_scope.

(** X8: [read_3pos_switch] on a reversed channel gives the opposite
    position of the one it gives on the same channel not reversed when
    ALLOW_SWITCH_REV is set, and the same position when it is not; a pulse
    width outside the limits is rejected either way, and
    [get_aux_switch_pos] then answers LOW, reversed or not. *)
Theorem read_3pos_switch_reversal (cfg : Config) (env : Env) (c : RC_Channel) (r : Z) :
  read_3pos_switch cfg env (with_reversed c r)
  = (if negb (r =? 0) && ALLOW_SWITCH_REV env
     then option_map mirror (read_3pos_switch cfg env (with_reversed c 0))
     else read_3pos_switch cfg env (with_reversed c 0))
  /\ (to_uint16 (radio_in c) <= RC_MIN_LIMIT_PWM cfg
      \/ RC_MAX_LIMIT_PWM cfg <= to_uint16 (radio_in c) ->
      read_3pos_switch cfg env (with_reversed c r) = None
      /\ get_aux_switch_pos cfg env (with_reversed c r) = LOW).
Proof.
  unfold get_aux_switch_pos, read_3pos_switch, get_radio_in. cbn.
  split.
  - destruct ((to_uint16 (radio_in c) <=? RC_MIN_LIMIT_PWM cfg)
              || (to_uint16 (radio_in c) >=? RC_MAX_LIMIT_PWM cfg));
      [destruct (negb (r =? 0) && ALLOW_SWITCH_REV env); reflexivity|].
    destruct (negb (r =? 0) && ALLOW_SWITCH_REV env);
      destruct (to_uint16 (radio_in c) <? AUX_SWITCH_PWM_TRIGGER_LOW cfg);
      try reflexivity;
      destruct (to_uint16 (radio_in c) >? AUX_SWITCH_PWM_TRIGGER_HIGH cfg);
      reflexivity.
  - intros Hout.
    assert ((to_uint16 (radio_in c) <=? RC_MIN_LIMIT_PWM cfg)
            || (to_uint16 (radio_in c) >=? RC_MAX_LIMIT_PWM cfg) = true) as ->.
    { apply orb_true_iff. rewrite Z.geb_leb.
      destruct Hout as [H | H]; [left | right]; apply Z.leb_le; exact H. }
    split; reflexivity.
Qed.

Lemma read_3pos_switch_reversal_witness :
  read_3pos_switch example_config (example_env None)
    (with_reversed (example_channel 0 700) 1) = None
  /\ get_aux_switch_pos example_config (example_env None)
       (with_reversed (example_channel 0 700) 1) = LOW.
Proof.
  apply (proj2 (read_3pos_switch_reversal example_config (example_env None)
                  (example_channel 0 700) 1)).
  left. vm_compute. discriminate.
Defined.



End SwitchPositions.

(** ** Reading the auxiliary switch *)

Section ReadAux.

Local Open Scope Z_scope.

Variable cfg : Config.
Variable env : Env.
Variable dispatch : AuxFuncTrigger -> M bool.

Lemma read_3pos_switch_outside (c : RC_Channel) :
  to_uint16 (radio_in c) <= RC_MIN_LIMIT_PWM cfg
  \/ RC_MAX_LIMIT_PWM cfg <= to_uint16 (radio_in c) ->
  read_3pos_switch cfg env c = None.
Proof.
  intros Hout. unfold read_3pos_switch, get_radio_in.
  assert ((to_uint16 (radio_in c) <=? RC_MIN_LIMIT_PWM cfg)
          || (to_uint16 (radio_in c) >=? RC_MAX_LIMIT_PWM cfg) = true) as ->.
  { apply orb_true_iff. rewrite Z.geb_leb.
    destruct Hout as [H | H]; [left | right]; apply Z.leb_le; exact H. }
  reflexivity.
Qed.

Lemma read_6pos_switch_outside (tnow_ms : Z) (s : State) :
  to_uint16 (radio_in (chan s)) <= RC_MIN_LIMIT_PWM cfg
  \/ RC_MAX_LIMIT_PWM cfg <= to_uint16 (radio_in (chan s)) ->
  read_6pos_switch cfg tnow_ms s = ((false, None), s).
Proof.
  intros Hout. unfold read_6pos_switch, get_radio_in. unfold bind at 1.
  unfold get_chan at 1.
  assert ((to_uint16 (radio_in (chan s)) <=? RC_MIN_LIMIT_PWM cfg)
          || (to_uint16 (radio_in (chan s)) >=? RC_MAX_LIMIT_PWM cfg) = true) as ->.
  { apply orb_true_iff. rewrite Z.geb_leb.
    destruct Hout as [H | H]; [left | right]; apply Z.leb_le; exact H. }
  reflexivity.
Qed.

(** X10: a pulse width at or below RC_MIN_LIMIT_PWM, or at or above
    RC_MAX_LIMIT_PWM, makes [read_aux] return false without running
    anything and without changing the state, for every option of the
    channel, whether the switch state is initialised or not. *)
Theorem read_aux_invalid_pulse (tnow_ms : Z) (s : State) :
  to_uint16 (radio_in (chan s)) <= RC_MIN_LIMIT_PWM cfg
  \/ RC_MAX_LIMIT_PWM cfg <= to_uint16 (radio_in (chan s)) ->
  read_aux cfg env dispatch tnow_ms s = (false, s).
Proof.
  intros Hout. unfold read_aux. unfold bind at 1. unfold get_chan at 1.
  cbv zeta.
  destruct (to_uint16 (option_ (chan s)) =? 0); [reflexivity|].
  destruct (AP_VIDEOTX_ENABLED cfg && (to_uint16 (option_ (chan s)) =? 94)).
  - unfold bind at 1. rewrite (read_6pos_switch_outside tnow_ms s Hout). reflexivity.
  - rewrite (read_3pos_switch_outside (chan s) Hout). reflexivity.
Qed.

End ReadAux.

Lemma read_aux_invalid_pulse_witness :
  read_aux example_config (example_env None)
    (do_aux_function example_config (example_env None)) 0
    (example_state AUX_FUNC.ARMDISARM 700)
  = (false, example_state AUX_FUNC.ARMDISARM 700).
Proof.
  apply read_aux_invalid_pulse. left. vm_compute. discriminate.
Defined.

Section HeldSwitch.

Local Open Scope Z_scope.

Variable cfg : Config.
Variable env : Env.
Variable dispatch : AuxFuncTrigger -> M bool.

Lemma quiet_refl (s : State) : quiet s s.
Proof. unfold quiet. auto. Qed.

Lemma quiet_trans (s1 s2 s3 : State) : quiet s1 s2 -> quiet s2 s3 -> quiet s1 s3.
Proof. unfold quiet. intros (A & B & C) (D & E & F). repeat split; congruence. Qed.

Lemma reads_as_quiet (s s' : State) (pwm : Z) (p : AuxSwitchPos) :
  quiet s s' -> reads_as cfg env s pwm p -> reads_as cfg env s' pwm p.
Proof.
  unfold quiet, reads_as, read_3pos_switch, get_radio_in. cbn.
  intros (_ & Hrev & _). rewrite Hrev. auto.
Qed.

Lemma read_aux_samples_app (l1 l2 : list (Z * Z)) (s : State) :
  read_aux_samples cfg env dispatch (l1 ++ l2) s
  = (fst (read_aux_samples cfg env dispatch l1 s)
       ++ fst (read_aux_samples cfg env dispatch l2
                 (snd (read_aux_samples cfg env dispatch l1 s))),
     snd (read_aux_samples cfg env dispatch l2
            (snd (read_aux_samples cfg env dispatch l1 s)))).
Proof.
  revert s. induction l1 as [|[t pwm] l1 IH]; intros s; cbn [app read_aux_samples].
  - cbn [fst snd]. destruct (read_aux_samples cfg env dispatch l2 s); reflexivity.
  - destruct (read_aux cfg env dispatch t (receive s pwm)) as [r s1].
    rewrite (IH s1).
    destruct (read_aux_samples cfg env dispatch l1 s1) as [rs s2]. reflexivity.
Qed.

(** One read of the latched position. *)
Lemma read_aux_latched (tnow_ms pwm : Z) (s : State) (q : AuxSwitchPos) :
  option_id (chan s) <> AUX_FUNC.DO_NOTHING ->
  is_6pos_special_case cfg (option_id (chan s)) = false ->
  initialised (switch_of s) = true ->
  current_position (switch_of s) = position_of q ->
  reads_as cfg env s pwm q ->
  read_aux cfg env dispatch tnow_ms (receive s pwm)
  = (false, with_switch_state (receive s pwm)
              (with_debounce_position (switch_of s) (position_of q))).
Proof.
  intros Hopt Hvtx Hinit Hcur Hread.
  rewrite (read_aux_initialised cfg env dispatch tnow_ms (receive s pwm) q);
    [| exact Hopt | exact Hvtx | exact Hread | exact Hinit].
  rewrite debounce_completed_cases. cbv zeta.
  change (switch_of (receive s pwm)) with (switch_of s).
  rewrite Hcur, Z.eqb_refl. reflexivity.
Qed.

(** Reads of the latched position, one after the other. *)
Lemma read_aux_samples_latched (q : AuxSwitchPos) (samples : list (Z * Z)) :
  forall s : State,
    option_id (chan s) <> AUX_FUNC.DO_NOTHING ->
    is_6pos_special_case cfg (option_id (chan s)) = false ->
    initialised (switch_of s) = true ->
    current_position (switch_of s) = position_of q ->
    Forall (fun sample => reads_as cfg env s (snd sample) q) samples ->
    let out := read_aux_samples cfg env dispatch samples s in
    fst out = repeat false (length samples)
    /\ quiet s (snd out)
    /\ initialised (switch_of (snd out)) = true
    /\ current_position (switch_of (snd out)) = position_of q
    /\ (samples <> [] -> debounce_position (switch_of (snd out)) = position_of q).
Proof.
  induction samples as [|[t pwm] rest IH]; intros s Hopt Hvtx Hinit Hcur Hall; cbv zeta.
  - cbn. repeat split; try assumption. congruence.
  - inversion Hall as [|x l Hhead Hrest]; subst x l. cbn [snd] in Hhead.
    cbn [read_aux_samples].
    rewrite (read_aux_latched t pwm s q Hopt Hvtx Hinit Hcur Hhead).
    set (s1 := with_switch_state (receive s pwm)
                 (with_debounce_position (switch_of s) (position_of q))).
    assert (Hq1 : quiet s s1) by (unfold quiet; cbn; auto).
    assert (Hrest1 : Forall (fun sample => reads_as cfg env s1 (snd sample) q) rest).
    { eapply Forall_impl; [|exact Hrest]. intros a Ha.
      exact (reads_as_quiet s s1 _ _ Hq1 Ha). }
    specialize (IH s1 Hopt Hvtx Hinit Hcur Hrest1). cbv zeta in IH.
    destruct (read_aux_samples cfg env dispatch rest s1) as [rs s2] eqn:Eout.
    cbn [fst snd] in *.
    destruct IH as (Hrs & Hq2 & Hi2 & Hc2 & Hd2).
    split; [cbn; rewrite Hrs; reflexivity|].
    split; [exact (quiet_trans _ _ _ Hq1 Hq2)|].
    split; [exact Hi2|]. split; [exact Hc2|].
    intros _. destruct rest as [|a rest'].
    + cbn in Eout. inversion Eout; subst rs s2. reflexivity.
    + apply Hd2. discriminate.
Qed.

(** Reads of a candidate position that is not yet 200 ms old. *)
Lemma read_aux_samples_pending (q1 : AuxSwitchPos) (cur edge : Z)
    (samples : list (Z * Z)) :
  forall s : State,
    option_id (chan s) <> AUX_FUNC.DO_NOTHING ->
    is_6pos_special_case cfg (option_id (chan s)) = false ->
    switch_of s = switch_state_of (position_of q1) cur edge true ->
    cur <> position_of q1 ->
    Forall (fun sample => reads_as cfg env s (snd sample) q1
                          /\ sub_uint32 (fst sample) edge < 200) samples ->
    let out := read_aux_samples cfg env dispatch samples s in
    fst out = repeat false (length samples)
    /\ quiet s (snd out)
    /\ switch_of (snd out) = switch_of s.
Proof.
  induction samples as [|[t pwm] rest IH]; intros s Hopt Hvtx Hss Hcur Hall; cbv zeta.
  - cbn. repeat split; apply quiet_refl.
  - inversion Hall as [|x l [Hhead Htime] Hrest]; subst x l.
    cbn [fst snd] in Hhead, Htime.
    cbn [read_aux_samples].
    destruct (read_aux_confirm cfg env dispatch t (receive s pwm) q1 cur edge
                Hopt Hvtx Hhead Hss Hcur) as [_ Hwait].
    rewrite (Hwait Htime).
    assert (Hq1 : quiet s (receive s pwm)) by (unfold quiet; cbn; auto).
    assert (Hrest1 : Forall (fun sample => reads_as cfg env (receive s pwm) (snd sample) q1
                                           /\ sub_uint32 (fst sample) edge < 200) rest).
    { eapply Forall_impl; [|exact Hrest]. intros a [Ha Hb].
      split; [exact (reads_as_quiet s _ _ _ Hq1 Ha) | exact Hb]. }
    specialize (IH (receive s pwm) Hopt Hvtx Hss Hcur Hrest1). cbv zeta in IH.
    destruct (read_aux_samples cfg env dispatch rest (receive s pwm)) as [rs s2].
    cbn [fst snd] in *.
    destruct IH as (Hrs & Hq2 & Hs2).
    split; [cbn; rewrite Hrs; reflexivity|].
    split; [exact (quiet_trans _ _ _ Hq1 Hq2)|].
    exact Hs2.
Qed.

(** Such reads leave of the channel everything but the pulse width. *)
Lemma read_aux_samples_pending_chan (q1 : AuxSwitchPos) (cur edge : Z)
    (samples : list (Z * Z)) :
  forall s : State,
    option_id (chan s) <> AUX_FUNC.DO_NOTHING ->
    is_6pos_special_case cfg (option_id (chan s)) = false ->
    switch_of s = switch_state_of (position_of q1) cur edge true ->
    cur <> position_of q1 ->
    Forall (fun sample => reads_as cfg env s (snd sample) q1
                          /\ sub_uint32 (fst sample) edge < 200) samples ->
    forall (pwm : Z) (ss : switch_state_t),
      set_switch_state
        (with_radio_in (chan (snd (read_aux_samples cfg env dispatch samples s))) pwm) ss
      = set_switch_state (with_radio_in (chan s) pwm) ss.
Proof.
  induction samples as [|[t pwm0] rest IH]; intros s Hopt Hvtx Hss Hcur Hall pwm ss.
  - reflexivity.
  - inversion Hall as [|x l [Hhead Htime] Hrest]; subst x l.
    cbn [fst snd] in Hhead, Htime.
    cbn [read_aux_samples].
    destruct (read_aux_confirm cfg env dispatch t (receive s pwm0) q1 cur edge
                Hopt Hvtx Hhead Hss Hcur) as [_ Hwait].
    rewrite (Hwait Htime).
    assert (Hq1 : quiet s (receive s pwm0)) by (unfold quiet; cbn; auto).
    assert (Hrest1 : Forall (fun sample => reads_as cfg env (receive s pwm0) (snd sample) q1
                                           /\ sub_uint32 (fst sample) edge < 200) rest).
    { eapply Forall_impl; [|exact Hrest]. intros a [Ha Hb].
      split; [exact (reads_as_quiet s _ _ _ Hq1 Ha) | exact Hb]. }
    specialize (IH (receive s pwm0) Hopt Hvtx Hss Hcur Hrest1 pwm ss).
    destruct (read_aux_samples cfg env dispatch rest (receive s pwm0)) as [rs s2].
    cbn [fst snd] in *. rewrite IH. reflexivity.
Qed.

(** X11: a switch that stays where it is never runs its function again.
    On a channel whose latched position is [q], any number of reads that
    classify as [q] all return false, change nothing outside the channel
    and keep [q] latched, however the times of the reads are spaced. *)
Theorem read_aux_held_switch (q : AuxSwitchPos) (samples : list (Z * Z)) (s : State) :
  option_id (chan s) <> AUX_FUNC.DO_NOTHING ->
  is_6pos_special_case cfg (option_id (chan s)) = false ->
  initialised (switch_of s) = true ->
  current_position (switch_of s) = position_of q ->
  Forall (fun sample => reads_as cfg env s (snd sample) q) samples ->
  let out := read_aux_samples cfg env dispatch samples s in
  fst out = repeat false (length samples)
  /\ world (snd out) = world s
  /\ current_position (switch_of (snd out)) = position_of q.
Proof.
  intros Hopt Hvtx Hinit Hcur Hall.
  destruct (read_aux_samples_latched q samples s Hopt Hvtx Hinit Hcur Hall)
    as (Hrs & (_ & _ & Hw) & _ & Hc & _).
  cbv zeta. auto.
Qed.

(** X12: an excursion shorter than the debounce time never runs the
    function.  On a channel settled at [q0], a read that classifies as
    another position [q1] at time [t1], any number of further reads of [q1]
    less than 200 ms after [t1], and then any number of reads back at [q0],
    all return false; nothing outside the channel changes and [q0] stays
    latched. *)
Theorem read_aux_short_excursion (q0 q1 : AuxSwitchPos) (t1 pwm1 : Z)
    (excursion back : list (Z * Z)) (s : State) :
  option_id (chan s) <> AUX_FUNC.DO_NOTHING ->
  is_6pos_special_case cfg (option_id (chan s)) = false ->
  initialised (switch_of s) = true ->
  current_position (switch_of s) = position_of q0 ->
  debounce_position (switch_of s) = position_of q0 ->
  q1 <> q0 ->
  reads_as cfg env s pwm1 q1 ->
  Forall (fun sample => reads_as cfg env s (snd sample) q1
                        /\ sub_uint32 (fst sample) t1 < 200) excursion ->
  Forall (fun sample => reads_as cfg env s (snd sample) q0) back ->
  let samples := (t1, pwm1) :: excursion ++ back in
  let out := read_aux_samples cfg env dispatch samples s in
  fst out = repeat false (length samples)
  /\ world (snd out) = world s
  /\ current_position (switch_of (snd out)) = position_of q0.
Proof.
  intros Hopt Hvtx Hinit Hcur Hdeb Hneq Hfirst Hexc Hback. cbv zeta.
  assert (Hpos : position_of q0 <> position_of q1).
  { intros H. apply position_of_inj in H. congruence. }
  cbn [read_aux_samples].
  assert (Hss : switch_of (receive s pwm1)
                = switch_state_of (position_of q0) (position_of q0)
                    (last_edge_time_ms (switch_of s)) true).
  { change (switch_of (receive s pwm1)) with (switch_of s).
    destruct (switch_of s) as [d c e i]. cbn in *. subst. reflexivity. }
  rewrite (read_aux_pending cfg env dispatch t1 (receive s pwm1) q1
             (position_of q0) (position_of q0) (last_edge_time_ms (switch_of s))
             Hopt Hvtx Hfirst Hss Hpos Hpos).
  set (s1 := with_switch_state (receive s pwm1)
               (switch_state_of (position_of q1) (position_of q0) t1 true)).
  assert (Hq1 : quiet s s1) by (unfold quiet; cbn; auto).
  rewrite read_aux_samples_app.
  assert (Hexc1 : Forall (fun sample => reads_as cfg env s1 (snd sample) q1
                                        /\ sub_uint32 (fst sample) t1 < 200) excursion).
  { eapply Forall_impl; [|exact Hexc]. intros a [Ha Hb].
    split; [exact (reads_as_quiet s s1 _ _ Hq1 Ha) | exact Hb]. }
  destruct (read_aux_samples_pending q1 (position_of q0) t1 excursion s1
              Hopt Hvtx eq_refl Hpos Hexc1) as (Hrs2 & Hq2 & Hs2).
  set (s2 := snd (read_aux_samples cfg env dispatch excursion s1)) in *.
  assert (Hq12 : quiet s s2) by exact (quiet_trans _ _ _ Hq1 Hq2).
  assert (Hback2 : Forall (fun sample => reads_as cfg env s2 (snd sample) q0) back).
  { eapply Forall_impl; [|exact Hback]. intros a Ha.
    exact (reads_as_quiet s s2 _ _ Hq12 Ha). }
  assert (Hopt2 : option_id (chan s2) <> AUX_FUNC.DO_NOTHING).
  { destruct Hq12 as (E & _). unfold option_id. rewrite E. exact Hopt. }
  assert (Hvtx2 : is_6pos_special_case cfg (option_id (chan s2)) = false).
  { destruct Hq12 as (E & _). unfold option_id. rewrite E. exact Hvtx. }
  destruct (read_aux_samples_latched q0 back s2 Hopt2 Hvtx2
              ltac:(rewrite Hs2; reflexivity) ltac:(rewrite Hs2; reflexivity) Hback2)
    as (Hrs3 & Hq3 & _ & Hc3 & _).
  cbn [fst snd]. rewrite Hrs2, Hrs3.
  split.
  - cbn [length]. rewrite length_app. cbn [repeat]. rewrite repeat_app. reflexivity.
  - split; [|exact Hc3].
    destruct (quiet_trans _ _ _ Hq12 Hq3) as (_ & _ & Hw). exact Hw.
Qed.

End HeldSwitch.

Lemma read_aux_held_switch_witness :
  fst (read_aux_samples example_config (example_env None)
         (do_aux_function example_config (example_env None))
         [(0, 1000); (20, 1010)] (settled_low AUX_FUNC.FENCE))
  = [false; false].
Proof.
  refine (proj1 (read_aux_held_switch example_config (example_env None)
                   (do_aux_function example_config (example_env None))
                   LOW [(0, 1000); (20, 1010)] (settled_low AUX_FUNC.FENCE)
                   _ _ _ _ _)).
  - vm_compute. discriminate.
  - reflexivity.
  - reflexivity.
  - reflexivity.
  - repeat (apply Forall_cons; [reflexivity|]). apply Forall_nil.
Defined.

Lemma read_aux_short_excursion_witness :
  fst (read_aux_samples example_config (example_env None)
         (do_aux_function example_config (example_env None))
         [(1000, 1900); (1100, 1900); (1250, 1000)] (settled_low AUX_FUNC.FENCE))
  = [false; false; false].
Proof.
  refine (proj1 (read_aux_short_excursion example_config (example_env None)
                   (do_aux_function example_config (example_env None))
                   LOW HIGH 1000 1900 [(1100, 1900)] [(1250, 1000)]
                   (settled_low AUX_FUNC.FENCE) _ _ _ _ _ _ _ _ _)).
  - vm_compute. discriminate.
  - reflexivity.
  - reflexivity.
  - reflexivity.
  - reflexivity.
  - discriminate.
  - reflexivity.
  - apply Forall_cons; [split; reflexivity | apply Forall_nil].
  - apply Forall_cons; [reflexivity | apply Forall_nil].
Defined.

(** ** The 6-position paths *)

Section SixPositions.

Local Open Scope Z_scope.

Variable cfg : Config.

Lemma six_pos_band_range (pw : Z) : 0 <= six_pos_band pw <= 5.
Proof.
  unfold six_pos_band.
  repeat match goal with
         | |- context [if ?b then _ else _] => destruct b
         end; lia.
Qed.

Lemma read_6pos_switch_inside (tnow_ms : Z) (s : State) :
  RC_MIN_LIMIT_PWM cfg < to_uint16 (radio_in (chan s)) < RC_MAX_LIMIT_PWM cfg ->
  read_6pos_switch cfg tnow_ms s
  = ((fst (debounce_completed tnow_ms (six_pos_band (to_uint16 (radio_in (chan s)))) s),
      Some (six_pos_band (to_uint16 (radio_in (chan s))))),
     snd (debounce_completed tnow_ms (six_pos_band (to_uint16 (radio_in (chan s)))) s)).
Proof.
  intros Hin. unfold read_6pos_switch, get_radio_in. unfold bind at 1.
  unfold get_chan at 1.
  assert ((to_uint16 (radio_in (chan s)) <=? RC_MIN_LIMIT_PWM cfg)
          || (to_uint16 (radio_in (chan s)) >=? RC_MAX_LIMIT_PWM cfg) = false) as ->.
  { apply orb_false_iff. rewrite Z.geb_leb. split; apply Z.leb_gt; lia. }
  fold (six_pos_band (to_uint16 (radio_in (chan s)))).
  unfold bind.
  destruct (debounce_completed tnow_ms (six_pos_band (to_uint16 (radio_in (chan s)))) s)
    as [[|] s1]; reflexivity.
Qed.

Lemma read_6pos_switch_outside_limits (tnow_ms : Z) (s : State) :
  ~ (RC_MIN_LIMIT_PWM cfg < to_uint16 (radio_in (chan s)) < RC_MAX_LIMIT_PWM cfg) ->
  read_6pos_switch cfg tnow_ms s = ((false, None), s).
Proof.
  intros Hout. unfold read_6pos_switch, get_radio_in. unfold bind at 1.
  unfold get_chan at 1.
  assert ((to_uint16 (radio_in (chan s)) <=? RC_MIN_LIMIT_PWM cfg)
          || (to_uint16 (radio_in (chan s)) >=? RC_MAX_LIMIT_PWM cfg) = true) as ->.
  { apply orb_true_iff. rewrite Z.geb_leb.
    destruct (Z.le_gt_cases (to_uint16 (radio_in (chan s))) (RC_MIN_LIMIT_PWM cfg));
      [left; apply Z.leb_le; assumption|].
    right. apply Z.leb_le. lia. }
  reflexivity.
Qed.

Lemma debounce_completed_world (tnow_ms p : Z) (s : State) :
  world (snd (debounce_completed tnow_ms p s)) = world s.
Proof.
  rewrite debounce_completed_cases. cbv zeta.
  repeat match goal with
         | |- context [if ?b then _ else _] => destruct b
         end; reflexivity.
Qed.

Lemma debounce_completed_true (tnow_ms p : Z) (s : State) :
  fst (debounce_completed tnow_ms p s) = true ->
  snd (debounce_completed tnow_ms p s)
  = with_switch_state s (with_current_position (switch_of s) p).
Proof.
  rewrite debounce_completed_cases. cbv zeta.
  repeat match goal with
         | |- context [if ?b then _ else _] => destruct b
         end; cbn [fst snd]; intros H; try discriminate H; reflexivity.
Qed.

(** [read_aux] on the 6-position path of VTX_POWER. *)
Lemma read_aux_vtx_equation (env : Env) (d : AuxFuncTrigger -> M bool)
    (tnow_ms : Z) (s : State) :
  AP_VIDEOTX_ENABLED cfg = true ->
  option_id (chan s) = AUX_FUNC.VTX_POWER ->
  read_aux cfg env d tnow_ms s
  = match read_6pos_switch cfg tnow_ms s with
    | ((true, Some position), s1) =>
        (true, snd (emit (VTX_change_power position) s1))
    | (_, s1) => (false, s1)
    end.
Proof.
  intros Hvtx Hopt. unfold option_id in Hopt.
  unfold read_aux. unfold bind at 1. unfold get_chan at 1.
  cbv zeta. rewrite Hopt, Hvtx. cbn [Z.eqb Pos.eqb andb]. unfold bind at 1.
  destruct (read_6pos_switch cfg tnow_ms s) as [[[|] [position|]] s1]; reflexivity.
Qed.

Lemma read_6pos_switch_world (tnow_ms : Z) (s : State) :
  world (snd (read_6pos_switch cfg tnow_ms s)) = world s.
Proof.
  destruct (Z_lt_dec (RC_MIN_LIMIT_PWM cfg) (to_uint16 (radio_in (chan s)))) as [Hlo|Hlo];
    [destruct (Z_lt_dec (to_uint16 (radio_in (chan s))) (RC_MAX_LIMIT_PWM cfg)) as [Hhi|Hhi]|].
  - rewrite (read_6pos_switch_inside tnow_ms s (conj Hlo Hhi)). cbn [snd].
    apply debounce_completed_world.
  - rewrite read_6pos_switch_outside_limits by lia. reflexivity.
  - rewrite read_6pos_switch_outside_limits by lia. reflexivity.
Qed.

(** X13: on the VTX_POWER option, where video transmitters are compiled
    in, [read_aux] never calls the auxiliary-function dispatcher.  When it
    returns true it has asked the transmitter for the power level of the
    debounced 6-position band, a number from 0 to 5, which is then the
    latched position; when it returns false nothing outside the channel
    changed. *)
Theorem read_aux_vtx_power (env : Env) (d1 d2 : AuxFuncTrigger -> M bool)
    (tnow_ms : Z) (s : State) :
  AP_VIDEOTX_ENABLED cfg = true ->
  option_id (chan s) = AUX_FUNC.VTX_POWER ->
  read_aux cfg env d1 tnow_ms s = read_aux cfg env d2 tnow_ms s
  /\ (fst (read_aux cfg env d1 tnow_ms s) = true ->
      exists position : Z,
        0 <= position <= 5
        /\ events (world (snd (read_aux cfg env d1 tnow_ms s)))
           = events (world s) ++ [VTX_change_power position]
        /\ current_position (switch_of (snd (read_aux cfg env d1 tnow_ms s)))
           = position)
  /\ (fst (read_aux cfg env d1 tnow_ms s) = false ->
      world (snd (read_aux cfg env d1 tnow_ms s)) = world s).
Proof.
  intros Hvtx Hopt.
  split; [rewrite (read_aux_vtx_equation env d1 tnow_ms s Hvtx Hopt),
            (read_aux_vtx_equation env d2 tnow_ms s Hvtx Hopt); reflexivity|].
  rewrite (read_aux_vtx_equation env d1 tnow_ms s Hvtx Hopt).
  destruct (Z_lt_dec (RC_MIN_LIMIT_PWM cfg) (to_uint16 (radio_in (chan s)))) as [Hlo|Hlo];
    [destruct (Z_lt_dec (to_uint16 (radio_in (chan s))) (RC_MAX_LIMIT_PWM cfg)) as [Hhi|Hhi]|].
  - rewrite (read_6pos_switch_inside tnow_ms s (conj Hlo Hhi)).
    set (position := six_pos_band (to_uint16 (radio_in (chan s)))).
    pose proof (debounce_completed_world tnow_ms position s) as Hw.
    pose proof (debounce_completed_true tnow_ms position s) as Ht.
    destruct (debounce_completed tnow_ms position s) as [[|] s1]; cbn [fst snd] in *.
    + split; [|discriminate]. intros _. exists position.
      split; [apply six_pos_band_range|].
      rewrite (Ht eq_refl). split; reflexivity.
    + split; [discriminate|]. intros _. exact Hw.
  - rewrite read_6pos_switch_outside_limits by lia. cbn [fst snd].
    split; [discriminate | reflexivity].
  - rewrite read_6pos_switch_outside_limits by lia. cbn [fst snd].
    split; [discriminate | reflexivity].
Qed.

(** X14: [reset_mode_switch] never reports a mode by itself: whatever the
    pulse width, it returns without calling [mode_switch_changed] and
    without changing anything outside the channel.  With a pulse width
    inside the limits, the first [read_mode_switch] at least 200 ms later
    that finds the switch in the same band reports that band, even though
    the switch has not moved. *)
Theorem reset_mode_switch_defers (mode_switch_changed : Z -> M unit)
    (tnow_ms later_ms : Z) (s : State) :
  let s1 := snd (reset_mode_switch cfg mode_switch_changed tnow_ms s) in
  let band := six_pos_band (to_uint16 (radio_in (chan s))) in
  (forall other : Z -> M unit,
      reset_mode_switch cfg other tnow_ms s = (tt, s1))
  /\ world s1 = world s
  /\ (RC_MIN_LIMIT_PWM cfg < to_uint16 (radio_in (chan s)) < RC_MAX_LIMIT_PWM cfg ->
      200 <= sub_uint32 later_ms tnow_ms ->
      read_mode_switch cfg mode_switch_changed later_ms s1
      = mode_switch_changed band
          (with_switch_state s
             (switch_state_of band band tnow_ms (initialised (switch_of s))))).
Proof.
  cbv zeta.
  set (s0 := with_switch_state s
               (switch_state_of (-1) (-1) (last_edge_time_ms (switch_of s))
                  (initialised (switch_of s)))).
  assert (Hreset : forall other,
            reset_mode_switch cfg other tnow_ms s = read_mode_switch cfg other tnow_ms s0).
  { intros other. reflexivity. }
  assert (Hband : forall pw, six_pos_band pw <> -1).
  { intros pw. pose proof (six_pos_band_range pw). lia. }
  destruct (Z_lt_dec (RC_MIN_LIMIT_PWM cfg) (to_uint16 (radio_in (chan s)))) as [Hlo|Hlo];
    [destruct (Z_lt_dec (to_uint16 (radio_in (chan s))) (RC_MAX_LIMIT_PWM cfg)) as [Hhi|Hhi]|].
  - assert (Hrun : forall other,
              reset_mode_switch cfg other tnow_ms s
              = (tt, with_switch_state s
                       (switch_state_of (six_pos_band (to_uint16 (radio_in (chan s))))
                          (-1) tnow_ms (initialised (switch_of s))))).
    { intros other. rewrite Hreset. unfold read_mode_switch. unfold bind.
      rewrite (read_6pos_switch_inside tnow_ms s0 (conj Hlo Hhi)).
      rewrite debounce_completed_cases. cbv zeta.
      change (radio_in (chan s0)) with (radio_in (chan s)).
      specialize (Hband (to_uint16 (radio_in (chan s)))).
      cbn [switch_of s0 with_switch_state chan set_switch_state switch_state
           switch_state_of current_position debounce_position].
      assert ((-1 =? six_pos_band (to_uint16 (radio_in (chan s)))) = false) as ->
        by (apply Z.eqb_neq; lia).
      cbn [negb fst snd]. reflexivity. }
    split; [|split].
    + intros other. rewrite (Hrun other), (Hrun mode_switch_changed). reflexivity.
    + rewrite (Hrun mode_switch_changed). reflexivity.
    + intros _ Hlater. rewrite (Hrun mode_switch_changed). cbn [snd].
      unfold read_mode_switch. unfold bind.
      rewrite read_6pos_switch_inside by (cbn; lia).
      rewrite debounce_completed_cases. cbv zeta.
      specialize (Hband (to_uint16 (radio_in (chan s)))).
      cbn [switch_of with_switch_state chan set_switch_state switch_state
           switch_state_of current_position debounce_position last_edge_time_ms radio_in].
      assert ((-1 =? six_pos_band (to_uint16 (radio_in (chan s)))) = false) as ->
        by (apply Z.eqb_neq; lia).
      rewrite Z.eqb_refl. cbn [negb].
      assert ((sub_uint32 later_ms tnow_ms >=? SWITCH_DEBOUNCE_TIME_MS) = true) as ->
        by (apply Z.geb_le; exact Hlater).
      cbn [fst snd]. reflexivity.
  - assert (Hrun : forall other, reset_mode_switch cfg other tnow_ms s = (tt, s0)).
    { intros other. rewrite Hreset. unfold read_mode_switch. unfold bind.
      rewrite read_6pos_switch_outside_limits by (cbn; lia). reflexivity. }
    split; [|split].
    + intros other. rewrite (Hrun other), (Hrun mode_switch_changed). reflexivity.
    + rewrite (Hrun mode_switch_changed). reflexivity.
    + intros Hin. lia.
  - assert (Hrun : forall other, reset_mode_switch cfg other tnow_ms s = (tt, s0)).
    { intros other. rewrite Hreset. unfold read_mode_switch. unfold bind.
      rewrite read_6pos_switch_outside_limits by (cbn; lia). reflexivity. }
    split; [|split].
    + intros other. rewrite (Hrun other), (Hrun mode_switch_changed). reflexivity.
    + rewrite (Hrun mode_switch_changed). reflexivity.
    + intros Hin. lia.
Qed.

End SixPositions.

Lemma read_aux_vtx_power_witness :
  read_aux example_config (example_env None)
    (do_aux_function example_config (example_env None)) 0
    (example_state AUX_FUNC.VTX_POWER 1500)
  = read_aux example_config (example_env None) (fun _ => ret false) 0
      (example_state AUX_FUNC.VTX_POWER 1500).
Proof.
  exact (proj1 (read_aux_vtx_power example_config (example_env None)
                  (do_aux_function example_config (example_env None))
                  (fun _ => ret false) 0 (example_state AUX_FUNC.VTX_POWER 1500)
                  eq_refl eq_refl)).
Defined.

Lemma reset_mode_switch_defers_witness :
  read_mode_switch example_config (fun _ => ret tt) 200
    (snd (reset_mode_switch example_config (fun _ => ret tt) 0
            (example_state AUX_FUNC.DO_NOTHING 1500)))
  = (tt, with_switch_state (example_state AUX_FUNC.DO_NOTHING 1500)
           (switch_state_of 3 3 0 false)).
Proof.
  refine (proj2 (proj2 (reset_mode_switch_defers example_config (fun _ => ret tt)
                          0 200 (example_state AUX_FUNC.DO_NOTHING 1500))) _ _).
  - vm_compute. split; reflexivity.
  - vm_compute. discriminate.
Defined.

(** ** Looking up and converting options *)

Section Lookup.

Local Open Scope Z_scope.

Lemma find_channel_from_spec (channels : list RC_Channel) (f : Z) :
  forall i : nat,
    match find_channel_from i channels f with
    | Some k =>
        exists (j : nat) (c : RC_Channel),
          k = (i + j)%nat /\ nth_error channels j = Some c /\ option_id c = f
          /\ (forall (j' : nat) (c' : RC_Channel),
                 (j' < j)%nat -> nth_error channels j' = Some c' -> option_id c' <> f)
    | None => forall c : RC_Channel, In c channels -> option_id c <> f
    end.
Proof.
  induction channels as [|c rest IH]; intros i; cbn [find_channel_from].
  - intros c [].
  - destruct (to_uint16 (option_ c) =? f) eqn:E.
    + apply Z.eqb_eq in E. exists 0%nat, c.
      repeat split; [lia | exact E |]. intros j' c' Hlt. lia.
    + apply Z.eqb_neq in E. specialize (IH (S i)).
      destruct (find_channel_from (S i) rest f) as [k|].
      * destruct IH as (j & c0 & Hk & Hnth & Hid & Hfirst).
        exists (S j), c0. repeat split; [lia | exact Hnth | exact Hid |].
        intros [|j'] c' Hlt Hn; cbn in Hn.
        -- inversion Hn; subst c'. exact E.
        -- apply (Hfirst j' c'); [lia | exact Hn].
      * intros c' [-> | Hin]; [exact E | exact (IH c' Hin)].
Qed.

(** X15: [find_channel_for_option] returns the first channel holding the
    option: the channel it names holds it and no channel before it does;
    it returns [nullptr] exactly when no channel holds the option. *)
Theorem find_channel_for_option_first (channels : list RC_Channel) (f : Z) :
  (forall i : nat,
      find_channel_for_option channels f = Some i ->
      (exists c : RC_Channel, nth_error channels i = Some c /\ option_id c = f)
      /\ (forall (j : nat) (c' : RC_Channel),
             (j < i)%nat -> nth_error channels j = Some c' -> option_id c' <> f))
  /\ (find_channel_for_option channels f = None
      <-> forall c : RC_Channel, In c channels -> option_id c <> f).
Proof.
  unfold find_channel_for_option.
  pose proof (find_channel_from_spec channels f 0%nat) as H.
  destruct (find_channel_from 0 channels f) as [k|].
  - destruct H as (j & c & Hk & Hnth & Hid & Hfirst). cbn in Hk. subst k.
    split.
    + intros i Hi. inversion Hi; subst i.
      split; [exists c; auto | exact Hfirst].
    + split; [discriminate|].
      intros Hnone. exfalso. apply (Hnone c); [|exact Hid].
      eapply nth_error_In. exact Hnth.
  - split; [discriminate|]. split; [intros _; exact H | reflexivity].
Qed.

Lemma find_channel_for_option_first_witness :
  exists c : RC_Channel,
    nth_error [example_channel AUX_FUNC.FENCE 1500;
               example_channel AUX_FUNC.GRIPPER 1500;
               example_channel AUX_FUNC.GRIPPER 1100] 1 = Some c
    /\ option_id c = AUX_FUNC.GRIPPER.
Proof.
  exact (proj1 (proj1 (find_channel_for_option_first
                         [example_channel AUX_FUNC.FENCE 1500;
                          example_channel AUX_FUNC.GRIPPER 1500;
                          example_channel AUX_FUNC.GRIPPER 1100] AUX_FUNC.GRIPPER)
                  1%nat eq_refl)).
Defined.

Lemma find_channel_from_ge (channels : list RC_Channel) (f : Z) :
  forall i k : nat, find_channel_from i channels f = Some k -> (i <= k)%nat.
Proof.
  induction channels as [|c rest IH]; intros i k; cbn [find_channel_from].
  - discriminate.
  - destruct (to_uint16 (option_ c) =? f).
    + intros H. inversion H. lia.
    + intros H. apply IH in H. lia.
Qed.

Lemma to_uint16_to_int16 (x : Z) : 0 <= x < 2 ^ 16 -> to_uint16 (to_int16 x) = x.
Proof.
  intros Hx. unfold to_uint16, to_int16.
  change (2 ^ 16) with 65536 in *. change (2 ^ 15) with 32768.
  destruct (Z_lt_dec x 32768) as [Hs | Hs].
  - rewrite (Z.mod_small (x + 32768)) by lia.
    replace (x + 32768 - 32768) with x by lia. apply Z.mod_small. lia.
  - replace (x + 32768) with ((x - 32768) + 1 * 65536) by lia.
    rewrite Z.mod_add by lia. rewrite (Z.mod_small (x - 32768)) by lia.
    replace (x - 32768 - 32768) with (x + (-1) * 65536) by lia.
    rewrite Z.mod_add by lia. apply Z.mod_small. lia.
Qed.

Lemma convert_options_find_from (old_option new_option : Z)
    (channels : list RC_Channel) :
  0 <= new_option < 2 ^ 16 -> new_option <> old_option ->
  forall i : nat,
    find_channel_from i (convert_options old_option new_option channels) old_option
    = None
    /\ find_channel_from i (convert_options old_option new_option channels) new_option
       = match find_channel_from i channels old_option,
               find_channel_from i channels new_option with
         | Some a, Some b => Some (Nat.min a b)
         | Some a, None => Some a
         | None, r => r
         end
    /\ (forall f : Z, f <> old_option -> f <> new_option ->
        find_channel_from i (convert_options old_option new_option channels) f
        = find_channel_from i channels f).
Proof.
  intros Hnew Hneq.
  induction channels as [|c rest IH]; intros i.
  - cbn. auto.
  - destruct (IH (S i)) as (IHold & IHnew & IHother).
    cbn [convert_options map find_channel_from].
    fold (convert_options old_option new_option rest).
    destruct (to_uint16 (option_ c) =? old_option) eqn:Eold.
    + cbn [option_ with_option]. rewrite (to_uint16_to_int16 new_option Hnew).
      apply Z.eqb_eq in Eold.
      assert ((new_option =? old_option) = false) as -> by (apply Z.eqb_neq; exact Hneq).
      rewrite Z.eqb_refl.
      assert ((to_uint16 (option_ c) =? new_option) = false) as ->
        by (apply Z.eqb_neq; congruence).
      split; [exact IHold|]. split.
      * destruct (find_channel_from (S i) rest new_option) as [b|] eqn:Eb; [|reflexivity].
        apply find_channel_from_ge in Eb. f_equal. lia.
      * intros f Hf1 Hf2.
        assert ((new_option =? f) = false) as -> by (apply Z.eqb_neq; congruence).
        assert ((to_uint16 (option_ c) =? f) = false) as ->
          by (apply Z.eqb_neq; congruence).
        apply IHother; assumption.
    + rewrite Eold. split; [exact IHold|]. split.
      * destruct (to_uint16 (option_ c) =? new_option) eqn:Enew.
        -- destruct (find_channel_from (S i) rest old_option) as [a|] eqn:Ea;
             [|reflexivity].
           apply find_channel_from_ge in Ea. f_equal. lia.
        -- exact IHnew.
      * intros f Hf1 Hf2.
        destruct (to_uint16 (option_ c) =? f); [reflexivity|].
        apply IHother; assumption.
Qed.

(** X16: after [convert_options old new], with [new] another option id, no
    channel holds [old] any more; the first channel holding [new] is the
    first that held [old] or [new] before; the lookup of every other
    option is unchanged; and a channel that did not hold [old] is left
    exactly as it was. *)
Theorem convert_options_lookup (old_option new_option : Z)
    (channels : list RC_Channel) :
  0 <= new_option < 2 ^ 16 -> new_option <> old_option ->
  let converted := convert_options old_option new_option channels in
  find_channel_for_option converted old_option = None
  /\ find_channel_for_option converted new_option
     = match find_channel_for_option channels old_option,
             find_channel_for_option channels new_option with
       | Some a, Some b => Some (Nat.min a b)
       | Some a, None => Some a
       | None, r => r
       end
  /\ (forall f : Z, f <> old_option -> f <> new_option ->
      find_channel_for_option converted f = find_channel_for_option channels f)
  /\ length converted = length channels
  /\ (forall (i : nat) (c : RC_Channel),
         nth_error channels i = Some c -> option_id c <> old_option ->
         nth_error converted i = Some c).
Proof.
  intros Hnew Hneq. cbv zeta. unfold find_channel_for_option.
  destruct (convert_options_find_from old_option new_option channels Hnew Hneq 0%nat)
    as (Hold & Hnewf & Hother).
  split; [exact Hold|]. split; [exact Hnewf|]. split; [exact Hother|].
  split; [apply length_map|].
  intros i c Hnth Hid. unfold convert_options.
  rewrite nth_error_map, Hnth. cbn [option_map].
  unfold option_id in Hid. apply Z.eqb_neq in Hid. rewrite Hid. reflexivity.
Qed.

Lemma convert_options_lookup_witness :
  find_channel_for_option
    (convert_options AUX_FUNC.RELAY AUX_FUNC.RELAY2
       [example_channel AUX_FUNC.FENCE 1500;
        example_channel AUX_FUNC.RELAY 1500;
        example_channel AUX_FUNC.RELAY2 1100]) AUX_FUNC.RELAY
  = None.
Proof.
  refine (proj1 (convert_options_lookup AUX_FUNC.RELAY AUX_FUNC.RELAY2
                   [example_channel AUX_FUNC.FENCE 1500;
                    example_channel AUX_FUNC.RELAY 1500;
                    example_channel AUX_FUNC.RELAY2 1100] _ _)).
  - vm_compute. split; [discriminate | reflexivity].
  - discriminate.
Defined.

End Lookup.

(** ** What the auxiliary functions touch *)

Section Footprint.

Local Open Scope Z_scope.
Local Open Scope monad_scope.

Lemma footprint_ret {A : Type} (G L : bool) (P : Event -> Prop) (a : A) :
  footprint G L P (ret a).
Proof.
  intros s. cbn. repeat split. exists []. rewrite app_nil_r. auto.
Qed.

Lemma footprint_emit (G L : bool) (P : Event -> Prop) (e : Event) :
  P e -> footprint G L P (emit e).
Proof.
  intros He s. cbn. repeat split. exists [e]. auto.
Qed.

Lemma footprint_set_gcs (env : Env) (L : bool) (P : Event -> Prop) (b : bool) :
  footprint true L P (set_gcs_overrides_enabled env b).
Proof.
  intros s. cbn. split; [discriminate|]. split; [reflexivity|].
  exists []. rewrite app_nil_r. auto.
Qed.

Lemma footprint_set_lost (G : bool) (P : Event -> Prop) (b : bool) :
  footprint G true P (set_vehicle_lost b).
Proof.
  intros s. cbn. repeat split; try discriminate.
  exists []. rewrite app_nil_r. auto.
Qed.

Lemma footprint_bind {A B : Type} (G L : bool) (P : Event -> Prop)
    (m : M A) (k : A -> M B) :
  footprint G L P m -> (forall a, footprint G L P (k a)) -> footprint G L P (bind m k).
Proof.
  intros Hm Hk s. unfold bind.
  specialize (Hm s). destruct (m s) as [a s1]. cbn [snd] in Hm.
  specialize (Hk a s1). destruct (k a s1) as [b s2]. cbn [snd] in *.
  destruct Hm as (G1 & L1 & new1 & E1 & F1).
  destruct Hk as (G2 & L2 & new2 & E2 & F2).
  split.
  - intros HG. destruct (G1 HG) as (A1 & B1 & C1). destruct (G2 HG) as (A2 & B2 & C2).
    repeat split; congruence.
  - split; [intros HL; rewrite (L2 HL); exact (L1 HL)|].
    exists (new1 ++ new2). split.
    + rewrite E2, E1, app_assoc. reflexivity.
    + apply Forall_app. auto.
Qed.

Lemma footprint_when (G L : bool) (P : Event -> Prop) (b : bool) (m : M unit) :
  footprint G L P m -> footprint G L P (when b m).
Proof. intros Hm. destruct b; [exact Hm | apply footprint_ret]. Qed.

Ltac footprint_event :=
  cbv beta; unfold arming_only_on, arming_trigger; cbn [func pos];
  intros Harm;
  first [ discriminate Harm
        | split; [assumption | split; [reflexivity | auto]] ].

Ltac footprint_step :=
  first
    [ apply footprint_ret
    | apply footprint_set_gcs
    | apply footprint_set_lost
    | apply footprint_emit; footprint_event
    | apply footprint_when
    | apply footprint_bind; [|intros ?]
    | match goal with
      | |- footprint _ _ _ (if ?b then _ else _) => destruct b eqn:?
      end
    | progress unfold invalid_channel_option,
        do_aux_function_fence, do_aux_function_gripper,
        do_aux_function_rc_override_enable, do_aux_function_avoid_proximity,
        do_aux_function_relay, do_aux_function_runcam_control,
        do_aux_function_runcam_osd_control, do_aux_function_clear_wp,
        do_aux_function_mission_reset, do_aux_function_avoid_adsb,
        do_aux_function_fft_notch_tune, do_aux_function_generator,
        do_aux_function_sprayer, do_aux_function_lost_vehicle_sound,
        do_aux_function_armdisarm, do_aux_function_camera_trigger,
        do_aux_function_record_video, do_aux_function_camera_zoom,
        do_aux_function_camera_manual_focus, do_aux_function_camera_auto_focus,
        do_aux_function_camera_image_tracking, do_aux_function_camera_lens,
        do_aux_function_retract_mount ].

Ltac footprint_case := cbv beta iota zeta; repeat footprint_step.

(** Every case of [do_aux_function], and its default. *)
Lemma do_aux_function_footprint (cfg : Config) (env : Env) (trigger : AuxFuncTrigger) :
  footprint (func trigger =? AUX_FUNC.RC_OVERRIDE_ENABLE)
            (func trigger =? AUX_FUNC.LOST_VEHICLE_SOUND)
            (arming_only_on cfg trigger)
            (do_aux_function cfg env trigger).
Proof.
  destruct trigger as [f p src idx]. cbn [func pos].
  unfold do_aux_function. cbn [func pos].
  destruct p;
    (destruct f as [|q|q]; [solve [footprint_case] | | solve [footprint_case]]);
    do 10 (try (destruct q as [q|q|]; try solve [footprint_case])).
Qed.

(** X17: on every id other than RC_OVERRIDE_ENABLE, whatever the position
    and the build, [do_aux_function] leaves the channel it is called on,
    the new-override flag and the acceptance of overrides as they were; on
    every id other than RC_OVERRIDE_ENABLE and LOST_VEHICLE_SOUND it leaves
    the lost-vehicle flag as it was; and on every id it never removes a
    call already made.  The RC_OVERRIDE_ENABLE case goes through
    [RC_Channels::set_gcs_overrides_enabled], whose body is not in this
    file, and is left out of the frame. *)
Theorem do_aux_function_frame (cfg : Config) (env : Env) (trigger : AuxFuncTrigger)
    (s : State) :
  let s' := snd (do_aux_function cfg env trigger s) in
  (func trigger <> AUX_FUNC.RC_OVERRIDE_ENABLE ->
   chan s' = chan s
   /\ has_new_overrides (world s') = has_new_overrides (world s)
   /\ gcs_overrides_enabled (world s') = gcs_overrides_enabled (world s))
  /\ (func trigger <> AUX_FUNC.RC_OVERRIDE_ENABLE ->
      func trigger <> AUX_FUNC.LOST_VEHICLE_SOUND ->
      vehicle_lost (world s') = vehicle_lost (world s))
  /\ exists new : list Event, events (world s') = events (world s) ++ new.
Proof.
  cbv zeta.
  destruct (do_aux_function_footprint cfg env trigger s)
    as (Hframe & Hl & new & He & _).
  split; [intros H; apply Hframe; apply Z.eqb_neq; exact H|].
  split; [intros _ H; apply Hl; apply Z.eqb_neq; exact H|].
  exists new. exact He.
Qed.

Lemma do_aux_function_frame_witness :
  let s := example_state AUX_FUNC.FENCE 1900 in
  let s' := snd (do_aux_function example_config (example_env None)
                   {| func := AUX_FUNC.FENCE; pos := HIGH; source := RC;
                      source_index := 6 |} s) in
  (chan s' = chan s
   /\ has_new_overrides (world s') = has_new_overrides (world s)
   /\ gcs_overrides_enabled (world s') = gcs_overrides_enabled (world s))
  /\ vehicle_lost (world s') = vehicle_lost (world s).
Proof.
  cbv zeta.
  pose proof (do_aux_function_frame example_config (example_env None)
                {| func := AUX_FUNC.FENCE; pos := HIGH; source := RC;
                   source_index := 6 |}
                (example_state AUX_FUNC.FENCE 1900)) as H.
  cbv zeta in H. destruct H as (Hframe & Hlost & _).
  split.
  - apply Hframe. cbn. discriminate.
  - apply Hlost; cbn; discriminate.
Defined.

(** X18: [do_aux_function] asks for arming on exactly two triggers: with
    arming compiled in, ARMDISARM at HIGH and ARM_EMERGENCY_STOP at HIGH.
    On every other id, position or build the calls it adds contain no
    arming request. *)
Theorem do_aux_function_arming (cfg : Config) (env : Env) (trigger : AuxFuncTrigger)
    (s : State) :
  exists new : list Event,
    events (world (snd (do_aux_function cfg env trigger s))) = events (world s) ++ new
    /\ (In Arming_arm new <-> arming_trigger cfg trigger).
Proof.
  destruct (do_aux_function_footprint cfg env trigger s)
    as (_ & _ & new & He & Hall).
  exists new. split; [exact He|]. split.
  - intros Hin. rewrite Forall_forall in Hall. exact (Hall _ Hin eq_refl).
  - intros (Harm & Hpos & Hid).
    destruct trigger as [f p src idx]. cbn [func pos] in *. subst p.
    assert (Hnew : events (world (snd (do_aux_function cfg env
                      {| func := f; pos := HIGH; source := src; source_index := idx |} s)))
                   = events (world s) ++ new) by exact He.
    destruct Hid as [-> | ->]; unfold do_aux_function in Hnew; cbn [func pos] in Hnew;
      rewrite Harm in Hnew; cbn in Hnew.
    + apply app_inv_head in Hnew. subst new. left. reflexivity.
    + rewrite <- app_assoc in Hnew. apply app_inv_head in Hnew. subst new.
      right. left. reflexivity.
Qed.

End Footprint.

Lemma do_aux_function_arming_witness :
  exists new : list Event,
    events (world (snd (do_aux_function example_config (example_env None)
                          {| func := AUX_FUNC.ARM_EMERGENCY_STOP; pos := HIGH;
                             source := RC; source_index := 6 |}
                          (example_state AUX_FUNC.ARM_EMERGENCY_STOP 1900))))
    = events (world (example_state AUX_FUNC.ARM_EMERGENCY_STOP 1900)) ++ new
    /\ In Arming_arm new.
Proof.
  destruct (do_aux_function_arming example_config (example_env None)
              {| func := AUX_FUNC.ARM_EMERGENCY_STOP; pos := HIGH;
                 source := RC; source_index := 6 |}
              (example_state AUX_FUNC.ARM_EMERGENCY_STOP 1900))
    as [new [He Hiff]].
  exists new. split; [exact He|]. apply Hiff.
  split; [reflexivity|]. split; [reflexivity|]. right. reflexivity.
Defined.

Section ReadAuxArming.

Local Open Scope Z_scope.
Local Open Scope monad_scope.

Variable cfg : Config.
Variable env : Env.

Lemma announce_and_run_footprint (c : RC_Channel) (p : AuxSwitchPos) :
  footprint (option_id c =? AUX_FUNC.RC_OVERRIDE_ENABLE)
            (option_id c =? AUX_FUNC.LOST_VEHICLE_SOUND)
            (arming_only_on cfg {| func := option_id c; pos := p; source := RC;
                                   source_index := ch_in c |})
            (announce_and_run cfg env (do_aux_function cfg env) c p).
Proof.
  unfold announce_and_run, run_aux_function.
  change (to_uint16 (option_ c)) with (option_id c).
  assert (Hother : forall e : Event,
             e <> Arming_arm ->
             arming_only_on cfg {| func := option_id c; pos := p; source := RC;
                                   source_index := ch_in c |} e).
  { intros e Hne Heq. contradiction. }
  apply footprint_bind.
  - apply footprint_when.
    destruct (string_for_aux_function env (option_id c));
      [apply footprint_emit; apply Hother; discriminate | apply footprint_ret].
  - intros _. apply footprint_bind; [|intros _; apply footprint_ret].
    apply footprint_bind.
    + apply footprint_when. apply footprint_emit. apply Hother. discriminate.
    + intros _. apply footprint_bind.
      * exact (do_aux_function_footprint cfg env
                 {| func := option_id c; pos := p; source := RC; source_index := ch_in c |}).
      * intros r. apply footprint_bind; [|intros _; apply footprint_ret].
        apply footprint_when. apply footprint_emit. apply Hother. discriminate.
Qed.

Lemma no_new_events (s s' : State) :
  world s' = world s ->
  exists new : list Event,
    events (world s') = events (world s) ++ new /\ ~ In Arming_arm new.
Proof.
  intros Hw. exists []. rewrite Hw, app_nil_r. split; [reflexivity | intros []].
Qed.

(** X19: [read_aux], dispatching to [do_aux_function], asks for arming
    only if all of this holds: it returns true, arming is compiled in, the
    option of the channel is ARMDISARM or ARM_EMERGENCY_STOP, the pulse
    width classifies as HIGH, and the switch state was initialised by an
    earlier read with HIGH pending as the candidate position for at least
    200 ms while another position was latched.  In particular the first
    read after start-up never arms. *)
Theorem read_aux_arming (tnow_ms : Z) (s : State) :
  let out := read_aux cfg env (do_aux_function cfg env) tnow_ms s in
  exists new : list Event,
    events (world (snd out)) = events (world s) ++ new
    /\ (In Arming_arm new ->
        fst out = true
        /\ AP_ARMING_ENABLED cfg = true
        /\ (option_id (chan s) = AUX_FUNC.ARMDISARM
            \/ option_id (chan s) = AUX_FUNC.ARM_EMERGENCY_STOP)
        /\ read_3pos_switch cfg env (chan s) = Some HIGH
        /\ initialised (switch_of s) = true
        /\ current_position (switch_of s) <> position_of HIGH
        /\ debounce_position (switch_of s) = position_of HIGH
        /\ 200 <= sub_uint32 tnow_ms (last_edge_time_ms (switch_of s))).
Proof.
  cbv zeta.
  assert (Hquiet : world (snd (read_aux cfg env (do_aux_function cfg env) tnow_ms s))
                   = world s ->
             exists new : list Event,
               events (world (snd (read_aux cfg env (do_aux_function cfg env) tnow_ms s)))
               = events (world s) ++ new
               /\ (In Arming_arm new ->
                   fst (read_aux cfg env (do_aux_function cfg env) tnow_ms s) = true
                   /\ AP_ARMING_ENABLED cfg = true
                   /\ (option_id (chan s) = AUX_FUNC.ARMDISARM
                       \/ option_id (chan s) = AUX_FUNC.ARM_EMERGENCY_STOP)
                   /\ read_3pos_switch cfg env (chan s) = Some HIGH
                   /\ initialised (switch_of s) = true
                   /\ current_position (switch_of s) <> position_of HIGH
                   /\ debounce_position (switch_of s) = position_of HIGH
                   /\ 200 <= sub_uint32 tnow_ms (last_edge_time_ms (switch_of s)))).
  { intros Hw. destruct (no_new_events s _ Hw) as [new [He Hno]].
    exists new. split; [exact He | intros Hin; contradiction]. }
  destruct (Z.eq_dec (option_id (chan s)) AUX_FUNC.DO_NOTHING) as [Hnone | Hopt].
  { apply Hquiet.
    unfold read_aux. unfold bind at 1. unfold get_chan at 1. cbv zeta.
      change (to_uint16 (option_ (chan s))) with (option_id (chan s)).
    rewrite Hnone. reflexivity. }
  destruct (is_6pos_special_case cfg (option_id (chan s))) eqn:Hvtx.
  { unfold is_6pos_special_case in Hvtx. apply andb_true_iff in Hvtx.
    destruct Hvtx as [Hen Hid]. apply Z.eqb_eq in Hid.
    rewrite (read_aux_vtx_equation cfg env (do_aux_function cfg env) tnow_ms s Hen Hid)
      in Hquiet |- *.
    pose proof (read_6pos_switch_world cfg tnow_ms s) as Hw6.
    destruct (read_6pos_switch cfg tnow_ms s) as [[[|] [position|]] s1];
      cbn [fst snd] in *; try (apply Hquiet; exact Hw6).
    exists [VTX_change_power position]. split; [cbn; rewrite Hw6; reflexivity|].
    intros [Hin | []]. discriminate Hin. }
  destruct (read_3pos_switch cfg env (chan s)) as [p|] eqn:Hpos.
  2:{ apply Hquiet.
      unfold read_aux. unfold bind at 1. unfold get_chan at 1. cbv zeta.
      change (to_uint16 (option_ (chan s))) with (option_id (chan s)).
      apply Z.eqb_neq in Hopt. unfold is_6pos_special_case in Hvtx.
      rewrite Hopt, Hvtx, Hpos. reflexivity. }
  clear Hquiet.
  rewrite (read_aux_3pos cfg env (do_aux_function cfg env) tnow_ms s p Hopt Hvtx Hpos).
  cbv zeta.
  set (s0 := if initialised (switch_of s) then s
             else if init_position_on_first_radio_read cfg (option_id (chan s))
                  then with_switch_state s
                         (switch_state_of (position_of p) (position_of p)
                            (last_edge_time_ms (switch_of s)) true)
                  else with_switch_state s (with_initialised (switch_of s) true)).
  assert (Hs0w : world s0 = world s).
  { subst s0. destruct (initialised (switch_of s)); [reflexivity|].
    destruct (init_position_on_first_radio_read cfg (option_id (chan s))); reflexivity. }
  pose proof (debounce_completed_world tnow_ms (position_of p) s0) as Hdw.
  destruct (fst (debounce_completed tnow_ms (position_of p) s0)) eqn:Hdone.
  2:{ destruct (no_new_events s (snd (debounce_completed tnow_ms (position_of p) s0)))
        as [new [He Hno]]; [congruence|].
      exists new. split; [exact He | intros Hin; contradiction]. }
  set (s1 := snd (debounce_completed tnow_ms (position_of p) s0)) in *.
  destruct (announce_and_run_footprint (chan s) p s1)
    as (_ & _ & new & He & Hall).
  assert (Hfst : fst (announce_and_run cfg env (do_aux_function cfg env) (chan s) p s1)
                 = true).
  { unfold announce_and_run. unfold bind.
    destruct (when _ _ s1) as [u s2].
    destruct (run_aux_function cfg (do_aux_function cfg env)
                (to_uint16 (option_ (chan s))) p RC (ch_in (chan s)) s2) as [r s3].
    reflexivity. }
  exists new. split; [rewrite He, Hdw, Hs0w; reflexivity|].
  intros Hin. rewrite Forall_forall in Hall.
  destruct (Hall _ Hin eq_refl) as (Harm & Hp & Hid). cbn [func pos] in Hp, Hid.
  subst p.
  assert (Hdefer : init_position_on_first_radio_read cfg (option_id (chan s)) = true).
  { unfold init_position_on_first_radio_read.
    destruct Hid as [-> | ->]; exact Harm. }
  assert (Hinit : initialised (switch_of s) = true).
  { destruct (initialised (switch_of s)) eqn:Ei; [reflexivity|]. exfalso.
    subst s0. rewrite Hdefer in Hdone.
    rewrite debounce_completed_cases in Hdone. cbv zeta in Hdone.
    cbn [switch_of with_switch_state chan set_switch_state switch_state
         switch_state_of current_position] in Hdone.
    rewrite Z.eqb_refl in Hdone. discriminate Hdone. }
  assert (Es0 : s0 = s) by (subst s0; rewrite Hinit; reflexivity).
  rewrite Es0 in Hdone.
  rewrite debounce_completed_cases in Hdone. cbv zeta in Hdone.
  destruct (current_position (switch_of s) =? position_of HIGH) eqn:Ecur;
    [discriminate Hdone|].
  destruct (debounce_position (switch_of s) =? position_of HIGH) eqn:Edeb;
    cbn [negb] in Hdone; [|discriminate Hdone].
  destruct (sub_uint32 tnow_ms (last_edge_time_ms (switch_of s))
            >=? SWITCH_DEBOUNCE_TIME_MS) eqn:Etime; [|discriminate Hdone].
  apply Z.eqb_neq in Ecur. apply Z.eqb_eq in Edeb. apply Z.geb_le in Etime.
  unfold SWITCH_DEBOUNCE_TIME_MS in Etime.
  repeat split; assumption.
Qed.

End ReadAuxArming.

Lemma read_aux_arming_witness :
  exists new : list Event,
    events (world (snd (read_aux example_config (example_env None)
                          (do_aux_function example_config (example_env None)) 0
                          (example_state AUX_FUNC.ARMDISARM 1900))))
    = events (world (example_state AUX_FUNC.ARMDISARM 1900)) ++ new
    /\ ~ In Arming_arm new.
Proof.
  destruct (read_aux_arming example_config (example_env None) 0
              (example_state AUX_FUNC.ARMDISARM 1900)) as [new [He Harm]].
  exists new. split; [exact He|].
  intros Hin. destruct (Harm Hin) as (_ & _ & _ & _ & Hinit & _).
  discriminate Hinit.
Defined.

(** ** Initialisation of the auxiliary functions *)

Section InitAux.

Local Open Scope Z_scope.
Local Open Scope monad_scope.

Variable cfg : Config.
Variable icfg : InitConfig.
Variable env : Env.

Lemma footprint_weaken {A : Type} (G L : bool) (P Q : Event -> Prop) (m : M A) :
  (forall e, P e -> Q e) -> footprint G L P m -> footprint G L Q m.
Proof.
  intros HPQ Hm s. destruct (Hm s) as (HG & HL & new & E & F).
  split; [exact HG|]. split; [exact HL|]. exists new. split; [exact E|].
  eapply Forall_impl; [|exact F]. exact HPQ.
Qed.

Lemma footprint_get_chan (G L : bool) (P : Event -> Prop) : footprint G L P get_chan.
Proof.
  intros s. cbn. repeat split. exists []. rewrite app_nil_r. auto.
Qed.

Lemma run_aux_function_footprint (f : Z) (p : AuxSwitchPos) (src : Source) (idx : Z) :
  footprint (f =? AUX_FUNC.RC_OVERRIDE_ENABLE) (f =? AUX_FUNC.LOST_VEHICLE_SOUND)
    (arming_only_on cfg {| func := f; pos := p; source := src; source_index := idx |})
    (run_aux_function cfg (do_aux_function cfg env) f p src idx).
Proof.
  unfold run_aux_function.
  assert (Hother : forall e : Event,
             e <> Arming_arm ->
             arming_only_on cfg {| func := f; pos := p; source := src;
                                   source_index := idx |} e).
  { intros e Hne Heq. contradiction. }
  apply footprint_bind.
  - apply footprint_when. apply footprint_emit. apply Hother. discriminate.
  - intros _. apply footprint_bind.
    + exact (do_aux_function_footprint cfg env
               {| func := f; pos := p; source := src; source_index := idx |}).
    + intros r. apply footprint_bind; [|intros _; apply footprint_ret].
      apply footprint_when. apply footprint_emit. apply Hother. discriminate.
Qed.

Ltac init_weaken :=
  let e := fresh "e" in
  let H := fresh "H" in
  let Harm := fresh "Harm" in
  let A := fresh "A" in
  let B := fresh "B" in
  let C := fresh "C" in
  unfold arming_only_on, arming_only_at_init, arming_trigger; cbn [func pos];
  intros e H Harm; destruct (H Harm) as (A & B & [C | C]);
  first [ discriminate C | auto ].

Ltac init_step :=
  first
    [ apply footprint_ret
    | apply footprint_emit;
      [unfold arming_only_at_init; let Harm := fresh "Harm" in
       intros Harm; discriminate Harm]
    | eapply footprint_weaken; [|apply run_aux_function_footprint]; init_weaken
    | apply footprint_bind; [|intros ?]
    | match goal with
      | |- footprint _ _ _ (if ?b then _ else _) => destruct b eqn:?
      end ].

Ltac init_case := cbv beta iota zeta; repeat init_step.

Lemma init_aux_function_footprint (f : Z) (p : AuxSwitchPos) :
  footprint (f =? AUX_FUNC.RC_OVERRIDE_ENABLE) (f =? AUX_FUNC.LOST_VEHICLE_SOUND)
    (arming_only_at_init cfg f p)
    (init_aux_function cfg icfg (do_aux_function cfg env) f p).
Proof.
  unfold init_aux_function.
  apply footprint_bind; [apply footprint_get_chan|]. intros c.
  destruct f as [|q|q]; [solve [init_case] | | solve [init_case]];
    do 10 (try (destruct q as [q|q|]; try solve [init_case])).
Qed.

(** X20: [init_aux], dispatching to [do_aux_function], asks for arming in
    exactly one situation: arming is compiled in, the option of the channel
    is ARM_EMERGENCY_STOP and the switch reads HIGH.  An ARMDISARM switch
    found HIGH at start-up does not arm.  On every option other than
    RC_OVERRIDE_ENABLE it also leaves the channel as it was; that option
    goes through [RC_Channels::set_gcs_overrides_enabled], whose body is
    not in this file. *)
Theorem init_aux_arming (s : State) :
  let out := init_aux cfg icfg env (do_aux_function cfg env) s in
  (option_id (chan s) <> AUX_FUNC.RC_OVERRIDE_ENABLE -> chan (snd out) = chan s)
  /\ exists new : list Event,
       events (world (snd out)) = events (world s) ++ new
       /\ (In Arming_arm new <->
           AP_ARMING_ENABLED cfg = true
           /\ option_id (chan s) = AUX_FUNC.ARM_EMERGENCY_STOP
           /\ read_3pos_switch cfg env (chan s) = Some HIGH).
Proof.
  cbv zeta.
  assert (Hrun : init_aux cfg icfg env (do_aux_function cfg env) s
                 = init_aux_function cfg icfg (do_aux_function cfg env)
                     (option_id (chan s))
                     (match read_3pos_switch cfg env (chan s) with
                      | Some p => p
                      | None => LOW
                      end) s) by reflexivity.
  rewrite Hrun.
  destruct (init_aux_function_footprint (option_id (chan s))
              (match read_3pos_switch cfg env (chan s) with
               | Some p => p
               | None => LOW
               end) s) as (Hframe & _ & new & He & Hall).
  split; [intros H; apply Hframe; apply Z.eqb_neq; exact H|].
  exists new. split; [exact He|]. split.
  - intros Hin. rewrite Forall_forall in Hall.
    destruct (Hall _ Hin eq_refl) as (Harm & Hp & Hid).
    split; [exact Harm|]. split; [exact Hid|].
    destruct (read_3pos_switch cfg env (chan s)) as [p|];
      [rewrite Hp; reflexivity | discriminate Hp].
  - intros (Harm & Hid & Hp). rewrite Hid, Hp in He.
    unfold init_aux_function, run_aux_function, do_aux_function in He.
    cbn [func pos] in He. rewrite Harm in He.
    destruct (AP_SCRIPTING_ENABLED cfg); destruct (HAL_LOGGING_ENABLED cfg);
      cbn in He; rewrite <- ?app_assoc in He; apply app_inv_head in He; subst new;
      cbn; auto 6.
Qed.

End InitAux.

Lemma init_aux_arming_witness :
  let s := example_state AUX_FUNC.ARM_EMERGENCY_STOP 1900 in
  let out := init_aux example_config
               {| HAL_ADSB_ENABLED := true; CONFIG_HAL_BOARD_SITL := false |}
               (example_env None)
               (do_aux_function example_config (example_env None)) s in
  chan (snd out) = chan s
  /\ exists new : list Event,
       events (world (snd out)) = events (world s) ++ new /\ In Arming_arm new.
Proof.
  cbv zeta.
  destruct (init_aux_arming example_config
              {| HAL_ADSB_ENABLED := true; CONFIG_HAL_BOARD_SITL := false |}
              (example_env None)
              (example_state AUX_FUNC.ARM_EMERGENCY_STOP 1900))
    as [Hchan [new [He Hiff]]].
  split.
  - apply Hchan. vm_compute. discriminate.
  - exists new. split; [exact He|]. apply Hiff.
    split; [reflexivity|]. split; reflexivity.
Defined.

Section InitKnowsDispatch.

Local Open Scope Z_scope.
Local Open Scope monad_scope.

Variable cfg : Config.
Variable icfg : InitConfig.
Variable dispatch : AuxFuncTrigger -> M bool.

Ltac init_outcome Eout :=
  cbv beta iota zeta in Eout |- *;
  lazymatch type of Eout with
  | _ = (if _ then _ else _) _ => idtac
  | _ = ret _ _ => idtac
  | _ = bind _ _ _ => idtac
  end;
  let H := fresh "H" in
  intros H;
  try discriminate H;
  repeat match type of Eout with
         | context [if ?b then _ else _] => destruct b eqn:?
         end;
  try discriminate H;
  unfold bind, ret, emit in Eout;
  try match type of Eout with
      | context [run_aux_function ?a ?b ?c ?d ?e ?f ?g] =>
          destruct (run_aux_function a b c d e f g)
      end;
  subst;
  let Hr := fresh "Hr" in
  let Hf := fresh "Hf" in
  split; intros Hr;
  first
    [ left; reflexivity
    | right; reflexivity
    | split; reflexivity
    | exfalso; apply Hr;
      first [ left; reflexivity
            | right; split; [reflexivity | first [assumption | reflexivity]] ]
    | exfalso; destruct Hr as [Hr | [Hr Hf]];
      [ discriminate Hr | first [ discriminate Hr | congruence ] ] ].

(** X21: [init_aux_function] accepts every option that [do_aux_function]
    has a case for, either leaving it alone or running it once with the
    INIT source, with two exceptions: CAM_MODE_TOGGLE always, and
    AVOID_ADSB where HAL_ADSB_ENABLED is not set.  Those are refused: the
    call sends "Failed to init" to the GCS and, on the simulator, ends in a
    configuration error. *)
Theorem init_aux_function_accepts_dispatch_ids (f : Z) (p : AuxSwitchPos) (s : State) :
  has_dispatch_case cfg f = true ->
  let out := init_aux_function cfg icfg dispatch f p s in
  let refused :=
    f = AUX_FUNC.CAM_MODE_TOGGLE
    \/ (f = AUX_FUNC.AVOID_ADSB /\ HAL_ADSB_ENABLED icfg = false) in
  (~ refused ->
   out = (None, s)
   \/ out = (None, snd (run_aux_function cfg dispatch f p INIT (ch_in (chan s)) s)))
  /\ (refused ->
      snd out = snd (emit (failed_to_init (chan s) f) s)
      /\ fst out = if CONFIG_HAL_BOARD_SITL icfg
                   then Some (config_error "Failed to init: RC%u_OPTION: %u"
                                [ArgInt (ch_in (chan s) + 1); ArgInt f])
                   else None).
Proof.
  intros Hcase out. revert Hcase.
  assert (Eout : out = init_aux_function cfg icfg dispatch f p s) by reflexivity.
  clearbody out.
  unfold init_aux_function in Eout. unfold bind at 1 in Eout.
  unfold get_chan at 1 in Eout. unfold has_dispatch_case.
  destruct f as [|q|q]; [solve [init_outcome Eout] | | solve [init_outcome Eout]];
    do 10 (try (destruct q as [q|q|]; try solve [init_outcome Eout])).
Qed.

End InitKnowsDispatch.

Lemma init_aux_function_accepts_dispatch_ids_witness :
  snd (init_aux_function example_config
         {| HAL_ADSB_ENABLED := true; CONFIG_HAL_BOARD_SITL := false |}
         (do_aux_function example_config (example_env None))
         AUX_FUNC.CAM_MODE_TOGGLE HIGH (example_state AUX_FUNC.CAM_MODE_TOGGLE 1900))
  = snd (emit (failed_to_init (chan (example_state AUX_FUNC.CAM_MODE_TOGGLE 1900))
                 AUX_FUNC.CAM_MODE_TOGGLE)
           (example_state AUX_FUNC.CAM_MODE_TOGGLE 1900)).
Proof.
  refine (proj1 (proj2 (init_aux_function_accepts_dispatch_ids example_config
                          {| HAL_ADSB_ENABLED := true; CONFIG_HAL_BOARD_SITL := false |}
                          (do_aux_function example_config (example_env None))
                          AUX_FUNC.CAM_MODE_TOGGLE HIGH
                          (example_state AUX_FUNC.CAM_MODE_TOGGLE 1900) _) _)).
  - reflexivity.
  - left. reflexivity.
Defined.

(** ** Reading the input *)

Section Update.

Import F32 F32Ops.
Local Open Scope Q_scope.

Lemma clamped_inside (x lo hi : Z) :
  (lo <= hi)%Z -> (lo <= constrain_int16 x lo hi <= hi)%Z.
Proof.
  intros Hord. unfold constrain_int16.
  destruct (x <? lo)%Z eqn:E1; [lia|]. apply Z.ltb_ge in E1.
  destruct (x >? hi)%Z eqn:E2; [lia|].
  rewrite Z.gtb_ltb in E2. apply Z.ltb_ge in E2. lia.
Qed.

(** With a calibration the right way round and a product that is exact in
    binary32, the range conversion stays within 0 .. [high_in]. *)
Lemma pwm_to_range_dz_bounds (c : RC_Channel) (dz : Z) :
  is_int16 (radio_min c) -> is_int16 (radio_max c) ->
  (radio_min c <= radio_max c)%Z -> (0 <= high_in c < 2 ^ 16)%Z ->
  (high_in c * (radio_max c - to_int16 (radio_min c + dz)) < 2 ^ 24)%Z ->
  exists v : Q,
    pwm_to_range_dz c dz = Finite v /\ 0 <= v <= inject_Z (high_in c).
Proof.
  intros Hmin Hmax Hord Hh Hexact. unfold pwm_to_range_dz.
  set (r_in := constrain_int16 (to_int16 (radio_in c)) (radio_min c) (radio_max c)).
  assert (Hr : (radio_min c <= r_in <= radio_max c)%Z)
    by (apply clamped_inside; exact Hord).
  set (r := if get_reverse c then to_int16 (radio_max c - (r_in - radio_min c)) else r_in).
  assert (Hr' : is_int16 r /\ (r <= radio_max c)%Z).
  { subst r. destruct (get_reverse c).
    - rewrite to_int16_id by (unfold is_int16 in *; lia).
      split; [unfold is_int16 in *; lia | lia].
    - split; [unfold is_int16 in *; lia | lia]. }
  destruct Hr' as [Hr16 Hrmax].
  rewrite (range_branch (high_in c) (radio_max c) (to_int16 (radio_min c + dz)) r
             Hh Hmax (to_int16_range _) Hr16 Hrmax).
  eexists. split; [reflexivity|]. split.
  - apply range_value_nonneg; lia.
  - apply range_value_upper; [lia | lia | exact Hexact].
Qed.

(** One side of the angle conversion: the deflection [a] over the travel
    [d] of that side, scaled by [h] and signed by [m]. *)
Lemma angle_side_bounds (m h a d : Z) :
  (m = 1 \/ m = -1)%Z -> (0 <= h < 2 ^ 16)%Z -> (0 < d < 2 ^ 16)%Z ->
  (- d <= a <= d)%Z -> (h * d < 2 ^ 24)%Z ->
  exists v : Q,
    div (mul (of_int m) (mul (of_int h) (of_int a))) (of_int d) = Finite v
    /\ Qabs v <= inject_Z h.
Proof.
  intros Hm Hh Hd Ha Hexact.
  change (2 ^ 16)%Z with 65536%Z in *.
  assert (H24 : (2 ^ 24 = 16777216)%Z) by reflexivity.
  assert (H32 : (2 ^ 32 = 4294967296)%Z) by reflexivity.
  assert (Hha : (- 16777216 < h * a < 16777216)%Z) by nia.
  assert (Hmha : (- 16777216 < m * (h * a) < 16777216)%Z)
    by (destruct Hm as [-> | ->]; lia).
  rewrite (mul_int_finite h a) by lia.
  rewrite (round_int (h * a)) by lia.
  rewrite (of_int_exact m) by (destruct Hm as [-> | ->]; lia).
  rewrite mul_finite
    by (rewrite inject_Z_mult_eq; apply two32_bound with 16777216%Z;
        [lia | apply Qabs_inject_Z_le; lia]).
  rewrite inject_Z_mult_eq. rewrite (round_int (m * (h * a))) by lia.
  destruct (div_int_finite (inject_Z (m * (h * a))) d) as [Ediv _];
    [apply two32_bound with 16777216%Z; [lia | apply Qabs_inject_Z_le; lia] | lia | lia |].
  rewrite Ediv. eexists. split; [reflexivity|].
  apply round_abs_bound; [lia|].
  assert (Hdq : 0 < inject_Z d) by (rewrite <- (Zlt_Qlt 0); lia).
  apply Qabs_of_bounds.
  - apply Qle_shift_div_l; [exact Hdq|].
    change (- inject_Z h) with (inject_Z (- h)).
    rewrite <- inject_Z_mult, <- Zle_Qle. destruct Hm as [-> | ->]; nia.
  - apply Qle_shift_div_r; [exact Hdq|].
    rewrite <- inject_Z_mult, <- Zle_Qle. destruct Hm as [-> | ->]; nia.
Qed.

(** With the dead band inside the travel and exact products, the angle
    conversion stays within -[high_in] .. [high_in]. *)
Lemma pwm_to_angle_dz_trim_bounds (c : RC_Channel) (dz trim : Z) :
  is_int16 (radio_min c) -> is_int16 (radio_max c) ->
  (radio_min c <= to_int16 (trim - dz))%Z ->
  (to_int16 (trim - dz) <= to_int16 (trim + dz))%Z ->
  (to_int16 (trim + dz) <= radio_max c)%Z ->
  (0 <= high_in c < 2 ^ 16)%Z ->
  (high_in c * (radio_max c - radio_min c) < 2 ^ 24)%Z ->
  exists v : Q,
    pwm_to_angle_dz_trim c dz trim = Finite v /\ Qabs v <= inject_Z (high_in c).
Proof.
  intros Hmin Hmax Hlo Hband Hhi Hh Hexact. unfold pwm_to_angle_dz_trim.
  set (th := to_int16 (trim + dz)) in *. set (tl := to_int16 (trim - dz)) in *.
  set (r_in := constrain_int16 (to_int16 (radio_in c)) (radio_min c) (radio_max c)).
  assert (Hr : (radio_min c <= r_in <= radio_max c)%Z)
    by (apply clamped_inside; lia).
  pose proof (reverse_mul_unit c) as Hm.
  unfold is_int16 in *. change (2 ^ 15)%Z with 32768%Z in *.
  assert (Hzero : exists v : Q, zero = Finite v /\ Qabs v <= inject_Z (high_in c)).
  { exists 0. split; [reflexivity|]. change (Qabs 0) with 0.
    rewrite <- (Zle_Qle 0). lia. }
  destruct ((r_in >? th)%Z && negb (radio_max c =? th)%Z) eqn:Ehigh.
  - apply andb_true_iff in Ehigh. destruct Ehigh as [E1 E2].
    rewrite Z.gtb_ltb in E1. apply Z.ltb_lt in E1.
    apply angle_side_bounds; [exact Hm | exact Hh | | lia | nia].
    change (2 ^ 16)%Z with 65536%Z. lia.
  - destruct ((r_in <? tl)%Z && negb (tl =? radio_min c)%Z) eqn:Elow; [|exact Hzero].
    apply andb_true_iff in Elow. destruct Elow as [E1 E2].
    apply Z.ltb_lt in E1.
    apply angle_side_bounds; [exact Hm | exact Hh | | lia | nia].
    change (2 ^ 16)%Z with 65536%Z. lia.
Qed.

Lemma truncate_bounds (v : Q) (n : Z) :
  (0 <= n)%Z -> - inject_Z n <= v -> v <= inject_Z n ->
  (- n <= truncate v <= n)%Z.
Proof.
  intros Hn Hlo Hhi. unfold truncate.
  destruct (Qle_bool 0 v) eqn:Es.
  - apply Qle_bool_iff in Es.
    pose proof (Qfloor_resp_le _ _ Es) as H0.
    pose proof (Qfloor_resp_le _ _ Hhi) as H1.
    rewrite Qfloor_Z in H1. change (Qfloor 0) with 0%Z in H0. lia.
  - apply Qle_bool_false in Es.
    pose proof (Qceiling_resp_le _ _ (Qlt_le_weak _ _ Es)) as H0.
    pose proof (Qceiling_resp_le _ _ Hlo) as H1.
    change (- inject_Z n) with (inject_Z (- n)) in H1.
    rewrite Qceiling_Z in H1. change (Qceiling 0) with 0%Z in H0. lia.
Qed.

Lemma truncate_nonneg (v : Q) : 0 <= v -> (0 <= truncate v)%Z.
Proof.
  intros Hv. unfold truncate.
  apply Qle_bool_iff in Hv. rewrite Hv. apply Qle_bool_iff in Hv.
  pose proof (Qfloor_resp_le _ _ Hv) as H0. change (Qfloor 0) with 0%Z in H0. exact H0.
Qed.

Lemma to_int16_of_bounded (v : Q) (n : Z) :
  (0 <= n < 2 ^ 15)%Z -> Qabs v <= inject_Z n ->
  to_int16_of (Finite v) = Some (truncate v) /\ (- n <= truncate v <= n)%Z.
Proof.
  intros Hn Hv. apply Qabs_bounds in Hv. destruct Hv as [Hlo Hhi].
  pose proof (truncate_bounds v n ltac:(lia) Hlo Hhi) as Ht.
  split; [|exact Ht]. unfold to_int16_of. cbv zeta.
  assert ((- 2 ^ 15 <=? truncate v)%Z && (truncate v <? 2 ^ 15)%Z = true) as ->.
  { apply andb_true_iff. split; [apply Z.leb_le | apply Z.ltb_lt]; lia. }
  reflexivity.
Qed.

Lemma to_uint16_small (x : Z) : (0 <= x < 2 ^ 16)%Z -> to_uint16 x = x.
Proof. intros H. unfold to_uint16. apply Z.mod_small. exact H. Qed.

(** The conversion that [update] stores in [control_in], on a channel with
    a sane calibration, for any input [r]. *)
Lemma control_in_bounded (c : RC_Channel) (r : Z) :
  (0 <= radio_min c)%Z -> (radio_min c <= radio_max c)%Z -> (radio_max c < 2 ^ 15)%Z ->
  (0 <= dead_zone c)%Z -> (0 <= high_in c < 2 ^ 15)%Z ->
  (high_in c * (radio_max c - radio_min c) < 2 ^ 24)%Z ->
  match type_in c with
  | RANGE => (radio_min c + dead_zone c <= radio_max c)%Z
  | ANGLE => (radio_min c <= radio_trim c - dead_zone c)%Z
             /\ (radio_trim c + dead_zone c <= radio_max c)%Z
  end ->
  exists v : Z,
    to_int16_of (match type_in c with
                 | RANGE => pwm_to_range (with_radio_in c r)
                 | ANGLE => pwm_to_angle (with_radio_in c r)
                 end) = Some v
    /\ match type_in c with
       | RANGE => (0 <= v <= high_in c)%Z
       | ANGLE => (- high_in c <= v <= high_in c)%Z
       end.
Proof.
  intros Hmin Hord Hmax Hdz Hh Hexact Hband.
  assert (H15 : (2 ^ 15 = 32768)%Z) by reflexivity.
  assert (H16 : (2 ^ 16 = 65536)%Z) by reflexivity.
  assert (H24 : (2 ^ 24 = 16777216)%Z) by reflexivity.
  assert (Hmin16 : is_int16 (radio_min c)) by (unfold is_int16; lia).
  assert (Hmax16 : is_int16 (radio_max c)) by (unfold is_int16; lia).
  destruct (type_in c).
  - destruct Hband as [Hlo Hhi].
    unfold pwm_to_angle, pwm_to_angle_dz.
    cbn [with_radio_in dead_zone radio_trim].
    rewrite (to_uint16_small (dead_zone c)) by lia.
    rewrite (to_uint16_small (radio_trim c)) by lia.
    destruct (pwm_to_angle_dz_trim_bounds (with_radio_in c r) (dead_zone c) (radio_trim c))
      as [v [Ev Hv]]; cbn [with_radio_in radio_min radio_max high_in];
      try rewrite !to_int16_id by (unfold is_int16; lia);
      try assumption; try lia.
    rewrite Ev.
    destruct (to_int16_of_bounded v (high_in c) ltac:(lia) Hv) as [Et Hb].
    exists (truncate v). split; [exact Et | exact Hb].
  - unfold pwm_to_range. cbn [with_radio_in dead_zone].
    rewrite (to_uint16_small (dead_zone c)) by lia.
    destruct (pwm_to_range_dz_bounds (with_radio_in c r) (dead_zone c))
      as [v [Ev Hv]]; cbn [with_radio_in radio_min radio_max high_in];
      try rewrite !to_int16_id by (unfold is_int16; lia);
      try assumption; try lia; try nia.
    cbn [with_radio_in radio_min radio_max high_in] in Hv.
    rewrite Ev.
    assert (Habs : Qabs v <= inject_Z (high_in c))
      by (apply Qabs_of_bounds; [|tauto];
          assert (0 <= inject_Z (high_in c)) by (rewrite <- (Zle_Qle 0); lia); lra).
    destruct (to_int16_of_bounded v (high_in c) ltac:(lia) Habs) as [Et Hb].
    exists (truncate v). split; [exact Et|].
    pose proof (truncate_nonneg v (proj1 Hv)). lia.
Qed.

(** X22: on a channel with a sane calibration -- 0 <= [radio_min] <=
    [radio_max], a dead zone inside the travel, a scale below 2^15 whose
    product with the travel is below 2^24 -- [update] always completes.
    It returns false, leaving the channel untouched, exactly when no
    override is in force or overrides are ignored, and no receiver was seen
    or the receiver is ignored.  Otherwise it returns true with the
    override value in [radio_in] if one is in force and not ignored, the
    receiver sample if not, and a [control_in] within 0 .. [high_in] for a
    range channel and within -[high_in] .. [high_in] for an angle
    channel. *)
Theorem update_control_in_bounded (env : Env) (rcin : RcInput) (tnow_ms : Z)
    (c : RC_Channel) :
  (0 <= radio_min c)%Z -> (radio_min c <= radio_max c)%Z -> (radio_max c < 2 ^ 15)%Z ->
  (0 <= dead_zone c)%Z -> (0 <= high_in c < 2 ^ 15)%Z ->
  (high_in c * (radio_max c - radio_min c) < 2 ^ 24)%Z ->
  match type_in c with
  | RANGE => (radio_min c + dead_zone c <= radio_max c)%Z
  | ANGLE => (radio_min c <= radio_trim c - dead_zone c)%Z
             /\ (radio_trim c + dead_zone c <= radio_max c)%Z
  end ->
  let use_override := has_override env tnow_ms c && negb (IGNORE_OVERRIDES rcin) in
  let use_receiver := has_had_rc_receiver rcin && negb (IGNORE_RECEIVER rcin) in
  exists (updated : bool) (c' : RC_Channel),
    update env rcin tnow_ms c = Some (updated, c')
    /\ updated = use_override || use_receiver
    /\ (updated = false -> c' = c)
    /\ (updated = true ->
        radio_in c' = (if use_override then to_int16 (override_value c)
                       else to_int16 (rcin_read rcin (ch_in c)))
        /\ match type_in c with
           | RANGE => (0 <= control_in c' <= high_in c)%Z
           | ANGLE => (- high_in c <= control_in c' <= high_in c)%Z
           end
        /\ radio_min c' = radio_min c /\ radio_trim c' = radio_trim c
        /\ radio_max c' = radio_max c /\ switch_state c' = switch_state c
        /\ override_value c' = override_value c).
Proof.
  intros Hmin Hord Hmax Hdz Hh Hexact Hband. cbv zeta.
  unfold update.
  assert (Hconv : forall r, exists v : Z,
             to_int16_of (match type_in (with_radio_in c r) with
                          | RANGE => pwm_to_range (with_radio_in c r)
                          | ANGLE => pwm_to_angle (with_radio_in c r)
                          end) = Some v
             /\ match type_in c with
                | RANGE => (0 <= v <= high_in c)%Z
                | ANGLE => (- high_in c <= v <= high_in c)%Z
                end).
  { intros r. exact (control_in_bounded c r Hmin Hord Hmax Hdz Hh Hexact Hband). }
  destruct (has_override env tnow_ms c && negb (IGNORE_OVERRIDES rcin)).
  - destruct (Hconv (to_int16 (override_value c))) as [v [Ev Hv]].
    cbv zeta. rewrite Ev.
    exists true, (with_control_in (with_radio_in c (to_int16 (override_value c))) v).
    split; [reflexivity|]. split; [reflexivity|]. split; [discriminate|].
    intros _. cbn. repeat split; try reflexivity; destruct (type_in c); lia.
  - destruct (has_had_rc_receiver rcin && negb (IGNORE_RECEIVER rcin)).
    + destruct (Hconv (to_int16 (rcin_read rcin (ch_in c)))) as [v [Ev Hv]].
      cbv zeta. rewrite Ev.
      exists true,
        (with_control_in (with_radio_in c (to_int16 (rcin_read rcin (ch_in c)))) v).
      split; [reflexivity|]. split; [reflexivity|]. split; [discriminate|].
      intros _. cbn. repeat split; try reflexivity; destruct (type_in c); lia.
    + exists false, c. split; [reflexivity|]. split; [reflexivity|].
      split; [reflexivity | discriminate].
Qed.

End Update.

Lemma update_control_in_bounded_witness :
  exists (updated : bool) (c' : RC_Channel),
    update (example_env None)
      {| IGNORE_OVERRIDES := false; IGNORE_RECEIVER := false;
         has_had_rc_receiver := true; rcin_read := fun _ => 1700%Z |}
      0 (example_channel 0 0) = Some (updated, c')
    /\ updated = true.
Proof.
  destruct (update_control_in_bounded (example_env None)
              {| IGNORE_OVERRIDES := false; IGNORE_RECEIVER := false;
                 has_had_rc_receiver := true; rcin_read := fun _ => 1700%Z |}
              0%Z (example_channel 0 0))
    as (updated & c' & Eu & Eb & _);
    try (cbv [example_channel radio_min radio_max dead_zone high_in radio_trim type_in];
         lia).
  exists updated, c'. split; [exact Eu | exact Eb].
Defined.

(** ** Dead zone of the minimum *)

Section MinDeadZone.

Local Open Scope Z_scope.

(** X23: [in_min_dz] and [pwm_to_range] agree on a channel that is not
    reversed, whose [radio_in] and [radio_min] are 16-bit values, whose
    dead zone is not negative and whose [radio_min + dead_zone] is below
    2^15, so that it fits the [int16_t] that [pwm_to_range_dz] keeps it in:
    when the input is within the dead zone of the minimum, the range
    conversion gives exactly 0, whatever [radio_max] and the scale are. *)
Theorem in_min_dz_range_zero (c : RC_Channel) :
  is_int16 (radio_in c) -> is_int16 (radio_min c) ->
  0 <= dead_zone c -> radio_min c + dead_zone c < 2 ^ 15 ->
  get_reverse c = false ->
  in_min_dz c = true ->
  pwm_to_range c = F32.zero.
Proof.
  intros Hin Hmin Hdz Hsum Hrev Hdead.
  unfold in_min_dz in Hdead. apply Z.ltb_lt in Hdead.
  unfold is_int16 in *. change (2 ^ 15) with 32768 in *.
  unfold pwm_to_range, pwm_to_range_dz. rewrite Hrev.
  rewrite (to_uint16_small (dead_zone c)) by (change (2 ^ 16) with 65536; lia).
  rewrite (to_int16_id (radio_in c)) by (unfold is_int16; change (2 ^ 15) with 32768; lia).
  rewrite (to_int16_id (radio_min c + dead_zone c))
    by (unfold is_int16; change (2 ^ 15) with 32768; lia).
  assert ((constrain_int16 (radio_in c) (radio_min c) (radio_max c)
           >? radio_min c + dead_zone c) = false) as ->.
  { rewrite Z.gtb_ltb. apply Z.ltb_ge. unfold constrain_int16.
    destruct (radio_in c <? radio_min c) eqn:E1; [lia|].
    destruct (radio_in c >? radio_max c) eqn:E2; [|lia].
    rewrite Z.gtb_ltb in E2. apply Z.ltb_lt in E2. lia. }
  reflexivity.
Qed.

End MinDeadZone.

Lemma in_min_dz_range_zero_witness :
  pwm_to_range (example_channel 0 1050) = F32.zero.
Proof.
  apply in_min_dz_range_zero;
    try (cbv [is_int16 example_channel radio_in radio_min dead_zone]; lia);
    reflexivity.
Defined.

(** The bound on the dead zone is needed.  With DZ = -100 the [uint16_t]
    parameter of [pwm_to_range_dz] holds 65436 and [radio_trim_low] wraps to
    1000: an input of 900 is within the dead zone for [in_min_dz], and
    [pwm_to_range] gives 1000 * 100 / 900. *)
Lemma in_min_dz_negative_dead_zone :
  let c := {| radio_in := 900; control_in := 0;
              radio_min := 1100; radio_trim := 1500; radio_max := 1900;
              reversed := 0; dead_zone := -100; option_ := 0;
              type_in := RANGE; high_in := 1000; ch_in := 6;
              override_value := 0; last_override_time := 0;
              switch_state := unset_switch_state |} in
  in_min_dz c = true /\ pwm_to_range c = F32.Finite (3640889 # 32768).
Proof.
  cbv zeta. split; [reflexivity | vm_compute; reflexivity].
Qed.

(** ** A switch moved and held *)

Section RunsOnce.

Local Open Scope Z_scope.

Variable cfg : Config.
Variable env : Env.

Lemma reads_as_same_reversed (s s' : State) (pwm : Z) (p : AuxSwitchPos) :
  reversed (chan s') = reversed (chan s) ->
  reads_as cfg env s pwm p -> reads_as cfg env s' pwm p.
Proof.
  unfold reads_as, read_3pos_switch, get_radio_in. cbn.
  intros Hrev. rewrite Hrev. auto.
Qed.

(** The trigger and the calls around the handler depend on the option and
    the index of the channel only. *)
Lemma rc_trigger_same_setup (c c' : RC_Channel) (q : AuxSwitchPos) :
  (forall (pwm : Z) (ss : switch_state_t),
     set_switch_state (with_radio_in c' pwm) ss
     = set_switch_state (with_radio_in c pwm) ss) ->
  rc_trigger c' q = rc_trigger c q
  /\ calls_before_handler cfg env c' q = calls_before_handler cfg env c q
  /\ forall r : bool, calls_after_handler cfg c' q r = calls_after_handler cfg c q r.
Proof.
  intros H.
  pose proof (f_equal option_ (H 0 (switch_state c))) as Ho.
  pose proof (f_equal ch_in (H 0 (switch_state c))) as Hc.
  cbn in Ho, Hc.
  unfold rc_trigger, calls_before_handler, calls_after_handler, option_id.
  rewrite Ho, Hc. auto.
Qed.

(** X24: a switch moved to a new position and held there runs its function
    exactly once.  On a channel settled at [q0], whose option is not
    RC_OVERRIDE_ENABLE and whose function is dispatched to
    [do_aux_function]: the read that first sees [q1] and the reads of [q1]
    less than 200 ms after it return false; the first read of [q1] at least
    200 ms after it returns true; every later read of [q1] returns false;
    what the whole sequence did outside the channel is what one application
    of [do_aux_function] to the trigger of the channel at [q1] does, between
    the calls that precede the handler and the log record that carries its
    result; and [q1] is then the latched position. *)
Theorem read_aux_runs_once (q0 q1 : AuxSwitchPos) (t1 pwm1 t2 pwm2 : Z)
    (pending held : list (Z * Z)) (s : State) :
  option_id (chan s) <> AUX_FUNC.DO_NOTHING ->
  option_id (chan s) <> AUX_FUNC.RC_OVERRIDE_ENABLE ->
  is_6pos_special_case cfg (option_id (chan s)) = false ->
  initialised (switch_of s) = true ->
  current_position (switch_of s) = position_of q0 ->
  debounce_position (switch_of s) = position_of q0 ->
  q1 <> q0 ->
  reads_as cfg env s pwm1 q1 ->
  Forall (fun sample => reads_as cfg env s (snd sample) q1
                        /\ sub_uint32 (fst sample) t1 < 200) pending ->
  reads_as cfg env s pwm2 q1 ->
  200 <= sub_uint32 t2 t1 ->
  Forall (fun sample => reads_as cfg env s (snd sample) q1) held ->
  let samples := (t1, pwm1) :: pending ++ (t2, pwm2) :: held in
  let out := read_aux_samples cfg env (do_aux_function cfg env) samples s in
  let confirmed :=
    with_switch_state (receive s pwm2)
      (switch_state_of (position_of q1) (position_of q1) t1 true) in
  let before := after_calls confirmed (calls_before_handler cfg env (chan s) q1) in
  let handled := do_aux_function cfg env (rc_trigger (chan s) q1) before in
  fst out = false :: repeat false (length pending) ++ true :: repeat false (length held)
  /\ world (snd out)
     = world (after_calls (snd handled)
                (calls_after_handler cfg (chan s) q1 (fst handled)))
  /\ current_position (switch_of (snd out)) = position_of q1.
Proof.
  intros Hopt Hover Hvtx Hinit Hcur Hdeb Hneq Hfirst Hpend Hsecond Hlate Hheld.
  cbv zeta.
  assert (Hpos : position_of q0 <> position_of q1).
  { intros H. apply position_of_inj in H. congruence. }
  cbn [read_aux_samples].
  assert (Hss : switch_of (receive s pwm1)
                = switch_state_of (position_of q0) (position_of q0)
                    (last_edge_time_ms (switch_of s)) true).
  { change (switch_of (receive s pwm1)) with (switch_of s).
    destruct (switch_of s) as [d c e i]. cbn in *. subst. reflexivity. }
  rewrite (read_aux_pending cfg env (do_aux_function cfg env) t1 (receive s pwm1) q1
             (position_of q0) (position_of q0) (last_edge_time_ms (switch_of s))
             Hopt Hvtx Hfirst Hss Hpos Hpos).
  set (s1 := with_switch_state (receive s pwm1)
               (switch_state_of (position_of q1) (position_of q0) t1 true)).
  assert (Hq1 : quiet s s1) by (unfold quiet; cbn; auto).
  rewrite read_aux_samples_app.
  assert (Hpend1 : Forall (fun sample => reads_as cfg env s1 (snd sample) q1
                                         /\ sub_uint32 (fst sample) t1 < 200) pending).
  { eapply Forall_impl; [|exact Hpend]. intros a [Ha Hb].
    split; [exact (reads_as_quiet cfg env s s1 _ _ Hq1 Ha) | exact Hb]. }
  destruct (read_aux_samples_pending cfg env (do_aux_function cfg env) q1
              (position_of q0) t1 pending s1 Hopt Hvtx eq_refl Hpos Hpend1)
    as (Hrs2 & Hq2 & Hs2).
  pose proof (read_aux_samples_pending_chan cfg env (do_aux_function cfg env) q1
                (position_of q0) t1 pending s1 Hopt Hvtx eq_refl Hpos Hpend1) as Hch2.
  set (s2 := snd (read_aux_samples cfg env (do_aux_function cfg env) pending s1)) in *.
  assert (Hq12 : quiet s s2) by exact (quiet_trans _ _ _ Hq1 Hq2).
  assert (Hch : forall (pwm : Z) (ss : switch_state_t),
             set_switch_state (with_radio_in (chan s2) pwm) ss
             = set_switch_state (with_radio_in (chan s) pwm) ss).
  { intros pwm ss. rewrite Hch2. reflexivity. }
  assert (Hopt2 : option_id (chan s2) <> AUX_FUNC.DO_NOTHING).
  { destruct Hq12 as (E & _). unfold option_id. rewrite E. exact Hopt. }
  assert (Hvtx2 : is_6pos_special_case cfg (option_id (chan s2)) = false).
  { destruct Hq12 as (E & _). unfold option_id. rewrite E. exact Hvtx. }
  cbn [fst snd]. rewrite Hrs2.
  cbn [read_aux_samples].
  destruct (read_aux_confirm cfg env (do_aux_function cfg env) t2 (receive s2 pwm2) q1
              (position_of q0) t1 Hopt2 Hvtx2
              (reads_as_quiet cfg env s s2 _ _ Hq12 Hsecond)
              ltac:(change (switch_of (receive s2 pwm2)) with (switch_of s2);
                    rewrite Hs2; reflexivity) Hpos) as [Hconfirm _].
  rewrite (Hconfirm Hlate).
  rewrite announce_and_run_calls.
  assert (Hch' : forall (pwm : Z) (ss : switch_state_t),
             set_switch_state (with_radio_in (chan (receive s2 pwm2)) pwm) ss
             = set_switch_state (with_radio_in (chan s) pwm) ss).
  { intros pwm ss. rewrite <- Hch. reflexivity. }
  destruct (rc_trigger_same_setup (chan s) (chan (receive s2 pwm2)) q1 Hch')
    as (Etrig & Ebefore & Eafter).
  rewrite Etrig, Ebefore, Eafter.
  assert (Es3 : with_switch_state (receive s2 pwm2)
                  (switch_state_of (position_of q1) (position_of q1) t1 true)
                = with_switch_state (receive s pwm2)
                    (switch_state_of (position_of q1) (position_of q1) t1 true)).
  { unfold with_switch_state, receive. cbn [chan world].
    rewrite Hch. destruct Hq12 as (_ & _ & Hw). rewrite Hw. reflexivity. }
  rewrite Es3.
  set (confirmed := with_switch_state (receive s pwm2)
                      (switch_state_of (position_of q1) (position_of q1) t1 true)).
  set (before := after_calls confirmed (calls_before_handler cfg env (chan s) q1)).
  destruct (do_aux_function_footprint cfg env (rc_trigger (chan s) q1) before)
    as (Hframe & _).
  destruct (Hframe ltac:(apply Z.eqb_neq; exact Hover)) as (Hchan & _).
  set (handled := do_aux_function cfg env (rc_trigger (chan s) q1) before) in *.
  set (s4 := after_calls (snd handled)
               (calls_after_handler cfg (chan s) q1 (fst handled))).
  assert (Hchan4 : chan s4 = chan confirmed) by exact Hchan.
  assert (Hrev4 : reversed (chan s4) = reversed (chan s)) by (rewrite Hchan4; reflexivity).
  assert (Hopt4 : option_id (chan s4) <> AUX_FUNC.DO_NOTHING).
  { rewrite Hchan4. exact Hopt. }
  assert (Hvtx4 : is_6pos_special_case cfg (option_id (chan s4)) = false).
  { rewrite Hchan4. exact Hvtx. }
  assert (Hheld4 : Forall (fun sample => reads_as cfg env s4 (snd sample) q1) held).
  { eapply Forall_impl; [|exact Hheld]. intros a Ha.
    exact (reads_as_same_reversed s s4 _ _ Hrev4 Ha). }
  destruct (read_aux_samples_latched cfg env (do_aux_function cfg env) q1 held s4
              Hopt4 Hvtx4
              ltac:(unfold switch_of; rewrite Hchan4; reflexivity)
              ltac:(unfold switch_of; rewrite Hchan4; reflexivity) Hheld4)
    as (Hrs5 & (_ & _ & Hw5) & _ & Hc5 & _).
  destruct (read_aux_samples cfg env (do_aux_function cfg env) held s4) as [rs5 s5].
  cbn [fst snd] in *. rewrite Hrs5.
  split; [reflexivity|]. split; [exact Hw5 | exact Hc5].
Qed.

End RunsOnce.

Lemma read_aux_runs_once_witness :
  let out := read_aux_samples example_config (example_env None)
               (do_aux_function example_config (example_env None))
               [(1000, 1900); (1100, 1900); (1200, 1900); (1220, 1900)]
               (settled_low AUX_FUNC.FENCE) in
  fst out = [false; false; true; false]
  /\ events (world (snd out))
     = [RC_set_aux_cached AUX_FUNC.FENCE HIGH; Fence_enable_configured true;
        Logger_Write_AUXF AUX_FUNC.FENCE 2 1 6 1].
Proof.
  cbv zeta.
  pose proof (read_aux_runs_once example_config (example_env None)
                LOW HIGH 1000 1900 1200 1900 [(1100, 1900)] [(1220, 1900)]
                (settled_low AUX_FUNC.FENCE)) as H.
  cbv zeta in H.
  destruct H as (Hres & Hworld & _).
  - vm_compute. discriminate.
  - vm_compute. discriminate.
  - reflexivity.
  - reflexivity.
  - reflexivity.
  - reflexivity.
  - discriminate.
  - reflexivity.
  - apply Forall_cons; [split; reflexivity | apply Forall_nil].
  - reflexivity.
  - vm_compute. discriminate.
  - apply Forall_cons; [reflexivity | apply Forall_nil].
  - split; [exact Hres|].
    refine (eq_trans (f_equal events Hworld) _). reflexivity.
Defined.

(** ** Conversion onto an option in use *)

Section ConvertClash.

Local Open Scope Z_scope.

(** X25: [convert_options] does not look for clashes.  When one channel
    holds [old_option] and another already holds [new_option], an id that
    the duplicate check covers, [duplicate_options_exist] is true after the
    conversion. *)
Theorem convert_options_onto_used_option (cfg : Config) (old_option new_option : Z)
    (channels : list RC_Channel) (i j : nat) (ci cj : RC_Channel) :
  new_option <> AUX_FUNC.DO_NOTHING ->
  0 <= new_option < to_uint16 (AUX_FUNCTION_MAX cfg) ->
  new_option <> old_option ->
  nth_error channels i = Some ci -> option_id ci = old_option ->
  nth_error channels j = Some cj -> option_id cj = new_option ->
  duplicate_options_exist cfg (convert_options old_option new_option channels) = true.
Proof.
  intros Hnz Hnew Hneq Hi Hci Hj Hcj.
  assert (H16 : 0 <= new_option < 2 ^ 16).
  { unfold to_uint16 in Hnew.
    pose proof (Z.mod_pos_bound (AUX_FUNCTION_MAX cfg) (2 ^ 16) ltac:(reflexivity)). lia. }
  assert (Hij : i <> j) by (intros ->; congruence).
  set (ci' := with_option ci (to_int16 new_option)).
  assert (Hi' : nth_error (convert_options old_option new_option channels) i = Some ci').
  { unfold convert_options. rewrite nth_error_map, Hi. cbn [option_map].
    unfold option_id in Hci. rewrite Hci, Z.eqb_refl. reflexivity. }
  assert (Hj' : nth_error (convert_options old_option new_option channels) j = Some cj).
  { unfold convert_options. rewrite nth_error_map, Hj. cbn [option_map].
    unfold option_id in Hcj. rewrite Hcj.
    assert ((new_option =? old_option) = false) as -> by (apply Z.eqb_neq; exact Hneq).
    reflexivity. }
  assert (Hid' : option_id ci' = new_option).
  { unfold option_id, ci'. cbn [with_option option_]. apply to_uint16_to_int16. exact H16. }
  unfold duplicate_options_exist. apply duplicate_options_scan_spec. right.
  unfold duplicated_option, checked_id.
  destruct (Nat.lt_ge_cases i j) as [Hlt | Hge].
  - exists i, j, ci', cj. rewrite Hid', Hcj. repeat split; try assumption; lia.
  - exists j, i, cj, ci'. rewrite Hid', Hcj. repeat split; try assumption; lia.
Qed.

Lemma convert_options_onto_used_option_witness :
  duplicate_options_exist example_config
    (convert_options AUX_FUNC.RELAY AUX_FUNC.RELAY2
       [example_channel AUX_FUNC.RELAY 1500; example_channel AUX_FUNC.RELAY2 1500])
  = true.
Proof.
  refine (convert_options_onto_used_option example_config AUX_FUNC.RELAY AUX_FUNC.RELAY2
            [example_channel AUX_FUNC.RELAY 1500; example_channel AUX_FUNC.RELAY2 1500]
            0%nat 1%nat _ _ _ _ _ eq_refl eq_refl eq_refl eq_refl).
  - discriminate.
  - vm_compute. split; [discriminate | reflexivity].
  - discriminate.
Defined.

End ConvertClash.

(** ** The millisecond clock wrapping round *)

Section Rollover.

Local Open Scope Z_scope.

Lemma sub_uint32_elapsed (t0 dt : Z) :
  0 <= dt < 2 ^ 32 -> sub_uint32 (to_uint32 (t0 + dt)) t0 = dt.
Proof.
  intros Hdt. unfold sub_uint32, to_uint32.
  rewrite Zminus_mod_idemp_l.
  replace (t0 + dt - t0) with dt by lia.
  apply Z.mod_small. exact Hdt.
Qed.

(** X26: the override timeout is measured correctly when the 32-bit
    millisecond clock wraps round.  After an accepted [set_override] of a
    nonzero value, [dt] milliseconds later on the wrapped clock,
    [has_override] is true exactly when [dt] is below the timeout, for
    every [dt] below 2^32 and wherever the clock stood. *)
Theorem has_override_across_rollover (env : Env) (tnow_ms v timestamp_ms dt timeout : Z)
    (s : State) :
  gcs_overrides_enabled (world s) = true ->
  v <> 0 ->
  override_timeout_ms env = Some timeout -> timeout <> 0 ->
  0 <= dt < 2 ^ 32 ->
  let c' := chan (snd (set_override tnow_ms v timestamp_ms s)) in
  has_override env (to_uint32 (last_override_time c' + dt)) c' = (dt <? timeout)
  /\ last_override_time c' = (if timestamp_ms =? 0 then tnow_ms else timestamp_ms).
Proof.
  intros Hen Hv Hto Hnz Hdt. cbv zeta.
  assert (Hc : chan (snd (set_override tnow_ms v timestamp_ms s))
               = set_override_fields (chan s) v
                   (if negb (timestamp_ms =? 0) then timestamp_ms else tnow_ms)).
  { unfold set_override. rewrite Hen. reflexivity. }
  rewrite Hc. unfold has_override. cbn [set_override_fields override_value last_override_time].
  apply Z.eqb_neq in Hv, Hnz. rewrite Hv, Hto, Hnz.
  rewrite sub_uint32_elapsed by exact Hdt.
  split; [reflexivity|]. destruct (timestamp_ms =? 0); reflexivity.
Qed.

End Rollover.

Lemma has_override_across_rollover_witness :
  has_override (example_env (Some 3000)) (to_uint32 (4294967000 + 1000))
    (chan (snd (set_override 4294967000 1500 0
                  (example_state AUX_FUNC.DO_NOTHING 1100))))
  = true.
Proof.
  refine (proj1 (has_override_across_rollover (example_env (Some 3000))
                   4294967000 1500 0 1000 3000
                   (example_state AUX_FUNC.DO_NOTHING 1100) _ _ _ _ _)).
  - reflexivity.
  - discriminate.
  - reflexivity.
  - discriminate.
  - vm_compute. split; [discriminate | reflexivity].
Defined.

(** ** Absent subsystems *)

Section NullSafety.

Local Open Scope Z_scope.
Local Open Scope monad_scope.

Ltac present_event :=
  cbv beta; cbn [tested_target];
  repeat match goal with
         | H : _ && _ = true |- _ => apply andb_true_iff in H; destruct H
         | H : negb _ = false |- _ => apply negb_false_iff in H
         | H : negb _ || negb _ = false |- _ => apply orb_false_iff in H; destruct H
         end;
  first [ exact I | assumption
        | apply andb_true_iff; split; assumption ].

Ltac present_step :=
  first
    [ apply footprint_ret
    | apply footprint_set_gcs
    | apply footprint_set_lost
    | apply footprint_emit; present_event
    | apply footprint_bind; [|intros ?]
    | match goal with
      | |- footprint _ _ _ (if ?b then _ else _) => destruct b eqn:?
      end
    | progress unfold when, invalid_channel_option,
        do_aux_function_fence, do_aux_function_gripper,
        do_aux_function_rc_override_enable, do_aux_function_avoid_proximity,
        do_aux_function_relay, do_aux_function_runcam_control,
        do_aux_function_runcam_osd_control, do_aux_function_clear_wp,
        do_aux_function_mission_reset, do_aux_function_avoid_adsb,
        do_aux_function_fft_notch_tune, do_aux_function_generator,
        do_aux_function_sprayer, do_aux_function_lost_vehicle_sound,
        do_aux_function_armdisarm, do_aux_function_camera_trigger,
        do_aux_function_record_video, do_aux_function_camera_zoom,
        do_aux_function_camera_manual_focus, do_aux_function_camera_auto_focus,
        do_aux_function_camera_image_tracking, do_aux_function_camera_lens,
        do_aux_function_retract_mount ].

Ltac present_case := cbv beta iota zeta; repeat present_step.

Lemma do_aux_function_present (cfg : Config) (env : Env) (trigger : AuxFuncTrigger) :
  footprint (func trigger =? AUX_FUNC.RC_OVERRIDE_ENABLE)
            (func trigger =? AUX_FUNC.LOST_VEHICLE_SOUND)
            (fun e => match tested_target env e with
                      | Some present => present = true
                      | None => True
                      end)
            (do_aux_function cfg env trigger).
Proof.
  destruct trigger as [f p src idx]. cbn [func pos].
  unfold do_aux_function. cbn [func pos].
  destruct p;
    (destruct f as [|q|q]; [solve [present_case] | | solve [present_case]]);
    do 10 (try (destruct q as [q|q|]; try solve [present_case])).
Qed.

(** X27: the subsystems that [do_aux_function] reaches through a pointer it
    tests are never called when absent.  Whatever the id, the position and
    the build, every call it adds to the camera, RunCam, fence, mission,
    relay events, generator, sprayer, FFT, mount, landing gear, airspeed,
    visual odometry, optical flow, Torqeedo, scripting, ADS-B avoidance or
    proximity avoidance is made with that subsystem present.  The
    statement is about these calls only: a call made through a pointer
    the source does not test, as [logger->log_pause] in the LOG_PAUSE case,
    is not covered. *)
Theorem do_aux_function_null_safe (cfg : Config) (env : Env) (trigger : AuxFuncTrigger)
    (s : State) :
  exists new : list Event,
    events (world (snd (do_aux_function cfg env trigger s))) = events (world s) ++ new
    /\ forall (e : Event) (present : bool),
         In e new -> tested_target env e = Some present -> present = true.
Proof.
  destruct (do_aux_function_present cfg env trigger s)
    as (_ & _ & new & He & Hall).
  exists new. split; [exact He|].
  intros e present Hin Htested. rewrite Forall_forall in Hall.
  specialize (Hall e Hin). cbv beta in Hall. rewrite Htested in Hall. exact Hall.
Qed.

End NullSafety.

Lemma do_aux_function_null_safe_witness :
  exists new : list Event,
    events (world (snd (do_aux_function example_config (example_env None)
                          {| func := AUX_FUNC.CAMERA_TRIGGER; pos := HIGH;
                             source := RC; source_index := 6 |}
                          (example_state AUX_FUNC.CAMERA_TRIGGER 1900))))
    = events (world (example_state AUX_FUNC.CAMERA_TRIGGER 1900)) ++ new
    /\ forall (e : Event) (present : bool),
         In e new -> tested_target (example_env None) e = Some present -> present = true.
Proof.
  exact (do_aux_function_null_safe example_config (example_env None)
           {| func := AUX_FUNC.CAMERA_TRIGGER; pos := HIGH;
              source := RC; source_index := 6 |}
           (example_state AUX_FUNC.CAMERA_TRIGGER 1900)).
Defined.
